(** * JobFy: the scrape pipeline, its run log and its statistics

    A shallow embedding of the Python sources (backend/main.py,
    backend/models.py, scrapers/*.py, config.py) together with the
    properties the design document states about them. *)

From Stdlib Require Import ZArith Ascii DecimalString Sorted Permutation.
From stdpp Require Import base list sets strings.

#[local] Set Warnings "-clear-no-such-hyp".
#[local] Set Warnings "-register-all".

Local Open Scope Z_scope.
Local Open Scope nat_scope.

(** ** Python [str] methods

    A [str] is modelled by [string]; a character is a code point below
    256.  Only the methods the sources call are defined. *)
Module PyStr.

Definition code (c : ascii) : nat := nat_of_ascii c.

(** The characters [str.strip()] removes: the code points below 256
    for which [str.isspace] holds. *)
Definition is_space (c : ascii) : bool :=
  let n := code c in
  ((9 <=? n) && (n <=? 13)) || ((28 <=? n) && (n <=? 32))
  || (n =? 133) || (n =? 160).

Definition is_upper (c : ascii) : bool :=
  let n := code c in
  ((65 <=? n) && (n <=? 90)) || ((192 <=? n) && (n <=? 214))
  || ((216 <=? n) && (n <=? 222)).

Definition lower_char (c : ascii) : ascii :=
  if is_upper c then ascii_of_nat (code c + 32) else c.

(** The upper-case form of an ASCII character: [a]-[z] go to [A]-[Z]
    and the other ASCII characters stay.  Beyond ASCII this is not
    [str.upper] (which maps the accented small letters too, some of
    them to code points above 255): it is used on ASCII text only. *)
Definition upper_char (c : ascii) : ascii :=
  let n := code c in
  if (97 <=? n) && (n <=? 122) then ascii_of_nat (n - 32) else c.

(** [s.lower()] *)
Fixpoint lower (s : string) : string :=
  match s with
  | EmptyString => EmptyString
  | String c s' => String (lower_char c) (lower s')
  end.

(** [s.upper()] for an ASCII [s]: the site names it is applied to
    are ASCII, and what is proved of it is proved for ASCII names. *)
Fixpoint upper (s : string) : string :=
  match s with
  | EmptyString => EmptyString
  | String c s' => String (upper_char c) (upper s')
  end.

(** [s.capitalize()], for the lower-case ASCII words it is applied to. *)
Definition capitalize (s : string) : string :=
  match s with
  | EmptyString => EmptyString
  | String c s' => String (upper_char c) (lower s')
  end.

(** [bool(s)]: a [str] is truthy when it is not empty. *)
Definition truthy (s : string) : bool :=
  match s with EmptyString => false | String _ _ => true end.

(** [s.lstrip()] *)
Fixpoint lstrip (s : string) : string :=
  match s with
  | EmptyString => EmptyString
  | String c s' => if is_space c then lstrip s' else s
  end.

(** [s.rstrip()] *)
Fixpoint rstrip (s : string) : string :=
  match s with
  | EmptyString => EmptyString
  | String c s' =>
      let r := rstrip s' in
      if is_space c && negb (truthy r) then EmptyString else String c r
  end.

(** [s.strip()] *)
Definition strip (s : string) : string := rstrip (lstrip s).

(** [s.rstrip(ch)] for a one-character argument. *)
Fixpoint rstrip_char (ch : ascii) (s : string) : string :=
  match s with
  | EmptyString => EmptyString
  | String c s' =>
      let r := rstrip_char ch s' in
      if bool_decide (c = ch) && negb (truthy r) then EmptyString
      else String c r
  end.

(** [s.split(sep)] for a one-character separator: never the empty
    list, [''.split(',') == ['']]. *)
Fixpoint split (sep : ascii) (s : string) : list string :=
  match s with
  | EmptyString => [EmptyString]
  | String c s' =>
      if bool_decide (c = sep) then EmptyString :: split sep s'
      else match split sep s' with
           | seg :: segs => String c seg :: segs
           | [] => [String c EmptyString]
           end
  end.

(** [sep.join(l)] *)
Fixpoint join (sep : string) (l : list string) : string :=
  match l with
  | [] => EmptyString
  | [s] => s
  | s :: l' => s +:+ sep +:+ join sep l'
  end.

(** [s.startswith(p)] *)
Fixpoint startswith (p s : string) : bool :=
  match p, s with
  | EmptyString, _ => true
  | String a p', String b s' => bool_decide (a = b) && startswith p' s'
  | String _ _, EmptyString => false
  end.

(** [needle in s] *)
Fixpoint contains (needle s : string) : bool :=
  startswith needle s ||
  match s with
  | EmptyString => false
  | String _ s' => contains needle s'
  end.

(** [s.endswith(p)] *)
Definition endswith (p s : string) : bool :=
  startswith (String.rev p) (String.rev s).

(** [s.replace(old, '')] for a non-empty [old]: leftmost occurrences,
    not overlapping. *)
Fixpoint remove_prefix (p s : string) : option string :=
  match p, s with
  | EmptyString, _ => Some s
  | String a p', String b s' =>
      if bool_decide (a = b) then remove_prefix p' s' else None
  | String _ _, EmptyString => None
  end.

Fixpoint replace_empty_go (fuel : nat) (old s : string) : string :=
  match fuel with
  | O => s
  | S fuel' =>
      match remove_prefix old s with
      | Some rest => replace_empty_go fuel' old rest
      | None =>
          match s with
          | EmptyString => EmptyString
          | String c s' => String c (replace_empty_go fuel' old s')
          end
      end
  end.

Definition replace_empty (old s : string) : string :=
  replace_empty_go (String.length s) old s.

(** Grouping of a reversed digit list in threes. *)
Fixpoint commas_rev (k : nat) (l : list ascii) : list ascii :=
  match l with
  | [] => []
  | c :: l' =>
      match k with
      | O => ","%char :: c :: commas_rev 2 l'
      | S k' => c :: commas_rev k' l'
      end
  end.

Definition digits (n : N) : list ascii :=
  String.list_ascii_of_string (NilZero.string_of_uint (N.to_uint n)).

(** [f"{n:,}"] for an [int]. *)
Definition format_comma (n : Z) : string :=
  let body :=
    String.string_of_list_ascii (reverse (commas_rev 3 (reverse (digits (Z.abs_N n))))) in
  if (n <? 0)%Z then String "-"%char body else body.

End PyStr.


(** ** Python [dict] with [str] keys

    A dict literal keeps insertion order; it is modelled by the list of
    its items, a key occurring at most once. *)
Module PyDict.

Fixpoint get {V} (d : list (string * V)) (key : string) : option V :=
  match d with
  | [] => None
  | (k, v) :: d' => if bool_decide (k = key) then Some v else get d' key
  end.

(** [key in d] *)
Definition mem {V} (key : string) (d : list (string * V)) : bool :=
  bool_decide (is_Some (get d key)).

(** [d[key] = v]: an existing key keeps its place. *)
Fixpoint set {V} (d : list (string * V)) (key : string) (v : V)
  : list (string * V) :=
  match d with
  | [] => [(key, v)]
  | (k, w) :: d' =>
      if bool_decide (k = key) then (k, v) :: d' else (k, w) :: set d' key v
  end.

End PyDict.

(** ** config.py *)
Module Config.

Record Credentials := { username : string; password : string }.

Record SiteConfig := {
  name : string;
  base_url : string;
  requires_auth : bool;
  credentials : option Credentials }.

Section Environment.
(** [os.getenv], after [load_dotenv()]. *)
Variable getenv : string -> option string.

Definition get_credentials (site : string) : option Credentials :=
  match getenv (PyStr.upper site +:+ "_USERNAME"),
        getenv (PyStr.upper site +:+ "_PASSWORD") with
  | Some u, Some p =>
      if PyStr.truthy u && PyStr.truthy p
      then Some {| username := u; password := p |} else None
  | _, _ => None
  end.

Definition SITES_CONFIG : list (string * SiteConfig) :=
  [ ("remoteok", {| name := "RemoteOK"; base_url := "https://remoteok.com";
                    requires_auth := false; credentials := None |});
    ("infojobs", {| name := "InfoJobs"; base_url := "https://www.infojobs.net";
                    requires_auth := true;
                    credentials := get_credentials "INFOJOBS" |});
    ("linkedin", {| name := "LinkedIn"; base_url := "https://www.linkedin.com";
                    requires_auth := true;
                    credentials := get_credentials "LINKEDIN" |});
    ("indeed", {| name := "Indeed"; base_url := "https://www.indeed.com";
                  requires_auth := false; credentials := None |});
    ("tecnoempleo", {| name := "Tecnoempleo";
                       base_url := "https://www.tecnoempleo.com";
                       requires_auth := false; credentials := None |}) ].

(** [SITES_CONFIG[key]] for one of the five keys above. *)
Definition site_config (key : string) : SiteConfig :=
  default {| name := ""; base_url := ""; requires_auth := false;
             credentials := None |}
          (PyDict.get SITES_CONFIG key).
End Environment.

End Config.

(** ** scrapers/base.py *)
Module Base.
Import Config.

Record JobOffer := {
  job_title : string;
  company : string;
  tags : string;
  apply_link : string;
  location : string;
  salary : string;
  source : string }.

(** The dataclass defaults: [location], [salary] and [source] are
    ["N/A"] unless given. *)
Definition NA : string := "N/A".

Definition mkJobOffer (job_title company tags apply_link location salary : string)
  : JobOffer :=
  {| job_title := job_title; company := company; tags := tags;
     apply_link := apply_link; location := location; salary := salary;
     source := NA |}.

(** [job.source = name] *)
Definition set_source (name : string) (job : JobOffer) : JobOffer :=
  {| job_title := job_title job; company := company job; tags := tags job;
     apply_link := apply_link job; location := location job;
     salary := salary job; source := name |}.

(** The queries the scrapers put to a parsed page. *)
Inductive Query :=
| TagClass (tag cls : string)        (* find_all(tag, class_=cls) *)
| TagAttr (tag attr value : string)  (* find_all(tag, {attr: value}) *)
| TagHasAttr (tag attr : string)     (* find_all(tag, attr=True) *)
| Tag (tag : string)                 (* find_all(tag) *)
| Css (selector : string).           (* select(selector) *)

(** BeautifulSoup, as far as the scrapers use it. *)
Class Markup (Node : Type) := {
  parse_html : string -> Node;               (* BeautifulSoup(html, "html.parser") *)
  find_all : Node -> Query -> list Node;     (* find_all / select *)
  get_text : Node -> string;                 (* get_text(strip=True) *)
  get_attr : Node -> string -> option string;  (* the attribute, when present *)
  node_name : Node -> string;                (* .name *)
  parent : Node -> option Node }.            (* .parent *)

(** [find] and [select_one] return the first match or [None]. *)
Definition find `{Markup Node} (n : Node) (q : Query) : option Node :=
  head (find_all n q).

(** [a or b] on two lookups: a found node is always truthy. *)
Definition or_else {A} (a b : option A) : option A :=
  match a with Some _ => a | None => b end.

(** The network as one run of a scraper sees it. *)
Record Response := { text : string; url : string }.

Class Network := {
  (* session.get + raise_for_status, body on success *)
  http_get : string -> option string;
  (* session.post(url, data, allow_redirects=True); None when it raises *)
  http_post : string -> list (string * string) -> option Response }.

(** urllib.parse *)
Class Urllib := {
  quote_plus : string -> string;
  urljoin : string -> string -> string }.

(** The abstract methods of [BaseScraper], one instance per site. *)
Record Scraper := {
  config : SiteConfig;
  _perform_login : bool;
  get_search_url : string -> string -> string;
  parse_job_listings : string -> list JobOffer }.

Section BaseScraper.
Context `{Network}.
Variable self : Scraper.

(** [fetch_page]: every request error is caught and gives [None]. *)
Definition fetch_page (url : string) : option string := http_get url.

Definition login : bool :=
  if negb (requires_auth (config self)) then true
  else match credentials (config self) with
       | None => false
       | Some _ => _perform_login self
       end.

Definition scrape (keyword location : string) : list JobOffer :=
  if requires_auth (config self) && negb login then []
  else
    let search_url := get_search_url self keyword location in
    match fetch_page search_url with
    | None => []
    | Some html =>
        if negb (PyStr.truthy html) then []
        else
          let jobs := parse_job_listings self html in
          set_source (name (config self)) <$> jobs
    end.
End BaseScraper.

End Base.

(** ** scrapers/remoteok.py *)
Module RemoteOK.
Import Config Base.

(** One entry of the decoded feed.  A field is [None] when the entry
    has no such key; the salary bounds are [None] also when the feed
    gives [null].  For the company and the url the feed is taken to
    give a string or no key: with a [null] there the offer would carry
    Python's [None], which the [jobs] table refuses (the columns are
    not nullable); such entries are outside this model. *)
Record Item := {
  legal : option string;
  position : option string;
  item_company : option string;
  item_tags : option (list string);
  slug : option string;
  item_url : option string;
  salary_min : option Z;
  salary_max : option Z;
  item_location : option string }.

Definition API_URL : string := "https://remoteok.com/api".

(** Truth value of [item.get(key)] for an [int] value. *)
Definition truthy_int (v : option Z) : bool :=
  match v with Some n => negb (n =? 0)%Z | None => false end.

Section RemoteOKScraper.
Variable config : SiteConfig.

Definition _extract_job (item : Item) : option JobOffer :=
  let job_title := default "" (position item) in
  if negb (PyStr.truthy job_title) then None
  else
    let company := default "N/A" (item_company item) in
    let tags_list := default [] (item_tags item) in
    let tags :=
      match tags_list with
      | [] => "N/A"
      | _ => PyStr.join ", " tags_list
      end in
    let slug := default "" (slug item) in
    let apply_link :=
      if PyStr.truthy slug then base_url config +:+ "/" +:+ slug
      else default "N/A" (item_url item) in
    let salary :=
      if truthy_int (salary_min item) && truthy_int (salary_max item) then
        "$" +:+ PyStr.format_comma (default 0%Z (salary_min item))
            +:+ " - $" +:+ PyStr.format_comma (default 0%Z (salary_max item))
      else if truthy_int (salary_min item) then
        "$" +:+ PyStr.format_comma (default 0%Z (salary_min item)) +:+ "+"
      else "N/A" in
    let location :=
      let l := default "Remote" (item_location item) in
      if PyStr.truthy l then l else "Remote" in
    Some (mkJobOffer job_title company tags apply_link location salary).

(** The text the keyword is looked up in. *)
Definition searchable (job : JobOffer) : string :=
  PyStr.lower (job_title job +:+ " " +:+ company job +:+ " " +:+ tags job).

(** The loop of [_parse_api_response], [jobs] being the list built
    so far. *)
Fixpoint parse_loop (keyword_lower : string) (data : list Item)
    (jobs : list JobOffer) : list JobOffer :=
  match data with
  | [] => jobs
  | item :: rest =>
      if bool_decide (is_Some (legal item)) then parse_loop keyword_lower rest jobs
      else match _extract_job item with
           | None => parse_loop keyword_lower rest jobs
           | Some job =>
               if PyStr.truthy keyword_lower
                  && negb (PyStr.contains keyword_lower (searchable job))
               then parse_loop keyword_lower rest jobs
               else parse_loop keyword_lower rest (jobs ++ [job])
           end
  end.

Definition _parse_api_response (data : list Item) (keyword : string)
  : list JobOffer :=
  let keyword_lower := if PyStr.truthy keyword then PyStr.lower keyword else "" in
  take 50 (parse_loop keyword_lower data []).

(** [scrape]: [response] is the decoded body of the API, [None]
    when the request or the decoding raised. *)
Definition scrape (response : option (list Item)) (keyword location : string)
  : list JobOffer :=
  match response with
  | None => []
  | Some data =>
      let jobs := _parse_api_response data keyword in
      set_source (name config) <$> jobs
  end.
End RemoteOKScraper.

End RemoteOK.

(** ** scrapers/linkedin.py *)
Module LinkedIn.
Import Config Base.

Definition LOGIN_URL : string := "https://www.linkedin.com/login".
Definition SESSION_URL : string := "https://www.linkedin.com/uas/login-submit".
Definition JOBS_URL : string := "https://www.linkedin.com/jobs/search".

Section LinkedInScraper.
Context `{Markup Node} `{Network} `{Urllib}.
Variable config : SiteConfig.

Definition _perform_login : bool :=
  match credentials config with
  | None => false
  | Some cred =>
      match http_get LOGIN_URL with
      | None => false
      | Some login_page =>
          if negb (PyStr.truthy login_page) then false
          else
            let soup := parse_html login_page in
            let csrf_token :=
              match find soup (TagAttr "input" "name" "loginCsrfParam") with
              | Some csrf_input => default "" (get_attr csrf_input "value")
              | None => ""
              end in
            let login_data :=
              [ ("session_key", username cred);
                ("session_password", password cred);
                ("loginCsrfParam", csrf_token) ] in
            match http_post SESSION_URL login_data with
            | None => false
            | Some response =>
                PyStr.contains "feed" (url response)
                || PyStr.contains "mynetwork" (url response)
            end
      end
  end.

Definition get_search_url (keyword location : string) : string :=
  let params := [] in
  let params :=
    if PyStr.truthy keyword
    then params ++ ["keywords=" +:+ quote_plus keyword] else params in
  let params :=
    if PyStr.truthy location
    then params ++ ["location=" +:+ quote_plus location] else params in
  let params := params ++ ["f_TPR=r604800"] in
  let params := params ++ ["sortBy=R"] in
  JOBS_URL +:+ "?" +:+ PyStr.join "&" params.

Definition _extract_job (card : Node) : option JobOffer :=
  let title_elem :=
    or_else (find card (TagClass "h3" "base-search-card__title"))
      (or_else (find card (TagClass "a" "job-card-list__title"))
         (find card (Css "[class*='job-title']"))) in
  let job_title := get_text <$> title_elem in
  match job_title with
  | None => None
  | Some job_title =>
      if negb (PyStr.truthy job_title) then None
      else
        let company_elem :=
          or_else (find card (TagClass "h4" "base-search-card__subtitle"))
            (or_else (find card (TagClass "a" "job-card-container__company-name"))
               (find card (Css "[class*='company-name']"))) in
        let company := default "N/A" (get_text <$> company_elem) in
        let location_elem :=
          or_else (find card (TagClass "span" "job-search-card__location"))
            (or_else (find card (TagClass "li" "job-card-container__metadata-item"))
               (find card (Css "[class*='location']"))) in
        let location := default "N/A" (get_text <$> location_elem) in
        let link_elem :=
          or_else (find card (TagClass "a" "base-card__full-link"))
                  (find card (TagHasAttr "a" "href")) in
        let apply_link :=
          match link_elem with
          | None => "N/A"
          | Some link_elem =>
              let href := default "" (get_attr link_elem "href") in
              if PyStr.startswith "http" href
              then default "" (head (PyStr.split "?"%char href))
              else urljoin (base_url config) href
          end in
        Some (mkJobOffer job_title company "N/A" apply_link location "N/A")
  end.

(** The cards of a results page: three selectors, each tried only
    when the one before found nothing. *)
Definition job_cards (soup : Node) : list Node :=
  let job_cards := find_all soup (TagClass "div" "base-card") in
  let job_cards :=
    match job_cards with
    | [] => find_all soup (TagClass "li" "jobs-search-results__list-item")
    | _ => job_cards
    end in
  let job_cards :=
    match job_cards with
    | [] => find_all soup (Css "[data-job-id]")
    | _ => job_cards
    end in
  job_cards.

Definition parse_job_listings (html : string) : list JobOffer :=
  let soup := parse_html html in
  omap _extract_job (job_cards soup).

Definition scraper : Scraper :=
  {| Base.config := config;
     Base._perform_login := _perform_login;
     Base.get_search_url := get_search_url;
     Base.parse_job_listings := parse_job_listings |}.
End LinkedInScraper.

End LinkedIn.

(** ** scrapers/indeed.py *)
Module Indeed.
Import Config Base.

(** [_update_base_url]: the constructor rewrites the base URL for the
    three countries it knows. *)
Definition _update_base_url (country : string) (config : SiteConfig) : SiteConfig :=
  let with_url u :=
    {| name := name config; base_url := u;
       requires_auth := requires_auth config;
       credentials := credentials config |} in
  if bool_decide (country = "es") then with_url "https://es.indeed.com"
  else if bool_decide (country = "mx") then with_url "https://mx.indeed.com"
  else if bool_decide (country = "ar") then with_url "https://ar.indeed.com"
  else config.

Section IndeedScraper.
Context `{Markup Node} `{Urllib}.
Variable config : SiteConfig.

Definition _perform_login : bool := true.

Definition get_search_url (keyword location : string) : string :=
  let params := [] in
  let params :=
    if PyStr.truthy keyword then params ++ ["q=" +:+ quote_plus keyword]
    else params in
  let params :=
    if PyStr.truthy location then params ++ ["l=" +:+ quote_plus location]
    else params in
  let params := params ++ ["sort=date"] in
  base_url config +:+ "/jobs?" +:+ PyStr.join "&" params.

Definition _extract_job (card : Node) : option JobOffer :=
  let title_elem :=
    or_else (find card (TagClass "h2" "jobTitle"))
      (or_else (find card (TagClass "a" "jobtitle"))
         (or_else (find card (Css "[data-testid='jobTitle']"))
            (find card (TagHasAttr "span" "title")))) in
  let job_title :=
    match title_elem with
    | None => None
    | Some title_elem =>
        match find title_elem (Tag "span") with
        | Some span => Some (get_text span)
        | None => Some (get_text title_elem)
        end
    end in
  match job_title with
  | None => None
  | Some job_title =>
      if negb (PyStr.truthy job_title) then None
      else
        let link_elem :=
          or_else (find card (TagClass "a" "jcs-JobTitle"))
                  (find card (TagHasAttr "a" "href")) in
        let apply_link :=
          match link_elem with
          | None => "N/A"
          | Some link_elem =>
              let href := default "" (get_attr link_elem "href") in
              if negb (PyStr.truthy href) then "N/A"
              else if PyStr.startswith "/" href then urljoin (base_url config) href
              else if PyStr.startswith "http" href then href
              else "N/A"
          end in
        let company_elem :=
          or_else (find card (TagClass "span" "companyName"))
            (or_else (find card (TagAttr "span" "data-testid" "company-name"))
               (find card (TagClass "a" "companyName"))) in
        let company := default "N/A" (get_text <$> company_elem) in
        let location_elem :=
          or_else (find card (TagClass "div" "companyLocation"))
            (or_else (find card (TagClass "span" "location"))
               (find card (TagAttr "div" "data-testid" "text-location"))) in
        let location := default "N/A" (get_text <$> location_elem) in
        let salary_elem :=
          or_else (find card (TagClass "div" "salary-snippet-container"))
            (or_else (find card (TagClass "span" "salaryText"))
               (find card (TagAttr "div" "data-testid" "attribute_snippet_testid"))) in
        let salary := default "N/A" (get_text <$> salary_elem) in
        let tags_list :=
          get_text <$> find_all card (TagClass "div" "attribute_snippet") in
        let tags :=
          match tags_list with
          | [] => "N/A"
          | _ => PyStr.join ", " tags_list
          end in
        Some (mkJobOffer job_title company tags apply_link location salary)
  end.

(** The cards of a results page: four selectors in turn. *)
Definition job_cards (soup : Node) : list Node :=
  let job_cards := find_all soup (TagClass "div" "job_seen_beacon") in
  let job_cards :=
    match job_cards with
    | [] => find_all soup (TagClass "div" "jobsearch-SerpJobCard")
    | _ => job_cards
    end in
  let job_cards :=
    match job_cards with
    | [] => find_all soup (Css "[data-jk]")
    | _ => job_cards
    end in
  let job_cards :=
    match job_cards with
    | [] => find_all soup (TagClass "td" "resultContent")
    | _ => job_cards
    end in
  job_cards.

Definition parse_job_listings (html : string) : list JobOffer :=
  let soup := parse_html html in
  omap _extract_job (job_cards soup).

Definition scraper : Scraper :=
  {| Base.config := config;
     Base._perform_login := _perform_login;
     Base.get_search_url := get_search_url;
     Base.parse_job_listings := parse_job_listings |}.
End IndeedScraper.

End Indeed.

(** ** scrapers/infojobs.py *)
Module InfoJobs.
Import Config Base.

Definition LOGIN_URL : string :=
  "https://www.infojobs.net/candidate/access/login.xhtml".
Definition SEARCH_URL : string :=
  "https://www.infojobs.net/jobsearch/search-results/list.xhtml".

Section InfoJobsScraper.
Context `{Markup Node} `{Network} `{Urllib}.
Variable config : SiteConfig.

(** A login that cannot be confirmed still reports success. *)
Definition _perform_login : bool :=
  match credentials config with
  | None => false
  | Some cred =>
      match http_get LOGIN_URL with
      | None => false
      | Some login_page =>
          if negb (PyStr.truthy login_page) then false
          else
            let login_data :=
              [ ("j_username", username cred);
                ("j_password", password cred) ] in
            match http_post LOGIN_URL login_data with
            | None => false
            | Some response =>
                if PyStr.contains "logout" (PyStr.lower (text response))
                   || PyStr.contains "mi-cv" (url response)
                then true
                else true
            end
      end
  end.

Definition get_search_url (keyword location : string) : string :=
  let params := [] in
  let params :=
    if PyStr.truthy keyword then params ++ ["q=" +:+ quote_plus keyword]
    else params in
  let params :=
    if PyStr.truthy location
    then params ++ ["provinceIds=" +:+ quote_plus location] else params in
  let query := match params with [] => "" | _ => PyStr.join "&" params end in
  if PyStr.truthy query then SEARCH_URL +:+ "?" +:+ query else SEARCH_URL.

Definition _extract_job (card : Node) : option JobOffer :=
  let title_elem :=
    or_else (find card (TagClass "a" "ij-OfferCardContent-description-title-link"))
      (or_else (find card (TagClass "h2" "ij-OfferCardContent-description-title"))
         (or_else (find card (Css "[data-testid='offer-title']"))
            (find card (TagAttr "a" "data-test" "offer-title")))) in
  match title_elem with
  | None => None
  | Some title_elem =>
      let job_title := get_text title_elem in
      if negb (PyStr.truthy job_title) then None
      else
        let apply_link :=
          if bool_decide (node_name title_elem = "a") then
            let href := default "" (get_attr title_elem "href") in
            if PyStr.truthy href then urljoin (base_url config) href else "N/A"
          else "N/A" in
        let company_elem :=
          or_else
            (find card (TagClass "a" "ij-OfferCardContent-description-subtitle-link"))
            (or_else (find card (Css "[data-testid='offer-company']"))
               (find card (TagClass "span" "ij-OfferCardContent-description-subtitle"))) in
        let company := default "N/A" (get_text <$> company_elem) in
        let location_elem :=
          or_else
            (find card
               (TagClass "span" "ij-OfferCardContent-description-list-item-truncate"))
            (find card (Css "[data-testid='offer-location']")) in
        let location := default "N/A" (get_text <$> location_elem) in
        let salary_elem :=
          find card (TagClass "span" "ij-OfferCardContent-description-salary") in
        let salary := default "N/A" (get_text <$> salary_elem) in
        let tag_elements :=
          find_all card (TagClass "span" "ij-OfferCardContent-description-tag") in
        let joined := PyStr.join ", " (get_text <$> tag_elements) in
        let tags := if PyStr.truthy joined then joined else "N/A" in
        Some (mkJobOffer job_title company tags apply_link location salary)
  end.

(** The cards of a results page: three selectors in turn. *)
Definition job_cards (soup : Node) : list Node :=
  let job_cards := find_all soup (TagClass "div" "ij-OfferCardContent") in
  let job_cards :=
    match job_cards with
    | [] => find_all soup (TagClass "li" "ij-OfferCard")
    | _ => job_cards
    end in
  let job_cards :=
    match job_cards with
    | [] => find_all soup (Css "[data-testid='offer-card']")
    | _ => job_cards
    end in
  job_cards.

Definition parse_job_listings (html : string) : list JobOffer :=
  let soup := parse_html html in
  omap _extract_job (job_cards soup).

Definition scraper : Scraper :=
  {| Base.config := config;
     Base._perform_login := _perform_login;
     Base.get_search_url := get_search_url;
     Base.parse_job_listings := parse_job_listings |}.
End InfoJobsScraper.

End InfoJobs.

(** ** scrapers/tecnoempleo.py *)
Module Tecnoempleo.
Import Config Base.

Definition SEARCH_URL : string :=
  "https://www.tecnoempleo.com/busqueda-empleo.php".

Definition exclude_patterns : list string :=
  [ "assets"; "graficos"; "acceso"; "registro"; "newcand";
    "newemp"; "accemp"; "trabajo/"; "empleo-publico";
    "tecnocalculadora"; "servicios"; ".php"; ".css"; ".js";
    "pagina="; "second-window"; "aws-trabajo"; "ofertas-trabajo/" ].

Definition location_patterns : list string :=
  [ "madrid"; "barcelona"; "valencia"; "sevilla"; "bilbao";
    "malaga"; "zaragoza"; "remote"; "remoto"; "teletrabajo" ].

Section TecnoempleoScraper.
Context `{Markup Node} `{Urllib}.
Variable config : SiteConfig.

Definition _perform_login : bool := true.

Definition get_search_url (keyword location : string) : string :=
  let params := [] in
  let params :=
    if PyStr.truthy keyword then params ++ ["te=" +:+ quote_plus keyword]
    else params in
  let params :=
    if PyStr.truthy location then params ++ ["pr=" +:+ quote_plus location]
    else params in
  let query := match params with [] => "" | _ => PyStr.join "&" params end in
  if PyStr.truthy query then SEARCH_URL +:+ "?" +:+ query else SEARCH_URL.

(** The [href] filter handed to [parent.find]. *)
Definition is_company_href (x : option string) : bool :=
  match x with
  | Some x => PyStr.truthy x && PyStr.contains "-trabajo" x
  | None => false
  end.

Definition _extract_job_from_link (link_elem : Node) (href : string)
  : option JobOffer :=
  let job_title := get_text link_elem in
  if negb (PyStr.truthy job_title) || (String.length job_title <? 5) then None
  else
    let apply_link := urljoin (base_url config) href in
    let company :=
      match parent link_elem with
      | None => "N/A"
      | Some parent =>
          match head (filter (fun a => is_company_href (get_attr a "href"))
                             (find_all parent (Tag "a"))) with
          | Some company_link => get_text company_link
          | None => "N/A"
          end
      end in
    let title_lower := PyStr.lower job_title in
    let location :=
      match head (filter (fun loc => PyStr.contains loc title_lower)
                         location_patterns) with
      | Some loc => PyStr.capitalize loc
      | None => "Espana"
      end in
    Some (mkJobOffer job_title company "IT/Tech" apply_link location "N/A").

(** The loop over the page's links: [seen_urls] and [jobs] are
    the set and the list built so far. *)
Fixpoint harvest (all_links : list Node) (seen_urls : list string)
    (jobs : list JobOffer) : list JobOffer :=
  match all_links with
  | [] => jobs
  | link :: rest =>
      let href := default "" (get_attr link "href") in
      let text := get_text link in
      if negb (PyStr.truthy text) || (String.length text <? 15)
         || (80 <? String.length text)
      then harvest rest seen_urls jobs
      else if bool_decide (href ∈ seen_urls) then harvest rest seen_urls jobs
      else if existsb (fun x => PyStr.contains x (PyStr.lower href)) exclude_patterns
      then harvest rest seen_urls jobs
      else if PyStr.endswith "-trabajo" (PyStr.rstrip_char "/"%char href)
      then harvest rest seen_urls jobs
      else
        let href_path :=
          if PyStr.startswith "https://www.tecnoempleo.com/" href
          then Some (PyStr.replace_empty "https://www.tecnoempleo.com" href)
          else if PyStr.startswith "/" href then Some href
          else None in
        match href_path with
        | None => harvest rest seen_urls jobs
        | Some href_path =>
            if PyStr.contains "-" href_path && (15 <? String.length href_path)
            then match _extract_job_from_link link href with
                 | Some job => harvest rest (href :: seen_urls) (jobs ++ [job])
                 | None => harvest rest seen_urls jobs
                 end
            else harvest rest seen_urls jobs
        end
  end.

Definition parse_job_listings (html : string) : list JobOffer :=
  let soup := parse_html html in
  let all_links := find_all soup (TagHasAttr "a" "href") in
  take 30 (harvest all_links [] []).

(** The legacy per-card method. *)
Definition _extract_job (card : Node) : option JobOffer := None.

Definition scraper : Scraper :=
  {| Base.config := config;
     Base._perform_login := _perform_login;
     Base.get_search_url := get_search_url;
     Base.parse_job_listings := parse_job_listings |}.
End TecnoempleoScraper.

End Tecnoempleo.

(** ** backend/models.py *)
Module Models.

(** A reading of [datetime.utcnow()]. *)
Definition Time := nat.

(** A row of the [jobs] table.  The table has a primary key on [id]
    and no other uniqueness constraint. *)
Module Job.
Record t := {
  id : nat;
  job_title : string;
  company : string;
  location : string;
  salary : string;
  tags : string;
  apply_link : string;
  source : string;
  created_at : Time }.
End Job.

(** The values the [status] column of [scrape_logs] takes; the column
    itself holds their names. *)
Inductive Status := pending | running | completed | failed.

Definition status_name (s : Status) : string :=
  match s with
  | pending => "pending"
  | running => "running"
  | completed => "completed"
  | failed => "failed"
  end.

#[export] Instance Status_eq_dec : EqDecision Status.
Proof. solve_decision. Defined.

(** A row of the [scrape_logs] table. *)
Module ScrapeLog.
Record t := {
  id : nat;
  keyword : string;
  location : string;
  sites : string;
  jobs_found : nat;
  status : Status;
  started_at : Time;
  completed_at : option Time;
  error_message : option string }.
End ScrapeLog.

End Models.

(** ** The database session

    The engine and the session factory behind [get_db] are set up in
    backend/database.py.  What the endpoints rely on is SQLAlchemy's
    [Session]: [add] queues a row, [commit] writes the queued rows, and
    a query sees the queued rows only when the session flushes before
    querying.  That last choice ([autoflush], a flag of the session
    factory, on by default in SQLAlchemy) is a parameter of the model.
    String columns compare exactly, and the database is taken to be
    available and to accept every row a run adds: its operations do not
    raise.  A run whose flush or commit raises (a row the table
    refuses, a database that is gone) leaves its session unusable until
    a rollback that [run_scrape] never makes, so its log stays
    [running]; such runs are outside this model.  The table declares
    no uniqueness on [apply_link] (models.py), so a second row with a
    link already stored is accepted like any other. *)
Module Database.
Import Models.

Record Session := {
  jobs : list Job.t;                 (* rows of [jobs] the database holds *)
  added : list Base.JobOffer;        (* Job objects added, not yet flushed *)
  logs : list ScrapeLog.t;           (* rows of [scrape_logs] *)
  next_job_id : nat;
  next_log_id : nat }.

(** [init_db()] on a new database. *)
Definition empty : Session :=
  {| jobs := []; added := []; logs := []; next_job_id := 1; next_log_id := 1 |}.

(** The row a queued Job becomes: [id] from the sequence, [created_at]
    from the column default. *)
Definition to_row (now : Time) (job_id : nat) (job : Base.JobOffer) : Job.t :=
  {| Job.id := job_id;
     Job.job_title := Base.job_title job;
     Job.company := Base.company job;
     Job.location := Base.location job;
     Job.salary := Base.salary job;
     Job.tags := Base.tags job;
     Job.apply_link := Base.apply_link job;
     Job.source := Base.source job;
     Job.created_at := now |}.

Fixpoint to_rows (now : Time) (job_id : nat) (l : list Base.JobOffer)
  : list Job.t :=
  match l with
  | [] => []
  | job :: l' => to_row now job_id job :: to_rows now (S job_id) l'
  end.

Definition flush (now : Time) (db : Session) : Session :=
  {| jobs := jobs db ++ to_rows now (next_job_id db) (added db);
     added := [];
     logs := logs db;
     next_job_id := next_job_id db + length (added db);
     next_log_id := next_log_id db |}.

(** [db.commit()] *)
Definition commit (now : Time) (db : Session) : Session := flush now db.

(** [db.add(Job(...))] *)
Definition add (job : Base.JobOffer) (db : Session) : Session :=
  {| jobs := jobs db; added := added db ++ [job]; logs := logs db;
     next_job_id := next_job_id db; next_log_id := next_log_id db |}.

Section Autoflush.
Variable autoflush : bool.

(** [db.query(Job).filter(Job.apply_link == link).first()] *)
Definition first_job_by_link (now : Time) (link : string) (db : Session)
  : option Job.t * Session :=
  let db := if autoflush then flush now db else db in
  (head (filter (fun j => Job.apply_link j = link) (jobs db)), db).
End Autoflush.

(** [db.query(ScrapeLog).filter(ScrapeLog.id == log_id).first()] *)
Definition first_log_by_id (log_id : nat) (db : Session) : option ScrapeLog.t :=
  head (filter (fun l => ScrapeLog.id l = log_id) (logs db)).

(** Writing back the attributes set on a loaded log. *)
Definition update_log (log_id : nat) (f : ScrapeLog.t -> ScrapeLog.t)
    (db : Session) : Session :=
  {| jobs := jobs db; added := added db;
     logs := (fun l => if bool_decide (ScrapeLog.id l = log_id) then f l else l)
               <$> logs db;
     next_job_id := next_job_id db; next_log_id := next_log_id db |}.

(** [db.add(log); db.commit(); db.refresh(log)]: the stored log. *)
Definition insert_log (now : Time) (keyword location sites : string)
    (db : Session) : ScrapeLog.t * Session :=
  let log :=
    {| ScrapeLog.id := next_log_id db;
       ScrapeLog.keyword := keyword;
       ScrapeLog.location := location;
       ScrapeLog.sites := sites;
       ScrapeLog.jobs_found := 0;
       ScrapeLog.status := pending;
       ScrapeLog.started_at := now;
       ScrapeLog.completed_at := None;
       ScrapeLog.error_message := None |} in
  let db := flush now db in
  (log, {| jobs := jobs db; added := added db; logs := logs db ++ [log];
           next_job_id := next_job_id db; next_log_id := S (next_log_id db) |}).

(** [db.delete(job); db.commit()] *)
Definition delete_job_row (now : Time) (job_id : nat) (db : Session) : Session :=
  let db := flush now db in
  {| jobs := filter (fun j => Job.id j ≠ job_id) (jobs db); added := added db;
     logs := logs db; next_job_id := next_job_id db;
     next_log_id := next_log_id db |}.

(** [db.query(Job).delete(); db.commit()] *)
Definition delete_all_jobs (now : Time) (db : Session) : nat * Session :=
  let db := flush now db in
  (length (jobs db),
   {| jobs := []; added := added db; logs := logs db;
      next_job_id := next_job_id db; next_log_id := next_log_id db |}).

End Database.

(** ** backend/main.py *)
Module Backend.
Import Models Database.

Inductive ScraperClass :=
| RemoteOKScraper | InfoJobsScraper | LinkedInScraper
| IndeedScraper | TecnoempleoScraper.

Definition SCRAPERS : list (string * ScraperClass) :=
  [ ("remoteok", RemoteOKScraper);
    ("infojobs", InfoJobsScraper);
    ("linkedin", LinkedInScraper);
    ("indeed", IndeedScraper);
    ("tecnoempleo", TecnoempleoScraper) ].

Record HTTPException := { status_code : nat; detail : string }.

(** *** Jobs endpoints *)

Definition delete_job (now : Time) (job_id : nat) (db : Session)
  : (HTTPException + nat) * Session :=
  match head (filter (fun j => Job.id j = job_id) (jobs db)) with
  | None => (inl {| status_code := 404; detail := "Job not found" |}, db)
  | Some _ => (inr job_id, delete_job_row now job_id db)
  end.

Definition clear_jobs (now : Time) (db : Session) : nat * Session :=
  delete_all_jobs now db.

(** *** The tag part of [get_stats] *)

(** [tag_counts[tag] = tag_counts.get(tag, 0) + 1] *)
Definition bump (tag_counts : list (string * nat)) (tag : string)
  : list (string * nat) :=
  PyDict.set tag_counts tag (default 0 (PyDict.get tag_counts tag) + 1).

(** The inner loop, over the pieces of one [tags] value. *)
Fixpoint count_pieces (pieces : list string) (tag_counts : list (string * nat))
  : list (string * nat) :=
  match pieces with
  | [] => tag_counts
  | tag :: rest =>
      let tag := PyStr.strip tag in
      if PyStr.truthy tag then count_pieces rest (bump tag_counts tag)
      else count_pieces rest tag_counts
  end.

(** The outer loop, over the [tags] column: a value is [None] for a
    NULL. *)
Fixpoint count_tags (all_tags : list (option string))
    (tag_counts : list (string * nat)) : list (string * nat) :=
  match all_tags with
  | [] => tag_counts
  | tags :: rest =>
      match tags with
      | Some tags =>
          if PyStr.truthy tags
          then count_tags rest (count_pieces (PyStr.split ","%char tags) tag_counts)
          else count_tags rest tag_counts
      | None => count_tags rest tag_counts
      end
  end.

(** [sorted(items, key=lambda x: x[1], reverse=True)]: Python's sort
    is stable, also when reversed. *)
Fixpoint insert_desc (x : string * nat) (l : list (string * nat))
  : list (string * nat) :=
  match l with
  | [] => [x]
  | y :: l' => if snd y <=? snd x then x :: y :: l' else y :: insert_desc x l'
  end.

Definition sorted_desc (items : list (string * nat)) : list (string * nat) :=
  foldr insert_desc [] items.

Definition top_tags (all_tags : list (option string)) : list (string * nat) :=
  let tag_counts := count_tags all_tags [] in
  take 15 (sorted_desc tag_counts).

(** [db.query(Job.tags).all()] *)
Definition all_tags (db : Session) : list (option string) :=
  (fun j => Some (Job.tags j)) <$> jobs db.

Definition get_stats_top_tags (db : Session) : list (string * nat) :=
  top_tags (all_tags db).

(** *** Scraping endpoints *)

(** What constructing and running one scraper does in a run: the
    constructor raises, or [scrape] raises, or [scrape] returns its
    offers.  The message is [str(e)]. *)
Inductive Outcome :=
| InitRaises (msg : string)
| ScrapeRaises (msg : string)
| Scraped (jobs : list Base.JobOffer).

(** The sites as one run meets them: the outcome of the scraper built
    at the [k]-th turn of the loop, for the keyword and location
    given. *)
Definition Adapter := nat -> ScraperClass -> string -> string -> Outcome.

Section Run.
Variable autoflush : bool.
Variable adapter : Adapter.

(** The loop over the offers of one site. *)
Fixpoint add_jobs (now : Time) (jobs : list Base.JobOffer) (db : Session)
    (total_jobs : nat) : Session * nat :=
  match jobs with
  | [] => (db, total_jobs)
  | job :: rest =>
      let '(existing, db) :=
        first_job_by_link autoflush now (Base.apply_link job) db in
      match existing with
      | Some _ => add_jobs now rest db total_jobs
      | None => add_jobs now rest (add job db) (total_jobs + 1)
      end
  end.

(** The loop over the sites: [inl] when it ends, [inr] when an
    exception leaves it. *)
Fixpoint sites_loop (now : Time) (k : nat) (sites : list string)
    (keyword location : string) (db : Session) (total_jobs : nat)
    (errors : list string)
  : (Session * nat * list string) + (Session * string) :=
  match sites with
  | [] => inl (db, total_jobs, errors)
  | site_name :: rest =>
      match PyDict.get SCRAPERS site_name with
      | None =>
          sites_loop now (S k) rest keyword location db total_jobs
            (errors ++ ["Unknown site: " +:+ site_name])
      | Some scraper_class =>
          match adapter k scraper_class keyword location with
          | InitRaises msg => inr (db, msg)
          | ScrapeRaises msg =>
              sites_loop now (S k) rest keyword location db total_jobs
                (errors ++ [site_name +:+ ": " +:+ msg])
          | Scraped jobs =>
              let '(db, total_jobs) := add_jobs now jobs db total_jobs in
              let db := commit now db in
              sites_loop now (S k) rest keyword location db total_jobs errors
          end
      end
  end.

(** [log.status = "running"] *)
Definition set_running (log : ScrapeLog.t) : ScrapeLog.t :=
  {| ScrapeLog.id := ScrapeLog.id log;
     ScrapeLog.keyword := ScrapeLog.keyword log;
     ScrapeLog.location := ScrapeLog.location log;
     ScrapeLog.sites := ScrapeLog.sites log;
     ScrapeLog.jobs_found := ScrapeLog.jobs_found log;
     ScrapeLog.status := running;
     ScrapeLog.started_at := ScrapeLog.started_at log;
     ScrapeLog.completed_at := ScrapeLog.completed_at log;
     ScrapeLog.error_message := ScrapeLog.error_message log |}.

(** [run_scrape] up to its first commit: [None] when there is no
    such log. *)
Definition run_scrape_begin (now : Time) (log_id : nat) (db : Session)
  : option Session :=
  match first_log_by_id log_id db with
  | None => None
  | Some _ => Some (commit now (update_log log_id set_running db))
  end.

(** The attributes written when the loop has ended. *)
Definition set_completed (now : Time) (total_jobs : nat) (errors : list string)
    (log : ScrapeLog.t) : ScrapeLog.t :=
  {| ScrapeLog.id := ScrapeLog.id log;
     ScrapeLog.keyword := ScrapeLog.keyword log;
     ScrapeLog.location := ScrapeLog.location log;
     ScrapeLog.sites := ScrapeLog.sites log;
     ScrapeLog.jobs_found := total_jobs;
     ScrapeLog.status := completed;
     ScrapeLog.started_at := ScrapeLog.started_at log;
     ScrapeLog.completed_at := Some now;
     ScrapeLog.error_message :=
       match errors with
       | [] => ScrapeLog.error_message log
       | _ => Some (PyStr.join "; " errors)
       end |}.

(** The attributes written by the outer handler. *)
Definition set_failed (now : Time) (msg : string) (log : ScrapeLog.t)
  : ScrapeLog.t :=
  {| ScrapeLog.id := ScrapeLog.id log;
     ScrapeLog.keyword := ScrapeLog.keyword log;
     ScrapeLog.location := ScrapeLog.location log;
     ScrapeLog.sites := ScrapeLog.sites log;
     ScrapeLog.jobs_found := ScrapeLog.jobs_found log;
     ScrapeLog.status := failed;
     ScrapeLog.started_at := ScrapeLog.started_at log;
     ScrapeLog.completed_at := Some now;
     ScrapeLog.error_message := Some msg |}.

(** [run_scrape] from its first commit on. *)
Definition run_scrape_work (now : Time) (log_id : nat) (sites : list string)
    (keyword location : string) (db : Session) : Session :=
  match sites_loop now 0 sites keyword location db 0 [] with
  | inl (db, total_jobs, errors) =>
      commit now (update_log log_id (set_completed now total_jobs errors) db)
  | inr (db, msg) =>
      commit now (update_log log_id (set_failed now msg) db)
  end.

Definition run_scrape (now : Time) (log_id : nat) (sites : list string)
    (keyword location : string) (db : Session) : Session :=
  match run_scrape_begin now log_id db with
  | None => db
  | Some db => run_scrape_work now log_id sites keyword location db
  end.
End Run.

(** The arguments of the background task [start_scrape] schedules. *)
Record Task := {
  task_log_id : nat;
  task_sites : list string;
  task_keyword : string;
  task_location : string }.

(** The body of the answer to an accepted request. *)
Record Started := {
  message : string;
  log_id : nat;
  sites : list string;
  keyword : string;
  location : string }.

(** [[s.strip().lower() for s in sites.split(",") if s.strip()]] *)
Definition site_list_of (sites : string) : list string :=
  (fun s => PyStr.lower (PyStr.strip s))
    <$> filter (fun s => PyStr.truthy (PyStr.strip s)) (PyStr.split ","%char sites).

(** [start_scrape]: the exception raised, or the answer and the task
    scheduled, and the database afterwards. *)
Definition start_scrape (now : Time) (sites keyword location : string)
    (db : Session) : (HTTPException + Started * Task) * Session :=
  let site_list := site_list_of sites in
  match site_list with
  | [] => (inl {| status_code := 400; detail := "No sites specified" |}, db)
  | _ =>
      let invalid_sites :=
        filter (fun s => negb (PyDict.mem s SCRAPERS)) site_list in
      match invalid_sites with
      | _ :: _ =>
          (inl {| status_code := 400;
                  detail := "Invalid sites: " +:+ PyStr.join ", " invalid_sites |},
           db)
      | [] =>
          let '(log, db) :=
            insert_log now keyword location (PyStr.join "," site_list) db in
          (inr ({| message := "Scraping started";
                   log_id := ScrapeLog.id log;
                   sites := site_list;
                   keyword := keyword;
                   location := location |},
                {| task_log_id := ScrapeLog.id log;
                   task_sites := site_list;
                   task_keyword := keyword;
                   task_location := location |}),
           db)
      end
  end.

(** *** Reading one row *)

(** [get_job]: the row, or 404.  The row stands for the dict
    [to_dict] builds from it, which holds the same fields. *)
Definition get_job (job_id : nat) (db : Session) : HTTPException + Job.t :=
  match head (filter (fun j => Job.id j = job_id) (jobs db)) with
  | None => inl {| status_code := 404; detail := "Job not found" |}
  | Some job => inr job
  end.

(** [get_scrape_log]: the log, or 404.  The answer holds the fields of
    the log, the times as ISO text. *)
Definition get_scrape_log (log_id : nat) (db : Session)
  : HTTPException + ScrapeLog.t :=
  match first_log_by_id log_id db with
  | None => inl {| status_code := 404; detail := "Log not found" |}
  | Some log => inr log
  end.

(** *** The sites on offer *)

(** [get_sites]: the [id], [name] and [requires_auth] of every entry
    of [SITES_CONFIG]. *)
Record Site := { site_id : string; site_name : string; site_requires_auth : bool }.

Definition get_sites (getenv : string -> option string) : list Site :=
  (fun item =>
     {| site_id := fst item;
        site_name := Config.name (snd item);
        site_requires_auth := Config.requires_auth (snd item) |})
    <$> Config.SITES_CONFIG getenv.

End Backend.

(** ** The running service

    Requests arrive one after the other; the task a request schedules
    runs later.  A task is first in [waiting], then, from its first
    commit to its last, in [active].  What a run does between its first
    commit and its last is one step here: the runs work one after the
    other, on one session.  Runs that work at the same time are the
    matter of [Overlap] below. *)
Module Service.
Import Models Database Backend.

Record System := {
  db : Session;
  waiting : list Task;
  active : list Task }.

Definition init : System :=
  {| db := Database.empty; waiting := []; active := [] |}.

Inductive Event :=
| PostScrape (now : Time) (sites keyword location : string)
| TaskBegins (now : Time) (k : nat)
| TaskWorks (now : Time) (k : nat) (adapter : Adapter)
| DeleteJob (now : Time) (job_id : nat)
| ClearJobs (now : Time).

Section Step.
Variable autoflush : bool.

Definition step (s : System) (e : Event) : System :=
  match e with
  | PostScrape now sites keyword location =>
      match start_scrape now sites keyword location (db s) with
      | (inl _, db') => {| db := db'; waiting := waiting s; active := active s |}
      | (inr (_, task), db') =>
          {| db := db'; waiting := waiting s ++ [task]; active := active s |}
      end
  | TaskBegins now k =>
      match waiting s !! k with
      | None => s
      | Some task =>
          match run_scrape_begin now (task_log_id task) (db s) with
          | None =>
              {| db := db s; waiting := delete k (waiting s); active := active s |}
          | Some db' =>
              {| db := db'; waiting := delete k (waiting s);
                 active := active s ++ [task] |}
          end
      end
  | TaskWorks now k adapter =>
      match active s !! k with
      | None => s
      | Some task =>
          {| db := run_scrape_work autoflush adapter now (task_log_id task)
                     (task_sites task) (task_keyword task) (task_location task)
                     (db s);
             waiting := waiting s;
             active := delete k (active s) |}
      end
  | DeleteJob now job_id =>
      {| db := snd (delete_job now job_id (db s));
         waiting := waiting s; active := active s |}
  | ClearJobs now =>
      {| db := snd (clear_jobs now (db s));
         waiting := waiting s; active := active s |}
  end.

(** The states the service passes through, the first one included. *)
Fixpoint trace (s : System) (events : list Event) : list System :=
  s :: match events with
       | [] => []
       | e :: events' => trace (step s e) events'
       end.

Definition run (s : System) (events : list Event) : System :=
  foldl step s events.
End Step.

(** The status a run shows in a state, if the run exists there. *)
Definition status_of (log_id : nat) (s : System) : option Status :=
  ScrapeLog.status <$> first_log_by_id log_id (db s).

(** A sequence of observations with the repetitions taken out. *)
Fixpoint destutter (l : list Status) : list Status :=
  match l with
  | [] => []
  | x :: l' =>
      match l' with
      | y :: _ => if bool_decide (x = y) then destutter l' else x :: destutter l'
      | [] => [x]
      end
  end.

Definition terminal (s : Status) : bool :=
  match s with completed | failed => true | _ => false end.

End Service.

(** ** Runs that work at the same time

    [start_scrape] hands [run_scrape] to the background tasks, so a run
    works while other requests are served and other runs work.  The
    [jobs] table has no uniqueness constraint on [apply_link]
    (models.py): all that keeps a link from being stored twice is the
    query before the [add].  Here the loop of [run_scrape] over the
    offers of one site is taken one database call at a time, for
    several runs on one table.

    Modelled from the spec: the session of a run comes from [get_db] in
    backend/database.py, which is not among the sources.  The document
    has runs that work at the same time share the store and nothing
    else ("never shared across concurrent runs - each run computes its
    own seed snapshot"): each run has a session of its own, and what it
    has added is in the table, for the other runs, from its commit
    on. *)
Module Overlap.
Import Models Database.

(** A run inside the loop: the offers of the site it has still to look
    at, the [Job] objects added to its session and not committed, and
    its [total_jobs]. *)
Record Worker := {
  offers : list Base.JobOffer;
  session : list Base.JobOffer;
  total_jobs : nat }.

(** The committed rows of [jobs], the next id of the table, and the
    runs at work. *)
Record Shared := {
  table : list Job.t;
  sequence : nat;
  workers : list Worker }.

Section Calls.
Variable autoflush : bool.

(** The links the query of a run can find: those of the committed
    rows, and those of its own session when the session flushes before
    it queries. *)
Definition seen (table : list Job.t) (w : Worker) : list string :=
  (Job.apply_link <$> table)
    ++ (if autoflush then Base.apply_link <$> session w else []).

(** The next database call of a run.  While it has offers: the query
    for the next one, with the [db.add] and the count that follow when
    the query finds no row.  After the last offer: [db.commit()], which
    writes the session to the table. *)
Definition call (now : Time) (table : list Job.t) (sequence : nat) (w : Worker)
  : list Job.t * nat * Worker :=
  match offers w with
  | job :: rest =>
      if bool_decide (Base.apply_link job ∈ seen table w)
      then (table, sequence,
            {| offers := rest; session := session w;
               total_jobs := total_jobs w |})
      else (table, sequence,
            {| offers := rest; session := session w ++ [job];
               total_jobs := total_jobs w + 1 |})
  | [] =>
      (table ++ to_rows now sequence (session w),
       sequence + length (session w),
       {| offers := []; session := []; total_jobs := total_jobs w |})
  end.

(** The run [i] makes its next call at time [now]. *)
Definition step (s : Shared) (turn : nat * Time) : Shared :=
  match workers s !! turn.1 with
  | None => s
  | Some w =>
      let '(table, sequence, w) := call turn.2 (table s) (sequence s) w in
      {| table := table; sequence := sequence;
         workers := <[turn.1 := w]> (workers s) |}
  end.

(** The calls of a schedule, one after the other. *)
Definition play (s : Shared) (schedule : list (nat * Time)) : Shared :=
  foldl step s schedule.

(** A run alone on the table: all its calls, the commit included. *)
Definition alone (now : Time) (table : list Job.t) (sequence : nat)
    (jobs : list Base.JobOffer) : Shared :=
  play {| table := table; sequence := sequence;
          workers := [ {| offers := jobs; session := []; total_jobs := 0 |} ] |}
       (replicate (S (length jobs)) (0, now)).
End Calls.

End Overlap.

(** ** jobfy_scraper.py *)
Module Cli.
Import Backend.

(** The command line tool keeps its own table of scrapers. *)
Definition SCRAPERS : list (string * ScraperClass) :=
  [ ("remoteok", RemoteOKScraper);
    ("infojobs", InfoJobsScraper);
    ("linkedin", LinkedInScraper);
    ("indeed", IndeedScraper);
    ("tecnoempleo", TecnoempleoScraper) ].

Definition get_available_sites : list string := fst <$> SCRAPERS.

(** The loop of [run_scrapers]: [last] is [sites[-1]], [all_jobs] the
    offers collected so far and [slept] the number of calls of
    [time.sleep(REQUEST_DELAY)] so far.  An exception of the
    constructor or of [scrape] is caught and the site skipped. *)
Fixpoint run_scrapers_loop (adapter : Adapter) (last : option string) (k : nat)
    (sites : list string) (keyword location : string)
    (all_jobs : list Base.JobOffer) (slept : nat) : list Base.JobOffer * nat :=
  match sites with
  | [] => (all_jobs, slept)
  | site_name :: rest =>
      match PyDict.get SCRAPERS site_name with
      | None => run_scrapers_loop adapter last (S k) rest keyword location all_jobs slept
      | Some scraper_class =>
          match adapter k scraper_class keyword location with
          | InitRaises _ | ScrapeRaises _ =>
              run_scrapers_loop adapter last (S k) rest keyword location all_jobs slept
          | Scraped jobs =>
              run_scrapers_loop adapter last (S k) rest keyword location
                (all_jobs ++ jobs)
                (if bool_decide (Some site_name ≠ last) then S slept else slept)
          end
      end
  end.

(** [run_scrapers]: the offers of all sites, and the number of pauses. *)
Definition run_scrapers (adapter : Adapter) (sites : list string)
    (keyword location : string) : list Base.JobOffer * nat :=
  run_scrapers_loop adapter (last sites) 0 sites keyword location [] 0.

(** The sites [main] asks for: all of them, or the pieces of [--sites]. *)
Definition requested_sites (all : bool) (sites : string) : list string :=
  if all then get_available_sites
  else (fun s => PyStr.lower (PyStr.strip s)) <$> PyStr.split ","%char sites.

(** The sites [main] keeps; it exits with status 1 when none is left. *)
Definition valid_sites (sites : list string) : list string :=
  filter (fun site => PyDict.mem site SCRAPERS) sites.

(** The counts per source of [display_summary]. *)
Fixpoint count_sources (jobs : list Base.JobOffer)
    (jobs_by_source : list (string * nat)) : list (string * nat) :=
  match jobs with
  | [] => jobs_by_source
  | job :: rest => count_sources rest (bump jobs_by_source (Base.source job))
  end.

End Cli.

(** ** A small document model

    An instance of the [Markup] interface on explicit trees, used to
    run the scrapers on concrete pages.  A node is a tree together
    with its ancestors, the nearest first. *)
Module Fixture.
Import Base.

Inductive Tree :=
| Elem (name : string) (attrs : list (string * string)) (children : list Tree)
| Text (s : string).

Definition Node : Type := list Tree.

(** The descendants of [t] in document order, [anc] being [t] and its
    ancestors. *)
Fixpoint descendants (anc : list Tree) (t : Tree) : list Node :=
  match t with
  | Text _ => []
  | Elem _ _ children =>
      (fix go (cs : list Tree) : list Node :=
         match cs with
         | [] => []
         | c :: cs' => ((c :: anc) :: descendants (c :: anc) c) ++ go cs'
         end) children
  end.

Definition below (n : Node) : list Node :=
  match n with
  | [] => []
  | t :: _ => descendants n t
  end.

Definition attr_of (n : Node) (attr : string) : option string :=
  match n with
  | Elem _ attrs _ :: _ => PyDict.get attrs attr
  | _ => None
  end.

Definition name_of (n : Node) : string :=
  match n with
  | Elem name _ _ :: _ => name
  | _ => ""
  end.

Definition is_elem (n : Node) : bool :=
  match n with Elem _ _ _ :: _ => true | _ => false end.

Definition has_class (cls : string) (n : Node) : bool :=
  match attr_of n "class" with
  | Some v => bool_decide (cls ∈ String.words v)
  | None => false
  end.

Definition unquote (s : string) : string :=
  match s with
  | String "'" r => PyStr.rstrip_char "'"%char r
  | _ => s
  end.

(** The attribute selectors [[a]], [[a='v']] and [[a*='v']]. *)
Definition css_matches (selector : string) (n : Node) : bool :=
  match selector with
  | String "[" rest =>
      match PyStr.split "="%char (PyStr.rstrip_char "]"%char rest) with
      | [attr] => bool_decide (is_Some (attr_of n attr))
      | [attr; v] =>
          if PyStr.endswith "*" attr then
            match attr_of n (PyStr.rstrip_char "*"%char attr) with
            | Some w => PyStr.contains (unquote v) w
            | None => false
            end
          else bool_decide (attr_of n attr = Some (unquote v))
      | _ => false
      end
  | _ => false
  end.

Definition matches (q : Query) (n : Node) : bool :=
  is_elem n &&
  match q with
  | TagClass tag cls => bool_decide (name_of n = tag) && has_class cls n
  | TagAttr tag attr value =>
      bool_decide (name_of n = tag) && bool_decide (attr_of n attr = Some value)
  | TagHasAttr tag attr =>
      bool_decide (name_of n = tag) && bool_decide (is_Some (attr_of n attr))
  | Tag tag => bool_decide (name_of n = tag)
  | Css selector => css_matches selector n
  end.

(** The text pieces of a tree, each stripped, the empty ones left out. *)
Fixpoint strings (t : Tree) : list string :=
  match t with
  | Text s => if PyStr.truthy (PyStr.strip s) then [PyStr.strip s] else []
  | Elem _ _ children =>
      (fix go (cs : list Tree) : list string :=
         match cs with
         | [] => []
         | c :: cs' => strings c ++ go cs'
         end) children
  end.

Definition text_of (n : Node) : string :=
  match n with
  | t :: _ => PyStr.join "" (strings t)
  | [] => ""
  end.

(** The instance, for a parser given as a function. *)
Definition markup (parse : string -> Tree) : Markup Node :=
  {| parse_html html := [parse html];
     find_all n q := filter (fun d => matches q d) (below n);
     get_text := text_of;
     get_attr := attr_of;
     node_name := name_of;
     parent n := match n with _ :: (_ :: _) as p => Some p | _ => None end |}.

(** A results page in the second LinkedIn layout: no [div.base-card],
    two [li.jobs-search-results__list-item]. *)
Definition card (title company place href : string) : Tree :=
  Elem "li" [("class", "jobs-search-results__list-item")]
    [ Elem "a" [("class", "job-card-list__title"); ("href", href)] [Text title];
      Elem "a" [("class", "job-card-container__company-name")] [Text company];
      Elem "li" [("class", "job-card-container__metadata-item")] [Text place] ].

Definition card1 : Tree :=
  card " Python Developer " "Acme" "Madrid"
    "https://www.linkedin.com/jobs/view/1?trk=abc".

Definition card2 : Tree := card "Data Engineer" "Globex" "Remote" "/jobs/view/2".

Definition results : Tree := Elem "ul" [] [card1; card2].

Definition body : Tree := Elem "body" [] [results].

Definition page : Tree := Elem "html" [] [body].

(** The two cards as nodes of [page]. *)
Definition card1_node : Node := [card1; results; body; page].

Definition card2_node : Node := [card2; results; body; page].

(** The network of the examples: every page is [page]. *)
Definition network : Network :=
  {| http_get _ := Some "<html>";
     http_post _ _ := Some {| text := "logout"; url := "https://www.linkedin.com/feed" |} |}.

(** A stand-in for urllib: no quoting, and joining by concatenation. *)
Definition urllib : Urllib :=
  {| quote_plus s := s; urljoin base href := base +:+ href |}.

Definition linkedin_config : Config.SiteConfig :=
  {| Config.name := "LinkedIn"; Config.base_url := "https://www.linkedin.com";
     Config.requires_auth := true;
     Config.credentials :=
       Some {| Config.username := "user"; Config.password := "secret" |} |}.

End Fixture.

(** ** Reference notions

    Definitions that follow the words of the design document; the
    properties below compare the code with them. *)
Module Reference.
Import Backend.

(** The tags of the design document: every value of the column split
    on commas, each piece trimmed, the empty ones dropped. *)
Definition tag_pieces (all_tags : list (option string)) : list string :=
  all_tags ≫= (fun tags =>
    match tags with
    | Some tags =>
        filter (fun t => PyStr.truthy t) (PyStr.strip <$> PyStr.split ","%char tags)
    | None => []
    end).

Definition occurrences (t : string) (l : list string) : nat :=
  length (filter (fun x => x = t) l).

(** The distinct elements in the order they are first seen. *)
Definition add_new (seen : list string) (t : string) : list string :=
  if bool_decide (t ∈ seen) then seen else seen ++ [t].

Definition first_seen (l : list string) : list string := foldl add_new [] l.

(** The frequency table the document describes. *)
Definition tally (l : list string) : list (string * nat) :=
  (fun t => (t, occurrences t l)) <$> first_seen l.

(** Descending order of count. *)
Definition count_ge (a b : string * nat) : Prop := snd b ≤ snd a.

(** The three strings of the document's example. *)
Definition example_tags : list (option string) :=
  [Some "Python, react"; Some "python , Go"; Some ""].

(** The feed entry that is not an offer. *)
Definition is_metadata (item : RemoteOK.Item) : bool :=
  bool_decide (is_Some (RemoteOK.legal item)).

(** The text the document's keyword filter reads: title, company and
    tags, one after the other with a space between. *)
Definition offer_text (job : Base.JobOffer) : string :=
  Base.job_title job +:+ " " +:+ Base.company job +:+ " " +:+ Base.tags job.

(** The keyword is a substring of the text, letter case aside: the
    text has a piece that reads as the keyword once both are put in
    lower case. *)
Definition mentions (keyword text : string) : Prop :=
  ∃ before found after,
    text = before +:+ found +:+ after
    ∧ PyStr.lower found = PyStr.lower keyword.

(** The same, position by position: the piece of the keyword's length
    that starts at [i] reads as the keyword, letter case aside. *)
Definition occurs_at (keyword text : string) (i : nat) : bool :=
  bool_decide (PyStr.lower (String.substring i (String.length keyword) text)
               = PyStr.lower keyword).

Definition occurs (keyword text : string) : bool :=
  existsb (occurs_at keyword text) (seq 0 (S (String.length text))).

(** The keyword filter of the document: no keyword, or the keyword a
    substring of title, company and tags, letter case aside. *)
Definition matches_keyword (keyword : string) (job : Base.JobOffer) : bool :=
  bool_decide (keyword = "") || occurs keyword (offer_text job).

(** The two salary formats. *)
Definition salary_range (lo hi : Z) : string :=
  "$" +:+ PyStr.format_comma lo +:+ " - $" +:+ PyStr.format_comma hi.

Definition salary_at_least (lo : Z) : string :=
  "$" +:+ PyStr.format_comma lo +:+ "+".

(** A bound counts when the entry has it and it is not zero. *)
Definition bound_given (v : option Z) : Prop :=
  ∃ n, v = Some n ∧ n ≠ 0%Z.

(** A feed of one metadata entry and three offers. *)
Definition example_config : Config.SiteConfig :=
  Config.site_config (fun _ => None) "remoteok".

Definition example_offer (title company : string) (tags : list string)
    (slug : string) (lo hi : option Z) : RemoteOK.Item :=
  {| RemoteOK.legal := None;
     RemoteOK.position := Some title;
     RemoteOK.item_company := Some company;
     RemoteOK.item_tags := Some tags;
     RemoteOK.slug := Some slug;
     RemoteOK.item_url := None;
     RemoteOK.salary_min := lo;
     RemoteOK.salary_max := hi;
     RemoteOK.item_location := None |}.

Definition example_metadata : RemoteOK.Item :=
  {| RemoteOK.legal := Some "API Terms of Service";
     RemoteOK.position := None;
     RemoteOK.item_company := None;
     RemoteOK.item_tags := None;
     RemoteOK.slug := None;
     RemoteOK.item_url := None;
     RemoteOK.salary_min := None;
     RemoteOK.salary_max := None;
     RemoteOK.item_location := None |}.

Definition example_feed : list RemoteOK.Item :=
  [ example_metadata;
    example_offer "Backend Engineer" "Acme" ["python"; "django"] "acme-backend"
      (Some 90000%Z) (Some 120000%Z);
    example_offer "Frontend Developer" "Globex" ["react"] "globex-frontend"
      (Some 70000%Z) None;
    example_offer "Designer" "Initech" [] "initech-designer" (Some 0%Z) (Some 0%Z) ].

(** The characters of a string. *)
Definition chars (s : string) : list ascii := String.list_ascii_of_string s.

(** The characters [format_comma] writes. *)
Definition money_char (c : ascii) : Prop :=
  c ∈ ["0"; "1"; "2"; "3"; "4"; "5"; "6"; "7"; "8"; "9"; ","; "-"]%char.

(** The fallback chain of the document: the result of the first
    selector that finds at least one node. *)
Fixpoint first_nonempty {A} (chain : list (list A)) : list A :=
  match chain with
  | [] => []
  | found :: rest =>
      match found with
      | [] => first_nonempty rest
      | _ => found
      end
  end.

(** Every row the database will hold once the queued ones are written. *)
Definition rows (now : Models.Time) (db : Database.Session) : list Models.Job.t :=
  Database.jobs (Database.flush now db).

Definition links (l : list Models.Job.t) : list string :=
  Models.Job.apply_link <$> l.

(** A stored row that copies an offer returned by the scraper of one
    of the [sites], the first of them met at turn [k]. *)
Definition copied_from (adapter : Adapter) (keyword location : string)
    (now : Models.Time) (k : nat) (sites : list string) (row : Models.Job.t)
  : Prop :=
  ∃ i site_name scraper_class offers job,
    sites !! i = Some site_name
    ∧ PyDict.get SCRAPERS site_name = Some scraper_class
    ∧ adapter (k + i) scraper_class keyword location = Scraped offers
    ∧ job ∈ offers
    ∧ row = Database.to_row now (Models.Job.id row) job.

(** The entry a site leaves in the error list, if any, at turn [k]. *)
Definition site_failure (adapter : Adapter) (keyword location : string)
    (k : nat) (site_name : string) : option string :=
  match PyDict.get SCRAPERS site_name with
  | None => Some ("Unknown site: " +:+ site_name)
  | Some scraper_class =>
      match adapter k scraper_class keyword location with
      | ScrapeRaises msg => Some (site_name +:+ ": " +:+ msg)
      | _ => None
      end
  end.

Fixpoint failures (adapter : Adapter) (keyword location : string)
    (k : nat) (sites : list string) : list string :=
  match sites with
  | [] => []
  | site_name :: rest =>
      option_list (site_failure adapter keyword location k site_name)
        ++ failures adapter keyword location (S k) rest
  end.

(** A scraper's constructor raises at some turn of the run. *)
Definition init_raises (adapter : Adapter) (keyword location : string)
    (k : nat) (sites : list string) (msg : string) : Prop :=
  ∃ i site_name scraper_class,
    sites !! i = Some site_name
    ∧ PyDict.get SCRAPERS site_name = Some scraper_class
    ∧ adapter (k + i) scraper_class keyword location = InitRaises msg.

(** Every site of the run is known and its scraper's [scrape] raises. *)
Definition all_scrapes_raise (adapter : Adapter) (keyword location : string)
    (sites : list string) : Prop :=
  ∀ i site_name, sites !! i = Some site_name →
    ∃ scraper_class msg,
      PyDict.get SCRAPERS site_name = Some scraper_class
      ∧ adapter i scraper_class keyword location = ScrapeRaises msg.

(** A log with one pending run, and sites that all fail. *)
Definition example_log_db : Database.Session :=
  snd (start_scrape 100 "remoteok, indeed" "python" "" Database.empty).

Definition failing_adapter : Adapter :=
  fun k scraper_class _ _ =>
    match scraper_class with
    | RemoteOKScraper => ScrapeRaises "connection refused"
    | _ => ScrapeRaises "timed out"
    end.

(** A site name the service has a scraper for. *)
Definition known_site (site_name : string) : Prop :=
  is_Some (PyDict.get SCRAPERS site_name).

(** The string has no occurrence of the character. *)
Definition free_of (c : ascii) (s : string) : Prop := c ∉ chars s.

(** The string is made of white space only. *)
Definition blank (s : string) : Prop :=
  Forall (fun c => PyStr.is_space c = true) (chars s).

(** The string is not empty and neither begins nor ends with white
    space. *)
Definition trimmed (s : string) : Prop :=
  (∃ c, head (chars s) = Some c ∧ PyStr.is_space c = false)
  ∧ (∃ c, last (chars s) = Some c ∧ PyStr.is_space c = false).

(** What holds of the run log in every state of the service: ids
    distinct and below the sequence, waiting tasks [pending], active
    tasks [running], one task per run, and [completed_at] set for the
    finished runs only. *)
Definition registry_ok (s : Service.System) : Prop :=
  NoDup (Models.ScrapeLog.id <$> Database.logs (Service.db s))
  ∧ (∀ log, log ∈ Database.logs (Service.db s) →
            Models.ScrapeLog.id log < Database.next_log_id (Service.db s))
  ∧ (∀ task, task ∈ Service.waiting s →
             Service.status_of (task_log_id task) s = Some Models.pending)
  ∧ (∀ task, task ∈ Service.active s →
             Service.status_of (task_log_id task) s = Some Models.running)
  ∧ NoDup (task_log_id <$> (Service.waiting s ++ Service.active s))
  ∧ (∀ log, log ∈ Database.logs (Service.db s) →
            is_Some (Models.ScrapeLog.completed_at log)
            ↔ Service.terminal (Models.ScrapeLog.status log) = true).

(** The moves of a run's status from one state to the next. *)
Definition status_moves (o o' : option Models.Status) : Prop :=
  o' = o
  ∨ (o = None ∧ o' = Some Models.pending)
  ∨ (o = Some Models.pending ∧ o' = Some Models.running)
  ∨ (o = Some Models.running
     ∧ ∃ t, Service.terminal t = true ∧ o' = Some t).

(** What is left of [pending, running, t] from a status on. *)
Definition remaining (o : option Models.Status) (t : Models.Status)
  : list Models.Status :=
  match o with
  | None | Some Models.pending => [Models.pending; Models.running; t]
  | Some Models.running => [Models.running; t]
  | Some Models.completed => [Models.completed]
  | Some Models.failed => [Models.failed]
  end.

(** A run of the service: one request, its task from start to end, the
    first site failing and the second returning two offers that share
    a link and one that is new. *)
Definition example_offers : list Base.JobOffer :=
  [ Base.set_source "Indeed"
      (Base.mkJobOffer "Python Developer" "Acme" "python" "https://es.indeed.com/job/1"
         "Madrid" "N/A");
    Base.set_source "Indeed"
      (Base.mkJobOffer "Python Developer (m/f)" "Acme" "python"
         "https://es.indeed.com/job/1" "Madrid" "N/A");
    Base.set_source "Indeed"
      (Base.mkJobOffer "Data Engineer" "Globex" "N/A" "https://es.indeed.com/job/2"
         "N/A" "N/A") ].

Definition example_adapter : Adapter :=
  fun k scraper_class _ _ =>
    match scraper_class with
    | RemoteOKScraper => ScrapeRaises "connection refused"
    | IndeedScraper => Scraped example_offers
    | _ => Scraped []
    end.

Definition example_events : list Service.Event :=
  [ Service.PostScrape 100 "RemoteOK, indeed" "python" "";
    Service.TaskBegins 110 0;
    Service.TaskWorks 120 0 example_adapter;
    Service.PostScrape 200 "indeed" "python" "";
    Service.TaskBegins 210 0;
    Service.TaskWorks 220 0 example_adapter ].

(** An adapter whose offers come back with the source left at its
    default. *)
Definition untagged_adapter : Adapter :=
  fun _ _ _ _ =>
    Scraped [ Base.mkJobOffer "Python Developer" "Acme" "python"
                "https://remoteok.com/acme-python" "Remote" "N/A" ].

(** The message of the first scraper constructor that raises, from
    turn [k] on, if one does. *)
Fixpoint first_init_raise (adapter : Adapter) (keyword location : string)
    (k : nat) (sites : list string) : option string :=
  match sites with
  | [] => None
  | site_name :: rest =>
      match PyDict.get SCRAPERS site_name with
      | None => first_init_raise adapter keyword location (S k) rest
      | Some scraper_class =>
          match adapter k scraper_class keyword location with
          | InitRaises msg => Some msg
          | _ => first_init_raise adapter keyword location (S k) rest
          end
      end
  end.

(** An adapter whose second scraper cannot be built. *)
Definition broken_adapter : Adapter :=
  fun k scraper_class _ _ =>
    match scraper_class with
    | IndeedScraper => Scraped example_offers
    | _ => InitRaises "no session"
    end.

(** A task agrees with the log of its run: its sites are known, at
    least one, and are the ones the log's [sites] column gives back;
    keyword and location are the log's. *)
Definition task_matches_log (db : Database.Session) (task : Task) : Prop :=
  task_sites task ≠ []
  ∧ Forall known_site (task_sites task)
  ∧ ∃ log,
      get_scrape_log (task_log_id task) db = inr log
      ∧ site_list_of (Models.ScrapeLog.sites log) = task_sites task
      ∧ Models.ScrapeLog.keyword log = task_keyword task
      ∧ Models.ScrapeLog.location log = task_location task.

(** The environment gives a site its two credentials, neither of them
    empty; [prefix] is the site's name in capitals. *)
Definition configured (getenv : string → option string) (prefix : string) : Prop :=
  ∃ u p, getenv (prefix +:+ "_USERNAME") = Some u
         ∧ getenv (prefix +:+ "_PASSWORD") = Some p
         ∧ u ≠ "" ∧ p ≠ "".

(** An environment with the LinkedIn credentials only. *)
Definition example_env (var : string) : option string :=
  if bool_decide (var = "LINKEDIN_USERNAME") then Some "user"
  else if bool_decide (var = "LINKEDIN_PASSWORD") then Some "secret"
  else None.

(** A network whose answer to a login is the login page again. *)
Definition captcha_network : Base.Network :=
  {| Base.http_get _ := Some "<html>";
     Base.http_post _ _ :=
       Some {| Base.text := "<html>captcha</html>";
               Base.url := "https://www.example.com/login" |} |}.

(** The offer Tecnoempleo makes of a link of the results page: the
    link's text, between 15 and 80 characters, is the title; the
    address is a path of the site or an absolute address on it, with
    none of the excluded words; the place is read off the title. *)
Definition offer_of_link `{Base.Markup Node} `{Base.Urllib}
    (config : Config.SiteConfig) (a : Node) (job : Base.JobOffer) : Prop :=
  let href := default "" (Base.get_attr a "href") in
  Base.job_title job = Base.get_text a
  ∧ 15 ≤ String.length (Base.get_text a) ≤ 80
  ∧ Base.apply_link job = Base.urljoin (Config.base_url config) href
  ∧ (PyStr.startswith "/" href = true
     ∨ PyStr.startswith "https://www.tecnoempleo.com/" href = true)
  ∧ Forall (fun x => PyStr.contains x (PyStr.lower href) = false)
           Tecnoempleo.exclude_patterns
  ∧ (Base.location job = "Espana"
     ∨ ∃ loc, loc ∈ Tecnoempleo.location_patterns
              ∧ PyStr.contains loc (PyStr.lower (Base.job_title job)) = true
              ∧ Base.location job = PyStr.capitalize loc)
  ∧ Base.tags job = "IT/Tech" ∧ Base.salary job = "N/A"
  ∧ Base.source job = "N/A".

(** A results page of Tecnoempleo: a menu entry, an offer, the same
    offer once more, and a company page. *)
Definition tecnoempleo_page : Fixture.Tree :=
  Fixture.Elem "html" []
    [ Fixture.Elem "a" [("href", "/acceso")] [Fixture.Text "Acceso candidatos"];
      Fixture.Elem "div" []
        [ Fixture.Elem "a" [("href", "/desarrollador-python-madrid/rf-1234")]
            [Fixture.Text "Desarrollador Python Madrid"];
          Fixture.Elem "a" [("href", "/acme-trabajo")] [Fixture.Text "Acme"] ];
      Fixture.Elem "div" []
        [ Fixture.Elem "a" [("href", "/desarrollador-python-madrid/rf-1234")]
            [Fixture.Text "Desarrollador Python Madrid (ver)"] ] ].

(** What the command line tool gets from the site it meets at turn
    [k]: the offers its scraper returns, when the name is known and
    neither the constructor nor [scrape] raises. *)
Definition collected (adapter : Adapter) (keyword location : string)
    (k : nat) (site_name : string) : option (list Base.JobOffer) :=
  match PyDict.get Cli.SCRAPERS site_name with
  | Some scraper_class =>
      match adapter k scraper_class keyword location with
      | Scraped jobs => Some jobs
      | _ => None
      end
  | None => None
  end.

(** The sites with the turns they are met at, from turn [k] on. *)
Definition indexed (k : nat) (sites : list string) : list (nat * string) :=
  imap (fun i site_name => (k + i, site_name)) sites.

(** An adapter that fails for LinkedIn only. *)
Definition cli_adapter : Adapter :=
  fun k scraper_class _ _ =>
    match scraper_class with
    | LinkedInScraper => ScrapeRaises "blocked"
    | _ => Scraped (take 1 example_offers)
    end.

(** The string is ASCII text: every code point is below 128. *)
Definition ascii_text (s : string) : Prop :=
  Forall (fun c => PyStr.code c < 128) (chars s).

(** The session the loop over the sites leaves, whether the loop ends
    or an exception leaves it. *)
Definition loop_session
    (r : (Database.Session * nat * list string) + (Database.Session * string))
  : Database.Session :=
  match r with
  | inl (db, _, _) => db
  | inr (db, _) => db
  end.

(** No scraper returns one link twice among the offers of one
    [scrape]. *)
Definition distinct_batches (adapter : Adapter) : Prop :=
  ∀ k scraper_class keyword location offers,
    adapter k scraper_class keyword location = Scraped offers →
    NoDup (Base.apply_link <$> offers).

(** The same of the scrapers of a run that works. *)
Definition distinct_event (e : Service.Event) : Prop :=
  match e with
  | Service.TaskWorks _ _ adapter => distinct_batches adapter
  | _ => True
  end.

(** Two runs at work on an empty table, each with the same offer from
    its scraper, and their calls in turn: both query before either
    commits. *)
Definition shared_offer : Base.JobOffer :=
  Base.set_source "Indeed"
    (Base.mkJobOffer "Data Engineer" "Globex" "N/A" "https://es.indeed.com/job/2"
       "N/A" "N/A").

Definition example_overlap : Overlap.Shared :=
  let w := {| Overlap.offers := [shared_offer]; Overlap.session := [];
              Overlap.total_jobs := 0 |} in
  {| Overlap.table := []; Overlap.sequence := 1; Overlap.workers := [w; w] |}.

Definition example_schedule : list (nat * Models.Time) :=
  [ (0, 120); (1, 121); (0, 122); (1, 123) ].

End Reference.

(** * Properties *)

(** ** Tag statistics *)
Section TagStatistics.
Import Backend Reference.

Lemma count_pieces_foldl pieces d :
  count_pieces pieces d
  = foldl bump d (filter (fun t => PyStr.truthy t) (PyStr.strip <$> pieces)).
Proof.
  revert d. induction pieces as [|p ps IH]; intros d; [done|].
  rewrite fmap_cons, filter_cons.
  change (count_pieces (p :: ps) d)
    with (if PyStr.truthy (PyStr.strip p)
          then count_pieces ps (bump d (PyStr.strip p)) else count_pieces ps d).
  destruct (PyStr.truthy (PyStr.strip p)) eqn:E.
  - rewrite decide_True by exact I. apply IH.
  - rewrite decide_False by exact id. apply IH.
Qed.

Lemma count_tags_foldl all_tags d :
  count_tags all_tags d = foldl bump d (tag_pieces all_tags).
Proof.
  revert d. induction all_tags as [|[tags|] rest IH]; intros d; [done| |].
  - unfold tag_pieces. rewrite bind_cons, foldl_app. fold (tag_pieces rest).
    rewrite <- count_pieces_foldl, <- IH.
    change (count_tags (Some tags :: rest) d)
      with (if PyStr.truthy tags
            then count_tags rest (count_pieces (PyStr.split ","%char tags) d)
            else count_tags rest d).
    destruct tags; done.
  - unfold tag_pieces. rewrite bind_cons. apply IH.
Qed.

Lemma elem_of_add_new seen t x : x ∈ add_new seen t ↔ x ∈ seen ∨ x = t.
Proof.
  unfold add_new. case_bool_decide as Hin.
  - split; [by left|]. intros [?| ->]; done.
  - by rewrite elem_of_app, list_elem_of_singleton.
Qed.

Lemma NoDup_add_new seen t : NoDup seen → NoDup (add_new seen t).
Proof.
  intros Hnd. unfold add_new. case_bool_decide; [done|].
  apply NoDup_app. split_and!; [done| |apply NoDup_singleton].
  intros x Hx ->%list_elem_of_singleton. done.
Qed.

Lemma first_seen_snoc l t : first_seen (l ++ [t]) = add_new (first_seen l) t.
Proof. unfold first_seen. by rewrite foldl_app. Qed.

Lemma elem_of_first_seen l x : x ∈ first_seen l ↔ x ∈ l.
Proof.
  induction l as [|t l IH] using rev_ind; [done|].
  rewrite first_seen_snoc, elem_of_add_new, elem_of_app, list_elem_of_singleton.
  by rewrite IH.
Qed.

Lemma NoDup_first_seen l : NoDup (first_seen l).
Proof.
  induction l as [|t l IH] using rev_ind; [constructor|].
  rewrite first_seen_snoc. by apply NoDup_add_new.
Qed.

Lemma occurrences_snoc t l x :
  occurrences t (l ++ [x]) = occurrences t l + (if bool_decide (x = t) then 1 else 0).
Proof.
  unfold occurrences. rewrite filter_app, length_app. f_equal.
  rewrite filter_cons. case_bool_decide.
  - by rewrite decide_True.
  - by rewrite decide_False.
Qed.

Lemma occurrences_not_in t l : t ∉ l → occurrences t l = 0.
Proof.
  intros Hn. unfold occurrences.
  induction l as [|x l IH]; [done|].
  rewrite filter_cons. rewrite decide_False by set_solver.
  apply IH. set_solver.
Qed.

Lemma get_table (c : string → nat) K t :
  PyDict.get ((fun k => (k, c k)) <$> K) t
  = if bool_decide (t ∈ K) then Some (c t) else None.
Proof.
  induction K as [|k K IH]; csimpl; [done|].
  destruct (decide (k = t)) as [->|Hk].
  - rewrite bool_decide_true by done.
    rewrite bool_decide_true by set_solver. done.
  - rewrite bool_decide_false by done. rewrite IH.
    destruct (decide (t ∈ K)) as [Hin|Hin].
    + rewrite !bool_decide_true by set_solver. done.
    + rewrite !bool_decide_false by set_solver. done.
Qed.

Lemma set_table (c c' : string → nat) K t v :
  NoDup K → c' t = v → (∀ k, k ≠ t → c' k = c k) →
  PyDict.set ((fun k => (k, c k)) <$> K) t v
  = (fun k => (k, c' k)) <$> add_new K t.
Proof.
  intros Hnd Hv Hc. unfold add_new. induction K as [|k K IH]; csimpl.
  { by rewrite Hv. }
  apply NoDup_cons in Hnd as [Hk Hnd].
  destruct (decide (k = t)) as [->|Hkt].
  - rewrite bool_decide_true by done.
    rewrite bool_decide_true by set_solver. csimpl.
    rewrite Hv. f_equal. apply list_fmap_ext. intros i k Hin.
    rewrite Hc; [done|]. intros ->. apply Hk. by eapply list_elem_of_lookup_2.
  - rewrite bool_decide_false by done.
    rewrite (IH Hnd). rewrite <- (Hc k) by done.
    destruct (decide (t ∈ K)) as [Hin|Hin].
    + rewrite !bool_decide_true by set_solver. done.
    + rewrite !bool_decide_false by set_solver. done.
Qed.

Lemma bump_tally l t : bump (tally l) t = tally (l ++ [t]).
Proof.
  unfold bump, tally. rewrite first_seen_snoc.
  apply set_table; [apply NoDup_first_seen| |].
  - rewrite get_table, occurrences_snoc, bool_decide_true by done.
    case_bool_decide as Hin; [done|].
    rewrite elem_of_first_seen in Hin. by rewrite occurrences_not_in.
  - intros k Hk. rewrite occurrences_snoc.
    rewrite bool_decide_false by done. lia.
Qed.

Lemma foldl_bump_tally l l' : foldl bump (tally l) l' = tally (l ++ l').
Proof.
  revert l. induction l' as [|t l' IH]; intros l; simpl.
  - by rewrite app_nil_r.
  - rewrite bump_tally, IH. by rewrite <- app_assoc.
Qed.

Lemma count_tags_tally all_tags :
  count_tags all_tags [] = tally (tag_pieces all_tags).
Proof. rewrite count_tags_foldl. apply (foldl_bump_tally []). Qed.

Lemma insert_desc_perm x l : insert_desc x l ≡ₚ x :: l.
Proof.
  induction l as [|y l IH]; simpl; [done|].
  destruct (snd y <=? snd x); [done|].
  rewrite IH. apply Permutation_swap.
Qed.

Lemma sorted_desc_perm l : sorted_desc l ≡ₚ l.
Proof.
  induction l as [|x l IH]; simpl; [done|].
  rewrite insert_desc_perm. by constructor.
Qed.

Lemma insert_desc_sorted x l :
  StronglySorted count_ge l → StronglySorted count_ge (insert_desc x l).
Proof.
  induction 1 as [|y l Hs IH Hall]; simpl.
  { repeat constructor. }
  destruct (snd y <=? snd x) eqn:E.
  - apply Nat.leb_le in E. constructor; [by constructor|].
    constructor; [exact E|].
    eapply Forall_impl; [exact Hall|]. unfold count_ge. intros z Hz. lia.
  - apply Nat.leb_gt in E. constructor; [exact IH|].
    rewrite insert_desc_perm. constructor; [unfold count_ge; lia|exact Hall].
Qed.

Lemma sorted_desc_sorted l : StronglySorted count_ge (sorted_desc l).
Proof.
  induction l as [|x l IH]; simpl; [constructor|]. by apply insert_desc_sorted.
Qed.

Lemma insert_desc_stable n x l :
  filter (fun p => snd p = n) (insert_desc x l)
  = filter (fun p => snd p = n) (x :: l).
Proof.
  induction l as [|y l IH]; simpl; [done|].
  destruct (snd y <=? snd x) eqn:E; [done|].
  apply Nat.leb_gt in E.
  rewrite (filter_cons _ y), IH, !filter_cons.
  repeat case_decide; try done; lia.
Qed.

Lemma sorted_desc_stable n l :
  filter (fun p => snd p = n) (sorted_desc l) = filter (fun p => snd p = n) l.
Proof.
  induction l as [|x l IH]; simpl; [done|].
  rewrite insert_desc_stable, !filter_cons, IH. done.
Qed.

End TagStatistics.

(** The document's example, as the document gives its result: the
    counts are not [{Python: 2, react: 1, Go: 1}], since "Python" and
    "python" are two tags. *)
Lemma tag_counts_example_cex :
  Backend.count_tags Reference.example_tags []
    ≠ [("Python", 2); ("react", 1); ("Go", 1)]
  ∧ PyDict.get (Backend.count_tags Reference.example_tags []) "Python" = Some 1
  ∧ PyDict.get (Backend.count_tags Reference.example_tags []) "python" = Some 1.
Proof. split; [|split]; vm_compute; [discriminate|reflexivity..]. Qed.

(** C5 (amended): the tag table is the frequency table of the trimmed,
    non-empty comma-separated pieces, tags compared exactly (case
    included) and listed in first-seen order; the top tags are the
    first 15 of that table sorted by descending count, equal counts
    keeping their first-seen order.  The three example strings give
    Python 1, react 1, python 1, Go 1. *)
Theorem tag_aggregation (all_tags : list (option string)) :
  let tag_counts := Backend.count_tags all_tags [] in
  tag_counts = Reference.tally (Reference.tag_pieces all_tags)
  ∧ Backend.top_tags all_tags = take 15 (Backend.sorted_desc tag_counts)
  ∧ Backend.sorted_desc tag_counts ≡ₚ tag_counts
  ∧ StronglySorted Reference.count_ge (Backend.sorted_desc tag_counts)
  ∧ (∀ n, filter (fun p => snd p = n) (Backend.sorted_desc tag_counts)
          = filter (fun p => snd p = n) tag_counts)
  ∧ Backend.top_tags Reference.example_tags
    = [("Python", 1); ("react", 1); ("python", 1); ("Go", 1)].
Proof.
  intros tag_counts. split_and!.
  - apply count_tags_tally.
  - reflexivity.
  - apply sorted_desc_perm.
  - apply sorted_desc_sorted.
  - intros n. apply sorted_desc_stable.
  - vm_compute. reflexivity.
Qed.

(** ** The RemoteOK feed *)
Section RemoteOKFeed.
Import Config Base RemoteOK Reference.
Variable config : SiteConfig.

Lemma lower_truthy s : PyStr.truthy (PyStr.lower s) = PyStr.truthy s.
Proof. by destruct s. Qed.

Lemma parse_loop_filter keyword_lower data jobs :
  parse_loop config keyword_lower data jobs
  = jobs ++ filter
      (fun job => negb (PyStr.truthy keyword_lower
                        && negb (PyStr.contains keyword_lower (searchable job))))
      (omap (_extract_job config) (filter (fun i => ¬ is_metadata i) data)).
Proof.
  revert jobs. induction data as [|item data IH]; intros jobs.
  { by rewrite app_nil_r. }
  cbn [parse_loop]. rewrite filter_cons.
  change (bool_decide (is_Some (legal item))) with (is_metadata item).
  destruct (decide (is_metadata item = true)) as [Hl|Hl].
  { rewrite decide_False by (rewrite Hl; intros Hn; apply Hn; exact I).
    rewrite Hl. apply IH. }
  apply not_true_is_false in Hl.
  rewrite decide_True by (rewrite Hl; exact id). rewrite Hl.
  cbn [omap list_omap].
  destruct (_extract_job config item) as [job|]; [|apply IH].
  rewrite filter_cons.
  destruct (decide (PyStr.truthy keyword_lower
            && negb (PyStr.contains keyword_lower (searchable job)) = true)) as [Hk|Hk].
  - rewrite decide_False by (rewrite Hk; exact id). rewrite Hk. apply IH.
  - apply not_true_is_false in Hk.
    rewrite decide_True by (rewrite Hk; exact I). rewrite Hk, IH.
    by rewrite <- app_assoc.
Qed.

Lemma length_lower s : String.length (PyStr.lower s) = String.length s.
Proof. induction s as [|c s IH]; simpl; [done|]. by rewrite IH. Qed.

Lemma lower_app s1 s2 : PyStr.lower (s1 +:+ s2) = PyStr.lower s1 +:+ PyStr.lower s2.
Proof. induction s1 as [|c s1 IH]; simpl; [done|]. by rewrite IH. Qed.

Lemma lower_substring i n s :
  PyStr.lower (String.substring i n s) = String.substring i n (PyStr.lower s).
Proof.
  revert i n. induction s as [|c s IH]; intros i n.
  - by destruct i, n.
  - destruct i as [|i]; [destruct n as [|n]|]; simpl; [done| |apply IH].
    by rewrite IH.
Qed.

Lemma startswith_substring p s :
  PyStr.startswith p s = true ↔ String.substring 0 (String.length p) s = p.
Proof.
  revert s. induction p as [|a p IH]; intros s.
  - simpl. by destruct s.
  - destruct s as [|b s]; simpl; [done|].
    rewrite andb_true_iff, bool_decide_eq_true, IH. split.
    + by intros [-> ->].
    + by intros [= -> ->].
Qed.

Lemma contains_substring needle s :
  PyStr.contains needle s = true
  ↔ ∃ i, i ≤ String.length s
         ∧ String.substring i (String.length needle) s = needle.
Proof.
  induction s as [|c s IH].
  - simpl. rewrite orb_false_r, startswith_substring. split.
    + intros Hs. exists 0. done.
    + intros (i & Hi & Hs). by replace i with 0 in Hs by lia.
  - cbn [PyStr.contains]. rewrite orb_true_iff, startswith_substring, IH. split.
    + intros [Hs|(i & Hi & Hs)].
      * exists 0. split; [lia|done].
      * exists (S i). split; [simpl; lia|done].
    + intros ([|i] & Hi & Hs); [by left|right].
      exists i. split; [simpl in Hi; lia|done].
Qed.

Lemma occurs_substring keyword text :
  occurs keyword text = true
  ↔ ∃ i, i ≤ String.length text
         ∧ PyStr.lower (String.substring i (String.length keyword) text)
           = PyStr.lower keyword.
Proof.
  unfold occurs. rewrite existsb_exists. unfold occurs_at. split.
  - intros (i & Hi%in_seq & He%bool_decide_eq_true). exists i. split; [lia|done].
  - intros (i & Hi & He). exists i. rewrite in_seq, bool_decide_eq_true.
    split; [lia|done].
Qed.

Lemma contains_lower_occurs keyword text :
  PyStr.contains (PyStr.lower keyword) (PyStr.lower text) = occurs keyword text.
Proof.
  apply eq_true_iff_eq. rewrite contains_substring, occurs_substring.
  rewrite !length_lower. by setoid_rewrite lower_substring.
Qed.

Lemma string_length_app s1 s2 :
  String.length (s1 +:+ s2) = String.length s1 + String.length s2.
Proof. induction s1 as [|c s1 IH]; simpl; [done|]. by rewrite IH. Qed.

Lemma substring_prefix found after :
  String.substring 0 (String.length found) (found +:+ after) = found.
Proof.
  induction found as [|c found IH]; simpl.
  - by destruct after.
  - by rewrite IH.
Qed.

Lemma substring_found before found after :
  String.substring (String.length before) (String.length found)
    (before +:+ found +:+ after) = found.
Proof.
  induction before as [|c before IH]; [|exact IH].
  exact (substring_prefix found after).
Qed.

Lemma substring_split i n s :
  i ≤ String.length s →
  ∃ before after,
    s = before +:+ String.substring i n s +:+ after
    ∧ String.length before = i.
Proof.
  revert i n. induction s as [|c s IH]; intros i n Hi.
  - simpl in Hi. replace i with 0 by lia. exists "", "". by destruct n.
  - destruct i as [|i].
    + destruct n as [|n].
      * exists "", (String c s). done.
      * destruct (IH 0 n) as (before & after & Hs & Hb); [lia|].
        destruct before; [|done]. simpl in Hs.
        exists "", after. split; [|done]. simpl. by rewrite Hs at 1.
    + destruct (IH i n) as (before & after & Hs & Hb); [simpl in Hi; lia|].
      exists (String c before), after. simpl. split; [by rewrite Hs at 1|by rewrite Hb].
Qed.

Lemma occurs_mentions keyword text :
  occurs keyword text = true ↔ mentions keyword text.
Proof.
  rewrite occurs_substring. unfold mentions. split.
  - intros (i & Hi & He).
    destruct (substring_split i (String.length keyword) text Hi)
      as (before & after & Hs & _).
    by exists before, (String.substring i (String.length keyword) text), after.
  - intros (before & found & after & -> & He).
    exists (String.length before). split.
    + rewrite string_length_app. lia.
    + assert (String.length keyword = String.length found) as ->.
      { by rewrite <- (length_lower keyword), <- He, length_lower. }
      by rewrite substring_found.
Qed.

Lemma keep_matches keyword job :
  negb (PyStr.truthy (if PyStr.truthy keyword then PyStr.lower keyword else "")
        && negb (PyStr.contains
                   (if PyStr.truthy keyword then PyStr.lower keyword else "")
                   (searchable job)))
  = matches_keyword keyword job.
Proof.
  unfold matches_keyword. destruct keyword as [|c keyword]; [done|].
  cbn [PyStr.truthy]. rewrite lower_truthy. cbn [PyStr.truthy andb].
  rewrite negb_involutive, bool_decide_eq_false_2 by done. cbn [orb].
  unfold searchable. fold (offer_text job). apply contains_lower_occurs.
Qed.

Lemma matches_keyword_mentions keyword job :
  matches_keyword keyword job = true
  ↔ keyword = "" ∨ mentions keyword (offer_text job).
Proof.
  unfold matches_keyword.
  by rewrite orb_true_iff, bool_decide_eq_true, occurs_mentions.
Qed.

Lemma parse_api_response_filter data keyword :
  _parse_api_response config data keyword
  = take 50 (filter (fun job => matches_keyword keyword job)
               (omap (_extract_job config) (filter (fun i => ¬ is_metadata i) data))).
Proof.
  unfold _parse_api_response. rewrite parse_loop_filter. simpl. f_equal.
  apply list_filter_iff. intros job. by rewrite keep_matches.
Qed.
End RemoteOKFeed.

Section Salary.
Import Config Base RemoteOK Reference.

Ltac in_list := apply (bool_decide_unpack _); vm_compute; exact I.

Lemma chars_app s1 s2 : chars (s1 +:+ s2) = chars s1 ++ chars s2.
Proof. induction s1 as [|c s1 IH]; simpl; [done|]. by rewrite IH. Qed.

Lemma contains_char ch s :
  PyStr.contains (String ch "") s = bool_decide (ch ∈ chars s).
Proof.
  induction s as [|c s IH]; simpl; [done|].
  rewrite IH. destruct (decide (ch = c)) as [->|Hne].
  - rewrite bool_decide_true by done. rewrite (bool_decide_true (c ∈ c :: chars s)) by set_solver.
    done.
  - rewrite bool_decide_false by done. simpl.
    apply bool_decide_ext. set_solver.
Qed.

Lemma uint_chars d : Forall money_char (chars (NilEmpty.string_of_uint d)).
Proof.
  induction d; simpl; [constructor|..]; (apply Forall_cons; split; [in_list|done]).
Qed.

Lemma digits_chars n : Forall money_char (PyStr.digits n).
Proof.
  unfold PyStr.digits, NilZero.string_of_uint.
  destruct (N.to_uint n) eqn:E; try apply uint_chars.
  apply (uint_chars (Decimal.D0 Decimal.Nil)).
Qed.

Lemma commas_rev_chars k l :
  Forall money_char l → Forall money_char (PyStr.commas_rev k l).
Proof.
  intros Hl. revert k. induction Hl as [|c l Hc Hl IH]; intros k; simpl; [done|].
  destruct k.
  - apply Forall_cons; split; [in_list|]. apply Forall_cons; auto.
  - apply Forall_cons; auto.
Qed.

Lemma format_comma_chars n : Forall money_char (chars (PyStr.format_comma n)).
Proof.
  unfold PyStr.format_comma.
  assert (Forall money_char
            (chars (String.string_of_list_ascii
               (reverse (PyStr.commas_rev 3 (reverse (PyStr.digits (Z.abs_N n))))))))
    as Hbody.
  { unfold chars. rewrite String.list_ascii_of_string_of_list_ascii.
    apply Forall_reverse, commas_rev_chars, Forall_reverse, digits_chars. }
  destruct (n <? 0)%Z; [|done].
  apply Forall_cons; split; [in_list|done].
Qed.

Lemma format_comma_no ch n :
  ¬ money_char ch → ch ∉ chars (PyStr.format_comma n).
Proof.
  intros Hch Hin. apply Hch.
  by eapply (proj1 (Forall_forall _ _) (format_comma_chars n)).
Qed.

Lemma salary_range_space lo hi : PyStr.contains " " (salary_range lo hi) = true.
Proof.
  rewrite contains_char. apply bool_decide_eq_true. unfold salary_range.
  rewrite !chars_app. set_solver.
Qed.

Lemma salary_at_least_space lo : PyStr.contains " " (salary_at_least lo) = false.
Proof.
  rewrite contains_char. apply bool_decide_eq_false. unfold salary_at_least.
  rewrite !chars_app. rewrite !elem_of_app.
  intros [Hin|[Hin|Hin]].
  - vm_compute in Hin. set_solver.
  - revert Hin. apply format_comma_no. unfold money_char. set_solver.
  - vm_compute in Hin. set_solver.
Qed.

Lemma salary_forms_differ lo hi lo' :
  salary_range lo hi ≠ salary_at_least lo'
  ∧ salary_range lo hi ≠ "N/A" ∧ salary_at_least lo' ≠ "N/A".
Proof.
  split_and!.
  - intros Heq. pose proof (salary_range_space lo hi) as H1.
    rewrite Heq, salary_at_least_space in H1. done.
  - intros Heq. pose proof (salary_range_space lo hi) as H1.
    rewrite Heq in H1. done.
  - done.
Qed.
End Salary.

Lemma truthy_int_given v : RemoteOK.truthy_int v = true ↔ Reference.bound_given v.
Proof.
  unfold RemoteOK.truthy_int, Reference.bound_given. destruct v as [n|].
  - rewrite negb_true_iff, Z.eqb_neq. split; [eauto|].
    by intros (m & [= ->] & Hm).
  - split; [done|]. by intros (m & [=] & _).
Qed.

Lemma extract_job_salary config item job :
  RemoteOK._extract_job config item = Some job →
  Base.salary job =
    if RemoteOK.truthy_int (RemoteOK.salary_min item)
       && RemoteOK.truthy_int (RemoteOK.salary_max item)
    then Reference.salary_range (default 0%Z (RemoteOK.salary_min item))
                                (default 0%Z (RemoteOK.salary_max item))
    else if RemoteOK.truthy_int (RemoteOK.salary_min item)
    then Reference.salary_at_least (default 0%Z (RemoteOK.salary_min item))
    else "N/A".
Proof.
  unfold RemoteOK._extract_job.
  destruct (negb (PyStr.truthy (default "" (RemoteOK.position item)))); [done|].
  intros [= <-]. reflexivity.
Qed.

(** The feed entries on which the salary does not follow the presence
    of the bounds: an upper bound alone gives the sentinel, and so do
    two bounds that are zero. *)
Lemma remoteok_salary_presence_cex :
  Base.salary <$> RemoteOK._extract_job Reference.example_config
      (Reference.example_offer "Designer" "Initech" [] "initech-designer"
         None (Some 90000%Z))
    = Some "N/A"
  ∧ Base.salary <$> RemoteOK._extract_job Reference.example_config
      (Reference.example_offer "Designer" "Initech" [] "initech-designer"
         (Some 0%Z) (Some 0%Z))
    = Some "N/A".
Proof. split; vm_compute; reflexivity. Qed.

(** C8 (amended): for every feed entry that yields an offer, the salary
    is the formatted range exactly when both bounds are given and not
    zero, the "at least" string exactly when the lower bound is given
    and not zero while the upper one is absent or zero, and the
    sentinel "N/A" exactly when the lower bound is absent or zero. *)
Theorem remoteok_salary config item job :
  RemoteOK._extract_job config item = Some job →
  let lo := RemoteOK.salary_min item in
  let hi := RemoteOK.salary_max item in
  ((∃ a b, Base.salary job = Reference.salary_range a b)
     ↔ Reference.bound_given lo ∧ Reference.bound_given hi)
  ∧ ((∃ a, Base.salary job = Reference.salary_at_least a)
     ↔ Reference.bound_given lo ∧ ¬ Reference.bound_given hi)
  ∧ (Base.salary job = "N/A" ↔ ¬ Reference.bound_given lo)
  ∧ (∀ a b, lo = Some a → hi = Some b → a ≠ 0%Z → b ≠ 0%Z →
       Base.salary job = Reference.salary_range a b)
  ∧ (∀ a, lo = Some a → a ≠ 0%Z → ¬ Reference.bound_given hi →
       Base.salary job = Reference.salary_at_least a).
Proof.
  intros Hjob lo hi. pose proof (extract_job_salary _ _ _ Hjob) as Hs.
  fold lo hi in Hs. rewrite <- !truthy_int_given.
  assert (∀ a, lo = Some a → a ≠ 0%Z → RemoteOK.truthy_int lo = true) as Hlo1.
  { intros a -> Ha. simpl. by apply negb_true_iff, Z.eqb_neq. }
  assert (∀ a, hi = Some a → a ≠ 0%Z → RemoteOK.truthy_int hi = true) as Hhi1.
  { intros a -> Ha. simpl. by apply negb_true_iff, Z.eqb_neq. }
  pose proof (salary_forms_differ) as Hd.
  destruct (RemoteOK.truthy_int lo) eqn:Hlo, (RemoteOK.truthy_int hi) eqn:Hhi;
    simpl in Hs; rewrite Hs; clear Hs.
  - split_and!.
    + split; eauto.
    + split; [|by intros [_ []]]. intros [a Ha]. by apply Hd in Ha.
    + split; [|done]. intros Ha.
      by apply (proj1 (proj2 (Hd _ _ 0%Z))) in Ha.
    + intros a b Ha Hb _ _. by rewrite Ha, Hb.
    + intros a _ _ Hn. rewrite <- truthy_int_given, Hhi in Hn. done.
  - split_and!.
    + split; [|by intros [_ ?]]. intros (a & b & Ha). symmetry in Ha.
      by apply Hd in Ha.
    + split; eauto.
    + split; [|done]. intros Ha.
      by apply (proj2 (proj2 (Hd 0%Z 0%Z _))) in Ha.
    + intros a b _ Hb _ Hb0. discriminate (Hhi1 b Hb Hb0).
    + intros a Ha _ _. by rewrite Ha.
  - split_and!.
    + split; [|by intros [? _]]. intros (a & b & Ha). symmetry in Ha.
      by apply (proj1 (proj2 (Hd _ _ 0%Z))) in Ha.
    + split; [|by intros [? _]]. intros (a & Ha). symmetry in Ha.
      by apply (proj2 (proj2 (Hd 0%Z 0%Z _))) in Ha.
    + done.
    + intros a b Ha _ Ha0 _. discriminate (Hlo1 a Ha Ha0).
    + intros a Ha Ha0 _. discriminate (Hlo1 a Ha Ha0).
  - split_and!.
    + split; [|by intros [? _]]. intros (a & b & Ha). symmetry in Ha.
      by apply (proj1 (proj2 (Hd _ _ 0%Z))) in Ha.
    + split; [|by intros [? _]]. intros (a & Ha). symmetry in Ha.
      by apply (proj2 (proj2 (Hd 0%Z 0%Z _))) in Ha.
    + done.
    + intros a b Ha _ Ha0 _. discriminate (Hlo1 a Ha Ha0).
    + intros a Ha Ha0 _. discriminate (Hlo1 a Ha Ha0).
Qed.

(** C7: the feed parser skips every entry that carries the metadata
    key, keeps the offers that pass the keyword filter and returns at
    most the first 50 of them.  An offer passes when there is no
    keyword, or when the keyword is a substring, letter case aside, of
    the offer's title, company and tags put one after the other with a
    space between.  A feed of one metadata entry and three offers of
    which one passes gives exactly that offer. *)
Theorem remoteok_feed_extraction config (data : list RemoteOK.Item) keyword :
  let offers :=
    omap (RemoteOK._extract_job config)
         (filter (fun i => ¬ Reference.is_metadata i) data) in
  RemoteOK._parse_api_response config data keyword
    = take 50 (filter (fun job => Reference.matches_keyword keyword job) offers)
  ∧ (∀ job, Reference.matches_keyword keyword job = true
            ↔ keyword = ""
              ∨ Reference.mentions keyword (Reference.offer_text job))
  ∧ length (RemoteOK._parse_api_response config data keyword) ≤ 50
  ∧ (∀ meta a b c ja jb jc job,
       data = [meta; a; b; c] →
       Reference.is_metadata meta = true →
       Reference.is_metadata a = false → RemoteOK._extract_job config a = Some ja →
       Reference.is_metadata b = false → RemoteOK._extract_job config b = Some jb →
       Reference.is_metadata c = false → RemoteOK._extract_job config c = Some jc →
       filter (fun job => Reference.matches_keyword keyword job) [ja; jb; jc] = [job] →
       RemoteOK._parse_api_response config data keyword = [job]).
Proof.
  intros offers. split_and!.
  - apply parse_api_response_filter.
  - intros job. apply matches_keyword_mentions.
  - rewrite parse_api_response_filter, length_take. lia.
  - intros meta a b c ja jb jc job -> Hm Ha Hja Hb Hjb Hc Hjc Hf.
    rewrite parse_api_response_filter.
    rewrite !filter_cons, filter_nil.
    rewrite decide_False by (rewrite Hm; intros Hn; apply Hn; exact I).
    rewrite !decide_True by (first [rewrite Ha|rewrite Hb|rewrite Hc]; exact id).
    cbn [omap list_omap]. rewrite Hja, Hjb, Hjc. cbn [omap list_omap].
    by rewrite Hf.
Qed.

(** The keyword in capitals is found in the tags of the first offer,
    in small letters in the company of the second, and in the title of
    the third. *)
Lemma remoteok_feed_extraction_witness :
  RemoteOK._parse_api_response Reference.example_config Reference.example_feed "PYTHON"
  = [ {| Base.job_title := "Backend Engineer"; Base.company := "Acme";
         Base.tags := "python, django";
         Base.apply_link := "https://remoteok.com/acme-backend";
         Base.location := "Remote"; Base.salary := "$90,000 - $120,000";
         Base.source := "N/A" |} ]
  ∧ RemoteOK._parse_api_response Reference.example_config Reference.example_feed
      "globex"
    = [ {| Base.job_title := "Frontend Developer"; Base.company := "Globex";
           Base.tags := "react";
           Base.apply_link := "https://remoteok.com/globex-frontend";
           Base.location := "Remote"; Base.salary := "$70,000+";
           Base.source := "N/A" |} ]
  ∧ RemoteOK._parse_api_response Reference.example_config Reference.example_feed
      "dEsIgNeR"
    = [ {| Base.job_title := "Designer"; Base.company := "Initech";
           Base.tags := "N/A";
           Base.apply_link := "https://remoteok.com/initech-designer";
           Base.location := "Remote"; Base.salary := "N/A";
           Base.source := "N/A" |} ].
Proof.
  split_and!.
  - eapply (proj2 (proj2 (proj2 (remoteok_feed_extraction
                Reference.example_config Reference.example_feed "PYTHON"))));
      [reflexivity|vm_compute; reflexivity..].
  - eapply (proj2 (proj2 (proj2 (remoteok_feed_extraction
                Reference.example_config Reference.example_feed "globex"))));
      [reflexivity|vm_compute; reflexivity..].
  - eapply (proj2 (proj2 (proj2 (remoteok_feed_extraction
                Reference.example_config Reference.example_feed "dEsIgNeR"))));
      [reflexivity|vm_compute; reflexivity..].
Defined.

Lemma remoteok_salary_witness :
  Base.salary
    {| Base.job_title := "Frontend Developer"; Base.company := "Globex";
       Base.tags := "react";
       Base.apply_link := "https://remoteok.com/globex-frontend";
       Base.location := "Remote"; Base.salary := "$70,000+";
       Base.source := "N/A" |}
  = Reference.salary_at_least 70000.
Proof.
  apply (proj2 (proj2 (proj2 (proj2
           (remoteok_salary Reference.example_config
              (Reference.example_offer "Frontend Developer" "Globex" ["react"]
                 "globex-frontend" (Some 70000%Z) None)
              _ ltac:(vm_compute; reflexivity)))))).
  - reflexivity.
  - lia.
  - intros (n & Hn & _). vm_compute in Hn. discriminate.
Defined.

(** ** The selector chains *)
Section SelectorChains.
Import Base Reference.
Context `{Markup Node} `{Urllib}.

Lemma first_nonempty_skip {A} (before : list (list A)) found after :
  Forall (fun l => l = []) before → found ≠ [] →
  first_nonempty (before ++ found :: after) = found.
Proof.
  intros Hb Hf. induction Hb as [|l before -> _ IH]; simpl; [|exact IH].
  by destruct found.
Qed.

Lemma linkedin_job_cards_chain (soup : Node) :
  LinkedIn.job_cards soup
  = first_nonempty
      [ find_all soup (TagClass "div" "base-card");
        find_all soup (TagClass "li" "jobs-search-results__list-item");
        find_all soup (Css "[data-job-id]") ].
Proof.
  unfold LinkedIn.job_cards. simpl.
  destruct (find_all soup (TagClass "div" "base-card")); [|done].
  destruct (find_all soup (TagClass "li" "jobs-search-results__list-item")); [|done].
  by destruct (find_all soup (Css "[data-job-id]")).
Qed.

Lemma indeed_job_cards_chain (soup : Node) :
  Indeed.job_cards soup
  = first_nonempty
      [ find_all soup (TagClass "div" "job_seen_beacon");
        find_all soup (TagClass "div" "jobsearch-SerpJobCard");
        find_all soup (Css "[data-jk]");
        find_all soup (TagClass "td" "resultContent") ].
Proof.
  unfold Indeed.job_cards. simpl.
  destruct (find_all soup (TagClass "div" "job_seen_beacon")); [|done].
  destruct (find_all soup (TagClass "div" "jobsearch-SerpJobCard")); [|done].
  destruct (find_all soup (Css "[data-jk]")); [|done].
  by destruct (find_all soup (TagClass "td" "resultContent")).
Qed.

Lemma infojobs_job_cards_chain (soup : Node) :
  InfoJobs.job_cards soup
  = first_nonempty
      [ find_all soup (TagClass "div" "ij-OfferCardContent");
        find_all soup (TagClass "li" "ij-OfferCard");
        find_all soup (Css "[data-testid='offer-card']") ].
Proof.
  unfold InfoJobs.job_cards. simpl.
  destruct (find_all soup (TagClass "div" "ij-OfferCardContent")); [|done].
  destruct (find_all soup (TagClass "li" "ij-OfferCard")); [|done].
  by destruct (find_all soup (Css "[data-testid='offer-card']")).
Qed.

End SelectorChains.

(** C6: LinkedIn, Indeed and InfoJobs take their cards from an ordered
    chain of selectors and use the nodes of the first selector that
    finds any, whatever the later ones would find; every card found is
    handed to the per-card extraction.  When the first selector finds
    nothing and the second finds two nodes, those two are the cards.
    Tecnoempleo's chain has the one selector of its link harvest. *)
Theorem selector_fallback_chain `{Base.Markup Node} `{Base.Urllib}
    (config : Config.SiteConfig) (html : string) :
  let soup := Base.parse_html html in
  (LinkedIn.job_cards soup
   = Reference.first_nonempty
       [ Base.find_all soup (Base.TagClass "div" "base-card");
         Base.find_all soup (Base.TagClass "li" "jobs-search-results__list-item");
         Base.find_all soup (Base.Css "[data-job-id]") ]
   ∧ LinkedIn.parse_job_listings config html
     = omap (LinkedIn._extract_job config) (LinkedIn.job_cards soup))
  ∧ (Indeed.job_cards soup
     = Reference.first_nonempty
         [ Base.find_all soup (Base.TagClass "div" "job_seen_beacon");
           Base.find_all soup (Base.TagClass "div" "jobsearch-SerpJobCard");
           Base.find_all soup (Base.Css "[data-jk]");
           Base.find_all soup (Base.TagClass "td" "resultContent") ]
     ∧ Indeed.parse_job_listings config html
       = omap (Indeed._extract_job config) (Indeed.job_cards soup))
  ∧ (InfoJobs.job_cards soup
     = Reference.first_nonempty
         [ Base.find_all soup (Base.TagClass "div" "ij-OfferCardContent");
           Base.find_all soup (Base.TagClass "li" "ij-OfferCard");
           Base.find_all soup (Base.Css "[data-testid='offer-card']") ]
     ∧ InfoJobs.parse_job_listings config html
       = omap (InfoJobs._extract_job config) (InfoJobs.job_cards soup))
  ∧ Tecnoempleo.parse_job_listings config html
    = take 30 (Tecnoempleo.harvest config
                 (Reference.first_nonempty
                    [Base.find_all soup (Base.TagHasAttr "a" "href")]) [] [])
  ∧ (∀ (before : list (list Node)) found after,
       Forall (fun l => l = []) before → found ≠ [] →
       Reference.first_nonempty (before ++ found :: after) = found)
  ∧ (∀ a b,
       Base.find_all soup (Base.TagClass "div" "base-card") = [] →
       Base.find_all soup (Base.TagClass "li" "jobs-search-results__list-item")
         = [a; b] →
       LinkedIn.job_cards soup = [a; b]
       ∧ LinkedIn.parse_job_listings config html
         = omap (LinkedIn._extract_job config) [a; b]).
Proof.
  intros soup. split_and!.
  - apply linkedin_job_cards_chain.
  - reflexivity.
  - apply indeed_job_cards_chain.
  - reflexivity.
  - apply infojobs_job_cards_chain.
  - reflexivity.
  - unfold Tecnoempleo.parse_job_listings. fold soup. simpl.
    by destruct (Base.find_all soup (Base.TagHasAttr "a" "href")).
  - apply @first_nonempty_skip.
  - intros a b H1 H2.
    assert (LinkedIn.job_cards soup = [a; b]) as Hc.
    { by rewrite linkedin_job_cards_chain, H1, H2. }
    split; [exact Hc|]. unfold LinkedIn.parse_job_listings. fold soup.
    by rewrite Hc.
Qed.

Lemma selector_fallback_chain_witness :
  length (@LinkedIn.parse_job_listings _ (Fixture.markup (fun _ => Fixture.page))
            Fixture.urllib Fixture.linkedin_config "<html>") = 2.
Proof.
  pose proof (@selector_fallback_chain _ (Fixture.markup (fun _ => Fixture.page))
                Fixture.urllib Fixture.linkedin_config "<html>") as Hchain.
  destruct Hchain as (_ & _ & _ & _ & _ & Hex).
  destruct (Hex Fixture.card1_node Fixture.card2_node) as [_ Hparse];
    [vm_compute; reflexivity..|].
  rewrite Hparse. vm_compute. reflexivity.
Defined.

(** ** The run and the database *)
Section RunAndDatabase.
Import Models Database Backend Reference.

Lemma to_rows_app now n l l' :
  to_rows now n (l ++ l') = to_rows now n l ++ to_rows now (n + length l) l'.
Proof.
  revert n. induction l as [|x l IH]; intros n; simpl.
  - by rewrite Nat.add_0_r.
  - rewrite IH. do 3 f_equal. lia.
Qed.

Lemma rows_flush now db : rows now (flush now db) = rows now db.
Proof. unfold rows, flush. simpl. by rewrite app_nil_r. Qed.

Lemma rows_no_added now db : added db = [] → rows now db = jobs db.
Proof. intros Ha. unfold rows, flush. simpl. by rewrite Ha, app_nil_r. Qed.

Lemma rows_add now job db :
  rows now (add job db)
  = rows now db ++ [to_row now (next_job_id db + length (added db)) job].
Proof. unfold rows, flush, add. simpl. by rewrite to_rows_app, app_assoc. Qed.

Lemma rows_update_log now log_id f db :
  rows now (update_log log_id f db) = rows now db.
Proof. reflexivity. Qed.

Lemma links_app l l' : links (l ++ l') = links l ++ links l'.
Proof. apply fmap_app. Qed.

Lemma head_filter_link link (l : list Job.t) :
  match head (filter (fun j => Job.apply_link j = link) l) with
  | Some _ => link ∈ links l
  | None => link ∉ links l
  end.
Proof.
  induction l as [|j l IH]; simpl.
  - apply not_elem_of_nil.
  - rewrite filter_cons. destruct (decide (Job.apply_link j = link)) as [<-|Hne]; simpl.
    + apply list_elem_of_here.
    + destruct (head (filter (fun j => Job.apply_link j = link) l)).
      * by apply list_elem_of_further.
      * intros [?|?]%elem_of_cons; done.
Qed.

Lemma first_job_by_link_db autoflush now link db :
  let db1 := snd (first_job_by_link autoflush now link db) in
  rows now db1 = rows now db
  ∧ logs db1 = logs db ∧ next_log_id db1 = next_log_id db
  ∧ (autoflush = true → jobs db1 = rows now db).
Proof.
  unfold first_job_by_link. destruct autoflush; cbn [snd].
  - split_and!; [apply rows_flush|done..].
  - split_and!; done.
Qed.

Lemma add_jobs_rows autoflush now offers db total db' total' :
  add_jobs autoflush now offers db total = (db', total') →
  ∃ new,
    rows now db' = rows now db ++ new
    ∧ total' = total + length new
    ∧ Forall (fun row => ∃ job, job ∈ offers
                               ∧ row = to_row now (Job.id row) job) new
    ∧ logs db' = logs db ∧ next_log_id db' = next_log_id db
    ∧ (autoflush = true → NoDup (links (rows now db)) →
       NoDup (links (rows now db'))).
Proof.
  revert db total. induction offers as [|job rest IH]; intros db total Hrun.
  { simpl in Hrun. injection Hrun as <- <-. exists []. rewrite app_nil_r.
    split_and!; auto. }
  cbn [add_jobs] in Hrun.
  destruct (first_job_by_link autoflush now (Base.apply_link job) db)
    as [existing db1] eqn:Hq.
  pose proof (first_job_by_link_db autoflush now (Base.apply_link job) db) as Hdb1.
  rewrite Hq in Hdb1. simpl in Hdb1. destruct Hdb1 as (Hrows & Hlogs & Hnext & Hflush).
  assert (existing = head (filter (fun j => Job.apply_link j = Base.apply_link job)
                                  (jobs db1))) as Hex.
  { unfold first_job_by_link in Hq. by injection Hq as <- <-. }
  destruct existing as [row|].
  - apply IH in Hrun as (new & Hr & Ht & Hfrom & Hl & Hn & Hnd).
    exists new. split_and!.
    + by rewrite Hr, Hrows.
    + done.
    + eapply Forall_impl; [exact Hfrom|]. intros r (j & Hj & Hr').
      exists j. split; [by apply list_elem_of_further|done].
    + by rewrite Hl.
    + by rewrite Hn.
    + intros Haf Hnd0. apply Hnd; [done|]. by rewrite Hrows.
  - apply IH in Hrun as (new & Hr & Ht & Hfrom & Hl & Hn & Hnd).
    rewrite rows_add, Hrows in Hr.
    exists (to_row now (next_job_id db1 + length (added db1)) job :: new).
    split_and!.
    + by rewrite Hr, <- app_assoc.
    + simpl. lia.
    + constructor.
      * exists job. split; [apply list_elem_of_here|done].
      * eapply Forall_impl; [exact Hfrom|]. intros r (j & Hj & Hr').
        exists j. split; [by apply list_elem_of_further|done].
    + by rewrite Hl.
    + by rewrite Hn.
    + intros Haf Hnd0. apply Hnd; [done|].
      rewrite rows_add, Hrows, links_app. apply NoDup_app. split_and!; [done| |].
      * intros link Hin ->%list_elem_of_singleton.
        pose proof (head_filter_link (Base.apply_link job) (jobs db1)) as Hh.
        rewrite <- Hex in Hh. apply Hh. by rewrite (Hflush Haf).
      * apply NoDup_singleton.
Qed.

Lemma init_raises_later adapter keyword location k site_name rest msg :
  init_raises adapter keyword location (S k) rest msg →
  init_raises adapter keyword location k (site_name :: rest) msg.
Proof.
  intros (i & s & c & Hi & Hc & Ha). exists (S i), s, c.
  split_and!; [done..|]. by replace (k + S i) with (S k + i) by lia.
Qed.

Lemma copied_from_later adapter keyword location now k site_name rest row :
  copied_from adapter keyword location now (S k) rest row →
  copied_from adapter keyword location now k (site_name :: rest) row.
Proof.
  intros (i & s & c & offers & job & Hi & Hc & Ha & Hj & Hr).
  exists (S i), s, c, offers, job.
  split_and!; [done..| |done|done]. by replace (k + S i) with (S k + i) by lia.
Qed.

Lemma sites_loop_spec autoflush adapter now sites keyword location :
  ∀ k db total errors,
    ∃ new,
      match sites_loop autoflush adapter now k sites keyword location
              db total errors with
      | inl (db', total', errors') =>
          rows now db' = rows now db ++ new
          ∧ Forall (copied_from adapter keyword location now k sites) new
          ∧ (autoflush = true → NoDup (links (rows now db)) →
             NoDup (links (rows now db')))
          ∧ logs db' = logs db ∧ next_log_id db' = next_log_id db
          ∧ total' = total + length new
          ∧ errors' = errors ++ failures adapter keyword location k sites
      | inr (db', msg) =>
          rows now db' = rows now db ++ new
          ∧ Forall (copied_from adapter keyword location now k sites) new
          ∧ (autoflush = true → NoDup (links (rows now db)) →
             NoDup (links (rows now db')))
          ∧ logs db' = logs db ∧ next_log_id db' = next_log_id db
          ∧ init_raises adapter keyword location k sites msg
      end.
Proof.
  induction sites as [|site_name rest IH]; intros k db total errors.
  { exists []. simpl. rewrite !app_nil_r. split_and!; auto. }
  cbn [sites_loop failures]. unfold site_failure.
  destruct (PyDict.get SCRAPERS site_name) as [scraper_class|] eqn:Hcls.
  2:{ destruct (IH (S k) db total (errors ++ ["Unknown site: " +:+ site_name]))
        as [new Hnew]. exists new.
      destruct (sites_loop _ _ _ _ _ _ _ _ _ _) as [[[db' total'] errors']|[db' msg]].
      - destruct Hnew as (? & Hc & ? & ? & ? & ? & ->).
        split_and!; try done.
        + eapply Forall_impl; [exact Hc|]. intros r. apply copied_from_later.
        + simpl. by rewrite <- app_assoc.
      - destruct Hnew as (? & Hc & ? & ? & ? & ?).
        split_and!; try done.
        + eapply Forall_impl; [exact Hc|]. intros r. apply copied_from_later.
        + by apply init_raises_later. }
  destruct (adapter k scraper_class keyword location) as [msg|msg|offers] eqn:Hout.
  - exists []. rewrite app_nil_r. split_and!; auto.
    exists 0, site_name, scraper_class. rewrite Nat.add_0_r. done.
  - destruct (IH (S k) db total (errors ++ [site_name +:+ ": " +:+ msg]))
      as [new Hnew]. exists new.
    destruct (sites_loop _ _ _ _ _ _ _ _ _ _) as [[[db' total'] errors']|[db' msg']].
    + destruct Hnew as (? & Hc & ? & ? & ? & ? & ->).
      split_and!; try done.
      * eapply Forall_impl; [exact Hc|]. intros r. apply copied_from_later.
      * simpl. by rewrite <- app_assoc.
    + destruct Hnew as (? & Hc & ? & ? & ? & ?).
      split_and!; try done.
      * eapply Forall_impl; [exact Hc|]. intros r. apply copied_from_later.
      * by apply init_raises_later.
  - destruct (add_jobs autoflush now offers db total) as [db1 total1] eqn:Hadd.
    apply add_jobs_rows in Hadd as (new1 & Hr1 & Ht1 & Hfrom1 & Hl1 & Hn1 & Hnd1).
    destruct (IH (S k) (commit now db1) total1 errors) as [new Hnew].
    exists (new1 ++ new).
    assert (Forall (copied_from adapter keyword location now k (site_name :: rest))
                   new1) as Hc1.
    { eapply Forall_impl; [exact Hfrom1|]. intros r (j & Hj & Hr').
      exists 0, site_name, scraper_class, offers, j. rewrite Nat.add_0_r. done. }
    unfold commit in *. rewrite rows_flush in Hnew. simpl in Hnew.
    destruct (sites_loop _ _ _ _ _ _ _ _ _ _) as [[[db' total'] errors']|[db' msg']].
    + destruct Hnew as (Hr & Hc & Hnd & Hl & Hn & -> & ->).
      split_and!.
      * by rewrite Hr, Hr1, app_assoc.
      * apply Forall_app. split; [done|].
        eapply Forall_impl; [exact Hc|]. intros r. apply copied_from_later.
      * intros Haf Hnd0. apply Hnd; [done|]. by apply Hnd1.
      * by rewrite Hl.
      * by rewrite Hn.
      * rewrite Ht1, length_app. lia.
      * done.
    + destruct Hnew as (Hr & Hc & Hnd & Hl & Hn & Hinit).
      split_and!.
      * by rewrite Hr, Hr1, app_assoc.
      * apply Forall_app. split; [done|].
        eapply Forall_impl; [exact Hc|]. intros r. apply copied_from_later.
      * intros Haf Hnd0. apply Hnd; [done|]. by apply Hnd1.
      * by rewrite Hl.
      * by rewrite Hn.
      * by apply init_raises_later.
Qed.

Lemma run_scrape_work_spec autoflush adapter now log_id sites keyword location db :
  let db' := run_scrape_work autoflush adapter now log_id sites keyword location db in
  ∃ new,
    jobs db' = rows now db ++ new ∧ added db' = []
    ∧ Forall (copied_from adapter keyword location now 0 sites) new
    ∧ (autoflush = true → NoDup (links (rows now db)) → NoDup (links (jobs db')))
    ∧ next_log_id db' = next_log_id db
    ∧ (logs db' = logs (update_log log_id
                          (set_completed now (length new)
                             (failures adapter keyword location 0 sites)) db)
       ∨ ∃ msg, init_raises adapter keyword location 0 sites msg
                ∧ logs db' = logs (update_log log_id (set_failed now msg) db)).
Proof.
  intros db'. subst db'. unfold run_scrape_work.
  destruct (sites_loop_spec autoflush adapter now sites keyword location 0 db 0 [])
    as [new Hnew].
  exists new.
  destruct (sites_loop _ _ _ _ _ _ _ _ _ _) as [[[db1 total] errors]|[db1 msg]].
  - destruct Hnew as (Hr & Hc & Hnd & Hl & Hn & -> & ->).
    split_and!; try done.
    + left. simpl. by rewrite Hl.
  - destruct Hnew as (Hr & Hc & Hnd & Hl & Hn & Hinit).
    split_and!; try done.
    right. exists msg. split; [done|]. simpl. by rewrite Hl.
Qed.

Lemma run_scrape_begin_spec now log_id db db' :
  run_scrape_begin now log_id db = Some db' →
  is_Some (first_log_by_id log_id db)
  ∧ jobs db' = rows now db ∧ added db' = []
  ∧ next_log_id db' = next_log_id db
  ∧ logs db' = logs (update_log log_id set_running db).
Proof.
  unfold run_scrape_begin. destruct (first_log_by_id log_id db) as [log|]; [|done].
  intros [= <-]. split_and!; eauto.
Qed.

Lemma first_log_update_same log_id f db :
  (∀ l, ScrapeLog.id (f l) = ScrapeLog.id l) →
  head (filter (fun l => ScrapeLog.id l = log_id) (logs (update_log log_id f db)))
  = f <$> first_log_by_id log_id db.
Proof.
  intros Hid. unfold first_log_by_id, update_log. simpl.
  induction (logs db) as [|l ls IH]; [done|].
  rewrite fmap_cons, !filter_cons.
  destruct (decide (ScrapeLog.id l = log_id)) as [Heq|Hne].
  - rewrite bool_decide_true by done. rewrite decide_True by (by rewrite Hid). done.
  - rewrite bool_decide_false by done. rewrite decide_False by done. exact IH.
Qed.

Lemma first_log_update_other log_id other f db :
  (∀ l, ScrapeLog.id (f l) = ScrapeLog.id l) → other ≠ log_id →
  head (filter (fun l => ScrapeLog.id l = other) (logs (update_log log_id f db)))
  = first_log_by_id other db.
Proof.
  intros Hid Hne. unfold first_log_by_id, update_log. simpl.
  induction (logs db) as [|l ls IH]; [done|].
  rewrite fmap_cons, !filter_cons.
  destruct (decide (ScrapeLog.id l = log_id)) as [Heq|Hne'].
  - rewrite bool_decide_true by done.
    rewrite !decide_False by (rewrite ?Hid; congruence). exact IH.
  - rewrite bool_decide_false by done.
    destruct (decide (ScrapeLog.id l = other)); [done|exact IH].
Qed.

End RunAndDatabase.

(** ** Failing sources *)
Section FailingSources.
Import Models Database Backend Reference.

Lemma all_scrapes_raise_tail adapter keyword location site_name rest :
  all_scrapes_raise adapter keyword location (site_name :: rest) →
  all_scrapes_raise (fun k => adapter (S k)) keyword location rest.
Proof. intros Hall i s Hi. apply (Hall (S i) s Hi). Qed.

Lemma failures_shift adapter keyword location k sites :
  failures adapter keyword location (S k) sites
  = failures (fun i => adapter (S i)) keyword location k sites.
Proof.
  revert k. induction sites as [|s rest IH]; intros k; simpl; [done|].
  by rewrite IH.
Qed.

Lemma failures_all_raise adapter keyword location sites :
  all_scrapes_raise adapter keyword location sites →
  length (failures adapter keyword location 0 sites) = length sites
  ∧ ∀ i site_name, sites !! i = Some site_name →
      ∃ scraper_class msg,
        PyDict.get SCRAPERS site_name = Some scraper_class
        ∧ adapter i scraper_class keyword location = ScrapeRaises msg
        ∧ failures adapter keyword location 0 sites !! i
          = Some (site_name +:+ ": " +:+ msg).
Proof.
  revert adapter. induction sites as [|s rest IH]; intros adapter Hall.
  { split; [done|]. intros i s Hi. done. }
  destruct (Hall 0 s eq_refl) as (c & msg & Hc & Ha).
  destruct (IH _ (all_scrapes_raise_tail _ _ _ _ _ Hall)) as [Hlen Hith].
  cbn [failures]. unfold site_failure. rewrite Hc, Ha, failures_shift. simpl.
  split; [by rewrite Hlen|].
  intros [|i] s' Hi.
  - injection Hi as <-. by exists c, msg.
  - apply Hith in Hi as (c' & msg' & ? & ? & ?). by exists c', msg'.
Qed.

Lemma all_scrapes_raise_no_init adapter keyword location sites msg :
  all_scrapes_raise adapter keyword location sites →
  ¬ init_raises adapter keyword location 0 sites msg.
Proof.
  intros Hall (i & s & c & Hi & Hc & Ha).
  destruct (Hall i s Hi) as (c' & msg' & Hc' & Ha'). simpl in Ha. congruence.
Qed.

Lemma all_scrapes_raise_no_rows adapter keyword location now sites new :
  all_scrapes_raise adapter keyword location sites →
  Forall (copied_from adapter keyword location now 0 sites) new → new = [].
Proof.
  intros Hall Hnew. destruct new as [|row new]; [done|].
  apply Forall_cons in Hnew as [(i & s & c & offers & job & Hi & Hc & Ha & _) _].
  destruct (Hall i s Hi) as (c' & msg' & Hc' & Ha'). simpl in Ha. congruence.
Qed.

End FailingSources.

(** C2: when no scraper's constructor raises, a run ends [completed]
    whatever the scrapers' [scrape] calls do, with [completed_at] set
    and the error summary holding the joined entries of the failed
    sites; when, in a run over at least one site, every site's
    [scrape] raises, the run is [completed] with [jobs_found = 0], no
    row is written, and the summary is non-null with one entry
    ["site: message"] per site. *)
Theorem failing_sources_leave_run_completed
    autoflush adapter now log_id sites keyword location db log :
  Database.first_log_by_id log_id db = Some log →
  let db' :=
    Backend.run_scrape autoflush adapter now log_id sites keyword location db in
  let errors := Reference.failures adapter keyword location 0 sites in
  ((∀ msg, ¬ Reference.init_raises adapter keyword location 0 sites msg) →
   ∃ log',
     Database.first_log_by_id log_id db' = Some log'
     ∧ Models.ScrapeLog.status log' = Models.completed
     ∧ Models.ScrapeLog.completed_at log' = Some now
     ∧ Models.ScrapeLog.error_message log'
       = match errors with
         | [] => Models.ScrapeLog.error_message log
         | _ => Some (PyStr.join "; " errors)
         end)
  ∧ (sites ≠ [] → Reference.all_scrapes_raise adapter keyword location sites →
     ∃ log',
       Database.first_log_by_id log_id db' = Some log'
       ∧ Models.ScrapeLog.status log' = Models.completed
       ∧ Models.ScrapeLog.jobs_found log' = 0
       ∧ Models.ScrapeLog.error_message log' = Some (PyStr.join "; " errors)
       ∧ length errors = length sites
       ∧ (∀ i site_name, sites !! i = Some site_name →
            ∃ scraper_class msg,
              PyDict.get Backend.SCRAPERS site_name = Some scraper_class
              ∧ adapter i scraper_class keyword location = Backend.ScrapeRaises msg
              ∧ errors !! i = Some (site_name +:+ ": " +:+ msg))
       ∧ Database.jobs db' = Reference.rows now db).
Proof.
  intros Hlog db' errors.
  assert (∃ db1, Backend.run_scrape_begin now log_id db = Some db1
                 ∧ db' = Backend.run_scrape_work autoflush adapter now log_id sites
                           keyword location db1) as (db1 & Hbegin & Hdb').
  { subst db'. unfold Backend.run_scrape, Backend.run_scrape_begin.
    rewrite Hlog. eauto. }
  apply run_scrape_begin_spec in Hbegin as (_ & Hjobs1 & Hadded1 & Hnext1 & Hlogs1).
  assert (Database.first_log_by_id log_id db1 = Some (Backend.set_running log))
    as Hlog1.
  { unfold Database.first_log_by_id at 1. rewrite Hlogs1.
    rewrite first_log_update_same by done. by rewrite Hlog. }
  destruct (run_scrape_work_spec autoflush adapter now log_id sites keyword
              location db1) as (new & Hjobs & Hadded & Hfrom & _ & _ & Hlogs).
  rewrite <- Hdb' in Hjobs, Hadded, Hlogs.
  assert ((∀ msg, ¬ Reference.init_raises adapter keyword location 0 sites msg) →
          Database.first_log_by_id log_id db'
          = Some (Backend.set_completed now (length new) errors
                    (Backend.set_running log))) as Hdone.
  { intros Hno. destruct Hlogs as [Hlogs|(msg & Hinit & _)]; [|by destruct (Hno msg)].
    unfold Database.first_log_by_id at 1. rewrite Hlogs.
    rewrite first_log_update_same by done. by rewrite Hlog1. }
  split.
  - intros Hno. eexists. split; [by apply Hdone|]. simpl.
    split_and!; done.
  - intros Hsites Hall.
    destruct (failures_all_raise _ _ _ _ Hall) as [Hlen Hith].
    assert (new = []) as ->.
    { by eapply all_scrapes_raise_no_rows. }
    eexists. split.
    { apply Hdone. intros msg. by apply all_scrapes_raise_no_init. }
    simpl. split_and!; try done.
    + fold errors in Hlen. destruct errors; [|done].
      destruct sites; [done|]. simpl in Hlen. lia.
    + rewrite Hjobs, app_nil_r. by rewrite (rows_no_added now db1 Hadded1), Hjobs1.
Qed.

Lemma failing_sources_leave_run_completed_witness :
  ∃ log',
    Database.first_log_by_id 1
      (Backend.run_scrape true Reference.failing_adapter 200 1
         ["remoteok"; "indeed"] "python" "" Reference.example_log_db) = Some log'
    ∧ Models.ScrapeLog.status log' = Models.completed
    ∧ Models.ScrapeLog.jobs_found log' = 0
    ∧ Models.ScrapeLog.error_message log'
      = Some "remoteok: connection refused; indeed: timed out".
Proof.
  destruct (proj2 (failing_sources_leave_run_completed true
              Reference.failing_adapter 200 1 ["remoteok"; "indeed"] "python" ""
              Reference.example_log_db _ eq_refl))
    as (log' & Hlog & Hstatus & Hfound & Hmsg & _).
  - discriminate.
  - intros [|[|i]] s [= <-]; vm_compute; eauto.
  - exists log'. split_and!; try done.
Defined.

(** ** Splitting and trimming *)
Section SplitAndStrip.
Import Reference.

Lemma split_not_nil sep s : PyStr.split sep s ≠ [].
Proof.
  destruct s as [|c s]; simpl; [done|].
  case_bool_decide; [done|]. by destruct (PyStr.split sep s).
Qed.

Lemma split_free sep s : free_of sep s → PyStr.split sep s = [s].
Proof.
  unfold free_of. induction s as [|c s IH]; simpl; [done|].
  intros Hc. apply not_elem_of_cons in Hc as [Hne Hc].
  rewrite bool_decide_false by done. by rewrite (IH Hc).
Qed.

Lemma split_app_sep sep s1 s2 :
  free_of sep s1 →
  PyStr.split sep (s1 +:+ String sep s2) = s1 :: PyStr.split sep s2.
Proof.
  unfold free_of. induction s1 as [|c s1 IH]; simpl.
  { intros _. by rewrite bool_decide_true. }
  intros Hc. apply not_elem_of_cons in Hc as [Hne Hc].
  rewrite bool_decide_false by done.
  change (String.append s1 (String sep s2)) with (s1 +:+ String sep s2).
  by rewrite (IH Hc).
Qed.

Lemma split_join sep segs :
  segs ≠ [] → Forall (free_of sep) segs →
  PyStr.split sep (PyStr.join (String sep "") segs) = segs.
Proof.
  intros Hne Hfree. induction Hfree as [|s segs Hs Hfree IH]; [done|].
  destruct segs as [|s' segs].
  { simpl. by apply split_free. }
  change (PyStr.join (String sep "") (s :: s' :: segs))
    with (s +:+ String sep "" +:+ PyStr.join (String sep "") (s' :: segs)).
  change (String sep "" +:+ PyStr.join (String sep "") (s' :: segs))
    with (String sep (PyStr.join (String sep "") (s' :: segs))).
  rewrite split_app_sep by done. by rewrite IH.
Qed.

Lemma lstrip_blank_app l s : blank l → PyStr.lstrip (l +:+ s) = PyStr.lstrip s.
Proof.
  unfold blank. induction l as [|c l IH]; simpl; [done|].
  intros Hb. apply Forall_cons in Hb as [Hc Hb]. rewrite Hc. by apply IH.
Qed.

Lemma lstrip_trimmed s : trimmed s → PyStr.lstrip s = s.
Proof.
  intros [(c & Hc & Hs) _]. destruct s as [|c' s]; [done|].
  simpl in Hc. injection Hc as ->. simpl. by rewrite Hs.
Qed.

Lemma rstrip_blank r : blank r → PyStr.rstrip r = "".
Proof.
  unfold blank. induction r as [|c r IH]; simpl; [done|].
  intros Hb. apply Forall_cons in Hb as [Hc Hb]. by rewrite (IH Hb), Hc.
Qed.

Lemma rstrip_app_blank s r : blank r → PyStr.rstrip (s +:+ r) = PyStr.rstrip s.
Proof.
  intros Hb. induction s as [|c s IH]; simpl.
  - by apply rstrip_blank.
  - change (String.append s r) with (s +:+ r). by rewrite IH.
Qed.

Lemma rstrip_last s c :
  last (chars s) = Some c → PyStr.is_space c = false → PyStr.rstrip s = s.
Proof.
  induction s as [|c' s IH]; [done|].
  intros Hl Hc. destruct s as [|c'' s].
  - simpl in Hl. injection Hl as ->. simpl. by rewrite Hc.
  - change (PyStr.rstrip (String c' (String c'' s)))
      with (if PyStr.is_space c' && negb (PyStr.truthy (PyStr.rstrip (String c'' s)))
            then "" else String c' (PyStr.rstrip (String c'' s))).
    rewrite IH by done. simpl. by rewrite andb_false_r.
Qed.

Lemma strip_padded l core r :
  blank l → blank r → trimmed core → PyStr.strip (l +:+ core +:+ r) = core.
Proof.
  intros Hl Hr Ht. unfold PyStr.strip.
  rewrite lstrip_blank_app by done.
  assert (PyStr.lstrip (core +:+ r) = core +:+ r) as ->.
  { destruct Ht as [(c & Hc & Hs) _]. destruct core as [|c' core]; [done|].
    simpl in Hc. injection Hc as ->. simpl. by rewrite Hs. }
  rewrite rstrip_app_blank by done.
  destruct Ht as [_ (c & Hc & Hs)]. by eapply rstrip_last.
Qed.

Lemma strip_blank s : blank s → PyStr.strip s = "".
Proof.
  intros Hb. unfold PyStr.strip.
  assert (PyStr.lstrip s = "") as ->; [|done].
  unfold blank in Hb. induction s as [|c s IH]; simpl; [done|].
  apply Forall_cons in Hb as [Hc Hb]. rewrite Hc. by apply IH.
Qed.

Lemma site_list_of_join segs :
  segs ≠ [] → Forall (free_of ","%char) segs →
  Backend.site_list_of (PyStr.join "," segs)
  = (fun s => PyStr.lower (PyStr.strip s))
      <$> filter (fun s => PyStr.truthy (PyStr.strip s)) segs.
Proof.
  intros Hne Hfree. unfold Backend.site_list_of. by rewrite split_join.
Qed.

End SplitAndStrip.

(** ** Starting a run *)
Section StartScrape.
Import Models Database Backend Reference.

Lemma unknown_site_filter site_list :
  filter (fun s => negb (PyDict.mem s SCRAPERS)) site_list = []
  ↔ Forall known_site site_list.
Proof.
  induction site_list as [|s l IH]; [by split; [constructor|]|].
  rewrite filter_cons, Forall_cons, <- IH. unfold PyDict.mem, known_site.
  destruct (decide (is_Some (PyDict.get SCRAPERS s))) as [Hk|Hk].
  - rewrite bool_decide_true by done. simpl. tauto.
  - rewrite bool_decide_false by done. simpl. split; [done|tauto].
Qed.

Lemma start_scrape_accepts now sites keyword location db :
  site_list_of sites ≠ [] → Forall known_site (site_list_of sites) →
  start_scrape now sites keyword location db
  = (inr ({| message := "Scraping started"; log_id := next_log_id db;
             Backend.sites := site_list_of sites;
             Backend.keyword := keyword; Backend.location := location |},
          {| task_log_id := next_log_id db; task_sites := site_list_of sites;
             task_keyword := keyword; task_location := location |}),
     snd (insert_log now keyword location
            (PyStr.join "," (site_list_of sites)) db)).
Proof.
  intros Hne Hknown. unfold start_scrape.
  apply unknown_site_filter in Hknown. rewrite Hknown.
  destruct (site_list_of sites); done.
Qed.

Lemma start_scrape_rejects_unknown now sites keyword location db :
  site_list_of sites = [] ∨ ¬ Forall known_site (site_list_of sites) →
  ∃ detail,
    start_scrape now sites keyword location db
    = (inl {| status_code := 400; detail := detail |}, db).
Proof.
  intros Hbad. unfold start_scrape.
  destruct (site_list_of sites) as [|s l] eqn:Hl; [eauto|].
  destruct Hbad as [?|Hbad]; [done|].
  rewrite <- unknown_site_filter in Hbad.
  destruct (filter _ (s :: l)); [done|eauto].
Qed.

End StartScrape.

(** C3: a request whose site list is empty after normalisation, or
    holds a name that is no key of [SCRAPERS], is answered with an
    [HTTPException] of status 400 at once; the database is the one
    before the request: no log is created and no task is scheduled. *)
Theorem start_scrape_rejects autoflush now sites keyword location db :
  let site_list := Backend.site_list_of sites in
  site_list = [] ∨ (∃ s, s ∈ site_list ∧ ¬ Reference.known_site s) →
  (∃ detail,
     Backend.start_scrape now sites keyword location db
     = (inl {| Backend.status_code := 400; Backend.detail := detail |}, db)
     ∧ (site_list = [] → detail = "No sites specified")
     ∧ (site_list ≠ [] →
        detail = "Invalid sites: "
                 +:+ PyStr.join ", "
                       (filter (fun s => negb (PyDict.mem s Backend.SCRAPERS))
                               site_list)))
  ∧ (∀ sys,
       Service.db sys = db →
       Service.step autoflush sys (Service.PostScrape now sites keyword location)
       = sys).
Proof.
  intros site_list Hbad.
  assert (site_list = [] ∨ ¬ Forall Reference.known_site site_list) as Hbad'.
  { destruct Hbad as [?|(s & Hs & Hk)]; [by left|right].
    intros Hall. apply Hk. by eapply (proj1 (Forall_forall _ _) Hall). }
  split.
  - unfold Backend.start_scrape. fold site_list.
    destruct site_list as [|s l] eqn:Hl.
    { eexists. split_and!; done. }
    destruct Hbad' as [?|Hbad']; [done|].
    rewrite <- unknown_site_filter in Hbad'.
    destruct (filter _ (s :: l)) eqn:Hf; [done|].
    eexists. split_and!; done.
  - intros [sdb w a] Hdb. simpl in Hdb. subst sdb. simpl.
    destruct (start_scrape_rejects_unknown now sites keyword location db Hbad')
      as [detail ->]. done.
Qed.

Lemma start_scrape_rejects_witness :
  (∃ detail,
     Backend.start_scrape 100 "remoteok, monster" "python" "" Database.empty
     = (inl {| Backend.status_code := 400; Backend.detail := detail |},
        Database.empty))
  ∧ Service.step true Service.init (Service.PostScrape 100 "" "python" "")
    = Service.init.
Proof.
  split.
  - assert (Backend.site_list_of "remoteok, monster" = []
            ∨ (∃ s, s ∈ Backend.site_list_of "remoteok, monster"
                    ∧ ¬ Reference.known_site s)) as Hbad.
    { right. exists "monster". split.
      - apply (bool_decide_unpack _). vm_compute. exact I.
      - intros [x Hx]. vm_compute in Hx. discriminate. }
    destruct (proj1 (start_scrape_rejects true 100 "remoteok, monster" "python" ""
                       Database.empty Hbad)) as (detail & Heq & _).
    by exists detail.
  - apply (proj2 (start_scrape_rejects true 100 "" "python" "" Database.empty
                    (or_introl eq_refl))).
    reflexivity.
Defined.

Lemma truthy_not_empty s : PyStr.truthy s = true ↔ s ≠ "".
Proof. destruct s; simpl; split; done. Qed.

(** C10: the [sites] parameter is split on commas, each piece trimmed
    and lower-cased and the empty pieces dropped, before anything is
    checked.  So a parameter whose pieces are blank or, once trimmed
    and lower-cased, known site names (at least one of them) is
    accepted, with those names as the site list: letter case, stray
    commas and surrounding white space do not cause a rejection;
    "RemoteOK" selects [remoteok]. *)
Theorem sites_parameter_normalised now keyword location db (segs : list string) :
  Forall (Reference.free_of ","%char) segs →
  (∃ s, s ∈ segs ∧ PyStr.strip s ≠ "") →
  (∀ s, s ∈ segs →
        PyStr.strip s = "" ∨ Reference.known_site (PyStr.lower (PyStr.strip s))) →
  let site_list :=
    (fun s => PyStr.lower (PyStr.strip s))
      <$> filter (fun s => PyStr.truthy (PyStr.strip s)) segs in
  Backend.site_list_of (PyStr.join "," segs) = site_list
  ∧ (∃ started task db',
       Backend.start_scrape now (PyStr.join "," segs) keyword location db
       = (inr (started, task), db')
       ∧ Backend.sites started = site_list
       ∧ Backend.task_sites task = site_list)
  ∧ (∀ l core r, Reference.blank l → Reference.blank r → Reference.trimmed core →
       PyStr.strip (l +:+ core +:+ r) = core)
  ∧ (∀ s, Reference.blank s → PyStr.strip s = "")
  ∧ Backend.site_list_of "RemoteOK" = ["remoteok"]
  ∧ Backend.site_list_of " RemoteOK , ,indeed," = ["remoteok"; "indeed"].
Proof.
  intros Hfree (s0 & Hs0 & Hne0) Hknown site_list.
  assert (segs ≠ []) as Hne by (intros ->; by apply elem_of_nil in Hs0).
  assert (Backend.site_list_of (PyStr.join "," segs) = site_list) as Hlist.
  { by apply site_list_of_join. }
  split_and!.
  - exact Hlist.
  - do 3 eexists. rewrite start_scrape_accepts.
    + split; [reflexivity|]. simpl. by rewrite Hlist.
    + rewrite Hlist. subst site_list. intros Hnil.
      apply fmap_nil_inv in Hnil.
      assert (s0 ∈ filter (fun s => PyStr.truthy (PyStr.strip s)) segs) as Hin.
      { apply list_elem_of_filter. split; [|done].
        apply Is_true_true. by apply truthy_not_empty. }
      rewrite Hnil in Hin. by apply elem_of_nil in Hin.
    + rewrite Hlist. subst site_list. apply Forall_fmap, Forall_forall.
      intros s [Ht Hs]%list_elem_of_filter. simpl.
      destruct (Hknown s Hs) as [He|Hk]; [|done].
      rewrite He in Ht. done.
  - apply strip_padded.
  - apply strip_blank.
  - vm_compute. reflexivity.
  - vm_compute. reflexivity.
Qed.

Lemma sites_parameter_normalised_witness :
  Backend.site_list_of " RemoteOK , ,indeed," = ["remoteok"; "indeed"]
  ∧ ∃ started task db',
      Backend.start_scrape 100 " RemoteOK , ,indeed," "python" "" Database.empty
      = (inr (started, task), db')
      ∧ Backend.sites started = ["remoteok"; "indeed"].
Proof.
  assert (Forall (Reference.free_of ","%char) [" RemoteOK "; " "; "indeed"; ""])
    as Hfree.
  { repeat (apply Forall_cons; split; [intros Hin; vm_compute in Hin;
              repeat (apply elem_of_cons in Hin as [[=]|Hin]);
              by apply elem_of_nil in Hin|]).
    apply Forall_nil. done. }
  assert (∃ s, s ∈ [" RemoteOK "; " "; "indeed"; ""] ∧ PyStr.strip s ≠ "") as Hone.
  { exists "indeed". split; [|vm_compute; discriminate].
    apply (bool_decide_unpack _). vm_compute. exact I. }
  assert (∀ s, s ∈ [" RemoteOK "; " "; "indeed"; ""] →
               PyStr.strip s = ""
               ∨ Reference.known_site (PyStr.lower (PyStr.strip s))) as Hknown.
  { intros s Hs. repeat (apply elem_of_cons in Hs as [->|Hs]).
    - right. vm_compute. eauto.
    - left. vm_compute. reflexivity.
    - right. vm_compute. eauto.
    - left. vm_compute. reflexivity.
    - by apply elem_of_nil in Hs. }
  destruct (sites_parameter_normalised 100 "python" "" Database.empty
              [" RemoteOK "; " "; "indeed"; ""] Hfree Hone Hknown)
    as (Hlist & (started & task & db' & Hstart & Hsites & _) & _).
  split; [exact Hlist|]. by exists started, task, db'.
Defined.

(** ** The run log *)
Section RunLog.
Import Models Database Backend Service Reference.

Lemma head_filter_snoc_other (log : ScrapeLog.t) ls i :
  ScrapeLog.id log ≠ i →
  head (filter (fun l => ScrapeLog.id l = i) (ls ++ [log]))
  = head (filter (fun l => ScrapeLog.id l = i) ls).
Proof.
  intros Hne. rewrite filter_app, filter_cons, decide_False by done.
  by rewrite filter_nil, app_nil_r.
Qed.

Lemma head_filter_snoc_new (log : ScrapeLog.t) ls :
  (∀ l, l ∈ ls → ScrapeLog.id l ≠ ScrapeLog.id log) →
  head (filter (fun l => ScrapeLog.id l = ScrapeLog.id log) (ls ++ [log]))
  = Some log.
Proof.
  intros Hfresh. rewrite filter_app, filter_cons, decide_True by done.
  assert (filter (fun l => ScrapeLog.id l = ScrapeLog.id log) ls = []) as ->; [|done].
  induction ls as [|l ls IH]; [done|].
  rewrite filter_cons, decide_False by (apply Hfresh; set_solver).
  apply IH. intros l' Hl'. apply Hfresh. set_solver.
Qed.

Lemma status_of_exists i s st :
  status_of i s = Some st →
  ∃ log, log ∈ logs (db s) ∧ ScrapeLog.id log = i ∧ ScrapeLog.status log = st.
Proof.
  unfold status_of, first_log_by_id.
  destruct (head (filter _ _)) as [log|] eqn:Hh; [|done].
  intros [= <-]. exists log. apply head_Some_elem_of in Hh.
  apply list_elem_of_filter in Hh as [? ?]. done.
Qed.

Lemma first_log_unique i db log log' :
  NoDup (ScrapeLog.id <$> logs db) →
  first_log_by_id i db = Some log → log' ∈ logs db → ScrapeLog.id log' = i →
  log' = log.
Proof.
  unfold first_log_by_id. intros Hnd Hh Hin Hid.
  apply head_Some_elem_of, list_elem_of_filter in Hh as [Hi Hl].
  induction (logs db) as [|l ls IH]; [by apply elem_of_nil in Hin|].
  rewrite fmap_cons in Hnd. apply NoDup_cons in Hnd as [Hnotin Hnd].
  apply elem_of_cons in Hin as [->|Hin], Hl as [->|Hl]; try done.
  - exfalso. apply Hnotin. apply list_elem_of_fmap. exists log. split; [congruence|done].
  - exfalso. apply Hnotin. apply list_elem_of_fmap. exists log'. split; [congruence|done].
  - by apply IH.
Qed.

Lemma elem_of_update_logs i f db log' :
  log' ∈ logs (update_log i f db)
  ↔ ∃ log, log ∈ logs db
           ∧ log' = if bool_decide (ScrapeLog.id log = i) then f log else log.
Proof.
  unfold update_log. simpl. rewrite list_elem_of_fmap. naive_solver.
Qed.

Lemma ids_update_logs i f db :
  (∀ l, ScrapeLog.id (f l) = ScrapeLog.id l) →
  ScrapeLog.id <$> logs (update_log i f db) = ScrapeLog.id <$> logs db.
Proof.
  intros Hid. unfold update_log. simpl. rewrite <- list_fmap_compose.
  apply list_fmap_ext. intros k l _. simpl. case_bool_decide; [apply Hid|done].
Qed.

(** A task's step rewrites the log of its run and of no other. *)
Lemma registry_update (s : System) i f st st' db' w' a' :
  registry_ok s →
  (∀ l, ScrapeLog.id (f l) = ScrapeLog.id l) →
  (∀ l, ScrapeLog.status (f l) = st') →
  (∀ l, ScrapeLog.status l = st →
        (is_Some (ScrapeLog.completed_at l) ↔ terminal st = true) →
        (is_Some (ScrapeLog.completed_at (f l)) ↔ terminal st' = true)) →
  status_of i s = Some st →
  logs db' = logs (update_log i f (db s)) →
  next_log_id db' = next_log_id (db s) →
  (∀ t, t ∈ w' → t ∈ waiting s ∧ task_log_id t ≠ i) →
  (∀ t, t ∈ a' → (t ∈ active s ∧ task_log_id t ≠ i)
                 ∨ (task_log_id t = i ∧ st' = running)) →
  NoDup (task_log_id <$> (w' ++ a')) →
  registry_ok {| db := db'; waiting := w'; active := a' |}
  ∧ ∀ j, status_of j {| db := db'; waiting := w'; active := a' |}
         = if bool_decide (j = i) then Some st' else status_of j s.
Proof.
  intros (Hids & Hlt & Hw & Ha & Htasks & Hdone) Hfid Hfst Hfdone Hst Hlogs Hnext
    Hw' Ha' Hnd'.
  assert (∀ j, status_of j {| db := db'; waiting := w'; active := a' |}
               = if bool_decide (j = i) then Some st' else status_of j s) as Hmove.
  { intros j. unfold status_of, first_log_by_id at 1. simpl. rewrite Hlogs.
    case_bool_decide as Hj.
    - subst j. rewrite first_log_update_same by done.
      unfold status_of in Hst. destruct (first_log_by_id i (db s)); [|done].
      simpl. by rewrite Hfst.
    - by rewrite first_log_update_other. }
  split; [|exact Hmove].
  split_and!; simpl.
  - rewrite Hlogs, ids_update_logs; done.
  - intros log'. rewrite Hlogs, Hnext, elem_of_update_logs.
    intros (log & Hin & ->). case_bool_decide; rewrite ?Hfid; by apply Hlt.
  - intros t Ht. destruct (Hw' t Ht) as [Hin Hne].
    rewrite Hmove, bool_decide_false by done. by apply Hw.
  - intros t Ht. destruct (Ha' t Ht) as [[Hin Hne]|[-> ->]].
    + rewrite Hmove, bool_decide_false by done. by apply Ha.
    + by rewrite Hmove, bool_decide_true.
  - exact Hnd'.
  - intros log'. rewrite Hlogs, elem_of_update_logs.
    intros (log & Hin & ->). case_bool_decide as Hi; [|by apply Hdone].
    assert (ScrapeLog.status log = st) as Hs.
    { unfold status_of in Hst.
      destruct (first_log_by_id i (db s)) as [log0|] eqn:H0; [|done].
      injection Hst as <-. f_equal. by eapply first_log_unique. }
    rewrite Hfst. apply Hfdone; [done|]. rewrite <- Hs. by apply Hdone.
Qed.

Lemma registry_same_logs (s s' : System) :
  logs (db s') = logs (db s) → next_log_id (db s') = next_log_id (db s) →
  (∀ t, t ∈ waiting s' → t ∈ waiting s) → (∀ t, t ∈ active s' → t ∈ active s) →
  NoDup (task_log_id <$> (waiting s' ++ active s')) →
  registry_ok s →
  registry_ok s' ∧ ∀ j, status_of j s' = status_of j s.
Proof.
  intros Hlogs Hnext Hw' Ha' Hnd' (Hids & Hlt & Hw & Ha & Htasks & Hdone).
  assert (∀ j, status_of j s' = status_of j s) as Hsame.
  { intros j. unfold status_of, first_log_by_id. by rewrite Hlogs. }
  split; [|done]. split_and!.
  - by rewrite Hlogs.
  - rewrite Hlogs, Hnext. exact Hlt.
  - intros t Ht. rewrite Hsame. by apply Hw, Hw'.
  - intros t Ht. rewrite Hsame. by apply Ha, Ha'.
  - exact Hnd'.
  - rewrite Hlogs. exact Hdone.
Qed.

Lemma status_moves_same o : status_moves o o.
Proof. by left. Qed.

Lemma task_ids_lt (s : System) t :
  registry_ok s → t ∈ waiting s ++ active s →
  task_log_id t < next_log_id (db s).
Proof.
  intros (Hids & Hlt & Hw & Ha & _) [Ht|Ht]%elem_of_app.
  - apply Hw, status_of_exists in Ht as (log & Hin & <- & _). by apply Hlt.
  - apply Ha, status_of_exists in Ht as (log & Hin & <- & _). by apply Hlt.
Qed.

Lemma step_post autoflush s now sites keyword location :
  registry_ok s →
  let s' := step autoflush s (PostScrape now sites keyword location) in
  registry_ok s' ∧ ∀ j, status_moves (status_of j s) (status_of j s').
Proof.
  intros Hok s'. subst s'. cbn [step].
  destruct (start_scrape now sites keyword location (db s)) as [[e|[started task]] db']
    eqn:Hstart.
  { unfold start_scrape in Hstart.
    assert (db' = db s) as ->.
    { destruct (site_list_of sites); [by injection Hstart|].
      destruct (filter _ _); [|by injection Hstart].
      destruct (insert_log _ _ _ _ _). done. }
    destruct s as [d w a]. split; [done|]. intros j. apply status_moves_same. }
  assert (task_log_id task = next_log_id (db s)
          ∧ ∃ log, logs db' = logs (db s) ++ [log]
                   ∧ ScrapeLog.id log = next_log_id (db s)
                   ∧ ScrapeLog.status log = pending
                   ∧ ScrapeLog.completed_at log = None
                   ∧ next_log_id db' = S (next_log_id (db s)))
    as (Htid & log & Hlogs & Hlid & Hlst & Hlc & Hnext).
  { unfold start_scrape in Hstart.
    destruct (site_list_of sites); [done|].
    destruct (filter _ _); [|done].
    unfold insert_log in Hstart. injection Hstart as <- <- <-. simpl.
    split; [done|]. eexists. split_and!; reflexivity. }
  pose proof Hok as (Hids & Hlt & Hw & Ha & Htasks & Hdone).
  assert (∀ l, l ∈ logs (db s) → ScrapeLog.id l ≠ ScrapeLog.id log) as Hfresh.
  { intros l Hl. apply Hlt in Hl. lia. }
  assert (∀ j, status_of j {| db := db'; waiting := waiting s ++ [task];
                               active := active s |}
               = if bool_decide (j = next_log_id (db s)) then Some pending
                 else status_of j s) as Hmove.
  { intros j. unfold status_of, first_log_by_id. simpl. rewrite Hlogs.
    case_bool_decide as Hj.
    - subst j. rewrite <- Hlid, head_filter_snoc_new by done. simpl. by rewrite Hlst.
    - rewrite head_filter_snoc_other by lia. done. }
  split.
  - split_and!; simpl.
    + rewrite Hlogs, fmap_app. apply NoDup_app. split_and!; [done| |apply NoDup_singleton].
      intros i [l [-> Hl]]%list_elem_of_fmap [l' [Heq Hl']]%list_elem_of_fmap.
      apply list_elem_of_singleton in Hl' as ->. by apply (Hfresh l).
    + intros l. rewrite Hlogs, Hnext. intros [Hl|Hl]%elem_of_app.
      * apply Hlt in Hl. lia.
      * apply list_elem_of_singleton in Hl as ->. lia.
    + intros t [Ht|Ht]%elem_of_app.
      * rewrite Hmove, bool_decide_false; [by apply Hw|].
        assert (task_log_id t < next_log_id (db s)); [|lia].
        apply task_ids_lt; [done|]. apply elem_of_app. by left.
      * apply list_elem_of_singleton in Ht as ->.
        by rewrite Hmove, Htid, bool_decide_true.
    + intros t Ht. rewrite Hmove, bool_decide_false; [by apply Ha|].
      assert (task_log_id t < next_log_id (db s)); [|lia].
      apply task_ids_lt; [done|]. apply elem_of_app. by right.
    + rewrite <- app_assoc.
      assert (waiting s ++ [task] ++ active s ≡ₚ task :: (waiting s ++ active s))
        as ->.
      { symmetry. apply (Permutation_middle (waiting s) (active s) task). }
      rewrite fmap_cons. apply NoDup_cons. split; [|done].
      intros [t [Heq Ht]]%list_elem_of_fmap.
      assert (task_log_id t < next_log_id (db s)) by (by apply task_ids_lt).
      lia.
    + intros l. rewrite Hlogs. intros [Hl|Hl]%elem_of_app; [by apply Hdone|].
      apply list_elem_of_singleton in Hl as ->. rewrite Hlst, Hlc. simpl.
      split; [by intros [? ?]|done].
  - intros j. rewrite Hmove. case_bool_decide as Hj; [|apply status_moves_same].
    subst j. destruct (status_of (next_log_id (db s)) s) as [st|] eqn:Hst.
    + apply status_of_exists in Hst as (l & Hl & Hid & _). apply Hlt in Hl. lia.
    + right. by left.
Qed.

Lemma task_ids_delete (w a : list Task) k t :
  w !! k = Some t → NoDup (task_log_id <$> (w ++ a)) →
  NoDup (task_log_id <$> (delete k w ++ a))
  ∧ ∀ t', t' ∈ delete k w ++ a → t' ∈ w ++ a ∧ task_log_id t' ≠ task_log_id t.
Proof.
  intros Hk Hnd.
  assert (w ++ a ≡ₚ t :: (delete k w ++ a)) as Hperm.
  { by rewrite (delete_Permutation w k t Hk) at 1. }
  rewrite Hperm, fmap_cons in Hnd. apply NoDup_cons in Hnd as [Hnotin Hnd].
  split; [done|]. intros t' Ht'. split.
  - rewrite Hperm. by apply list_elem_of_further.
  - intros Heq. apply Hnotin. rewrite <- Heq. apply list_elem_of_fmap. eauto.
Qed.

Lemma step_begins autoflush s now k :
  registry_ok s →
  let s' := step autoflush s (TaskBegins now k) in
  registry_ok s' ∧ ∀ j, status_moves (status_of j s) (status_of j s').
Proof.
  intros Hok s'. subst s'. cbn [step].
  destruct (waiting s !! k) as [task|] eqn:Hk.
  2:{ split; [done|]. intros j. apply status_moves_same. }
  pose proof Hok as (Hids & Hlt & Hw & Ha & Htasks & Hdone).
  destruct (task_ids_delete _ (active s) _ _ Hk Htasks) as [Hnd Hothers].
  assert (status_of (task_log_id task) s = Some pending) as Hst.
  { apply Hw. by eapply list_elem_of_lookup_2. }
  destruct (run_scrape_begin now (task_log_id task) (db s)) as [db'|] eqn:Hbegin.
  2:{ unfold run_scrape_begin in Hbegin. unfold status_of in Hst.
      by destruct (first_log_by_id (task_log_id task) (db s)). }
  apply run_scrape_begin_spec in Hbegin as (_ & _ & _ & Hnext & Hlogs).
  assert (∀ l, ScrapeLog.status l = pending →
               (is_Some (ScrapeLog.completed_at l) ↔ terminal pending = true) →
               (is_Some (ScrapeLog.completed_at (set_running l))
                ↔ terminal running = true)) as H3.
  { intros l _ Hiff. simpl. split; [|done]. intros Hc. by apply Hiff in Hc. }
  assert (∀ t, t ∈ delete k (waiting s) →
               t ∈ waiting s ∧ task_log_id t ≠ task_log_id task) as H4.
  { intros t Ht. assert (t ∈ delete k (waiting s) ++ active s) as Hin by set_solver.
    destruct (Hothers t Hin) as [_ Hne]. split; [|done].
    by eapply list_elem_of_delete_inv. }
  assert (∀ t, t ∈ active s ++ [task] →
               (t ∈ active s ∧ task_log_id t ≠ task_log_id task)
               ∨ (task_log_id t = task_log_id task ∧ running = running)) as H5.
  { intros t [Ht|Ht]%elem_of_app.
    + left. split; [done|]. apply Hothers. set_solver.
    + apply list_elem_of_singleton in Ht as ->. by right. }
  assert (NoDup (task_log_id <$> (delete k (waiting s) ++ active s ++ [task])))
    as H6.
  { rewrite app_assoc, fmap_app.
    apply NoDup_app. split_and!; [done| |apply NoDup_singleton].
    intros i Hi ->%list_elem_of_singleton.
    apply list_elem_of_fmap in Hi as (t & Heq & Ht).
    destruct (Hothers t Ht) as [_ Hne]. congruence. }
  destruct (registry_update s (task_log_id task) set_running pending running db'
              (delete k (waiting s)) (active s ++ [task]) Hok
              ltac:(done) ltac:(done) H3 Hst Hlogs Hnext H4 H5 H6) as [Hok' Hmove].
  split; [done|]. intros j. rewrite Hmove. case_bool_decide as Hj.
  - subst j. rewrite Hst. right. right. by left.
  - apply status_moves_same.
Qed.

Lemma step_works autoflush s now k adapter :
  registry_ok s →
  let s' := step autoflush s (TaskWorks now k adapter) in
  registry_ok s' ∧ ∀ j, status_moves (status_of j s) (status_of j s').
Proof.
  intros Hok s'. subst s'. cbn [step].
  destruct (active s !! k) as [task|] eqn:Hk.
  2:{ split; [done|]. intros j. apply status_moves_same. }
  pose proof Hok as (Hids & Hlt & Hw & Ha & Htasks & Hdone).
  assert (NoDup (task_log_id <$> (active s ++ waiting s))) as Htasks'.
  { by rewrite (Permutation_app_comm (active s) (waiting s)). }
  destruct (task_ids_delete _ (waiting s) _ _ Hk Htasks') as [Hnd Hothers].
  assert (status_of (task_log_id task) s = Some running) as Hst.
  { apply Ha. by eapply list_elem_of_lookup_2. }
  assert (∀ t, t ∈ waiting s →
               t ∈ waiting s ∧ task_log_id t ≠ task_log_id task) as H4.
  { intros t Ht. split; [done|]. apply Hothers. set_solver. }
  assert (∀ st', st' ≠ running → ∀ t, t ∈ delete k (active s) →
               (t ∈ active s ∧ task_log_id t ≠ task_log_id task)
               ∨ (task_log_id t = task_log_id task ∧ st' = running)) as H5.
  { intros st' _ t Ht. left. split; [by eapply list_elem_of_delete_inv|].
    apply Hothers. set_solver. }
  assert (NoDup (task_log_id <$> (waiting s ++ delete k (active s)))) as H6.
  { by rewrite (Permutation_app_comm (waiting s) (delete k (active s))). }
  destruct (run_scrape_work_spec autoflush adapter now (task_log_id task)
              (task_sites task) (task_keyword task) (task_location task) (db s))
    as (new & _ & _ & _ & _ & Hnext & Hlogs).
  set (db' := run_scrape_work autoflush adapter now (task_log_id task)
                (task_sites task) (task_keyword task) (task_location task) (db s))
    in *.
  destruct Hlogs as [Hlogs|(msg & _ & Hlogs)].
  - destruct (registry_update s (task_log_id task)
                (set_completed now (length new)
                   (failures adapter (task_keyword task) (task_location task) 0
                      (task_sites task)))
                running completed db'
                (waiting s) (delete k (active s)) Hok
                ltac:(done) ltac:(done) ltac:(by intros l _ _; simpl)
                Hst Hlogs Hnext H4 (H5 completed ltac:(done)) H6) as [Hok' Hmove].
    split; [done|]. intros j. rewrite Hmove. case_bool_decide as Hj.
    + subst j. rewrite Hst. right. right. right. split; [done|]. by exists completed.
    + apply status_moves_same.
  - destruct (registry_update s (task_log_id task) (set_failed now msg)
                running failed db'
                (waiting s) (delete k (active s)) Hok
                ltac:(done) ltac:(done) ltac:(by intros l _ _; simpl)
                Hst Hlogs Hnext H4 (H5 failed ltac:(done)) H6) as [Hok' Hmove].
    split; [done|]. intros j. rewrite Hmove. case_bool_decide as Hj.
    + subst j. rewrite Hst. right. right. right. split; [done|]. by exists failed.
    + apply status_moves_same.
Qed.

Lemma step_jobs_only autoflush s e :
  (∃ now job_id, e = DeleteJob now job_id) ∨ (∃ now, e = ClearJobs now) →
  registry_ok s →
  let s' := step autoflush s e in
  registry_ok s' ∧ ∀ j, status_moves (status_of j s) (status_of j s').
Proof.
  intros He Hok s'.
  assert (logs (db s') = logs (db s) ∧ next_log_id (db s') = next_log_id (db s)
          ∧ waiting s' = waiting s ∧ active s' = active s) as (Hl & Hn & Hw & Ha).
  { subst s'. destruct He as [(now & job_id & ->)|(now & ->)]; cbn [step].
    - unfold delete_job. by destruct (head _).
    - done. }
  destruct (registry_same_logs s s' Hl Hn) as [Hok' Hsame]; try done.
  - by rewrite Hw.
  - by rewrite Ha.
  - rewrite Hw, Ha. apply Hok.
  - split; [done|]. intros j. rewrite Hsame. apply status_moves_same.
Qed.

Lemma step_registry autoflush s e :
  registry_ok s →
  registry_ok (step autoflush s e)
  ∧ ∀ j, status_moves (status_of j s) (status_of j (step autoflush s e)).
Proof.
  intros Hok. destruct e.
  - by apply step_post.
  - by apply step_begins.
  - by apply step_works.
  - apply step_jobs_only; [|done]. left. eauto.
  - apply step_jobs_only; [|done]. right. eauto.
Qed.

Lemma registry_ok_init : registry_ok init.
Proof.
  split_and!; simpl; try (intros ? Hin; by apply elem_of_nil in Hin);
    apply NoDup_nil; done.
Qed.

Lemma trace_registry autoflush events s s' :
  registry_ok s → s' ∈ trace autoflush s events → registry_ok s'.
Proof.
  revert s. induction events as [|e events IH]; intros s Hok Hin; simpl in Hin.
  - by apply list_elem_of_singleton in Hin as ->.
  - apply elem_of_cons in Hin as [->|Hin]; [done|].
    eapply IH; [|exact Hin]. by apply step_registry.
Qed.

Lemma trace_cons autoflush s events :
  ∃ rest, trace autoflush s events = s :: rest.
Proof. destruct events; simpl; eauto. Qed.

Lemma destutter_same x l : destutter (x :: x :: l) = destutter (x :: l).
Proof.
  change (destutter (x :: x :: l))
    with (if bool_decide (x = x) then destutter (x :: l) else x :: destutter (x :: l)).
  by rewrite bool_decide_true.
Qed.

Lemma destutter_other x y l : x ≠ y → destutter (x :: y :: l) = x :: destutter (y :: l).
Proof.
  intros Hne.
  change (destutter (x :: y :: l))
    with (if bool_decide (x = y) then destutter (y :: l) else x :: destutter (y :: l)).
  by rewrite bool_decide_false.
Qed.

Lemma trace_lifecycle autoflush events i :
  ∀ s, registry_ok s →
    ∃ t, terminal t = true
         ∧ destutter (omap (status_of i) (trace autoflush s events))
             `prefix_of` remaining (status_of i s) t.
Proof.
  induction events as [|e events IH]; intros s Hok.
  { exists completed. split; [done|]. simpl.
    destruct (status_of i s) as [[]|]; simpl;
      first [done | by eexists | apply prefix_nil]. }
  destruct (step_registry autoflush s e Hok) as [Hok' Hmoves].
  destruct (IH _ Hok') as (t & Ht & Hpre).
  destruct (trace_cons autoflush (step autoflush s e) events) as [rest Hrest].
  change (trace autoflush s (e :: events))
    with (s :: trace autoflush (step autoflush s e) events).
  rewrite Hrest in *. cbn [omap list_omap] in *.
  destruct (Hmoves i) as [Heq|[[Ho Ho']|[[Ho Ho']|(Ho & t' & Ht' & Ho')]]].
  - rewrite Heq in *. destruct (status_of i s) as [x|].
    + rewrite destutter_same. by exists t.
    + by exists t.
  - rewrite Ho, Ho' in *. by exists t.
  - rewrite Ho, Ho' in *. exists t. split; [done|].
    rewrite destutter_other by done. simpl in *. by apply prefix_cons.
  - rewrite Ho, Ho' in *. exists t'. split; [done|].
    rewrite destutter_other by (by destruct t'). simpl.
    apply prefix_cons. by destruct t'.
Qed.

End RunLog.

(** C4: along every sequence of events of the service, the statuses a
    run shows, repetitions aside, are a prefix of [pending], [running]
    and one final status, [completed] or [failed]: the run is created
    [pending], becomes [running] at the first commit of its task and
    reaches a final status once; and in every state each log has
    [completed_at] set exactly when its status is final. *)
Theorem run_status_lifecycle autoflush (events : list Service.Event) (log_id : nat) :
  let states := Service.trace autoflush Service.init events in
  (∃ t, Service.terminal t = true
        ∧ Service.destutter (omap (Service.status_of log_id) states)
            `prefix_of` [Models.pending; Models.running; t])
  ∧ (∀ s log, s ∈ states → log ∈ Database.logs (Service.db s) →
       is_Some (Models.ScrapeLog.completed_at log)
       ↔ Service.terminal (Models.ScrapeLog.status log) = true).
Proof.
  intros states. split.
  - destruct (trace_lifecycle autoflush events log_id Service.init registry_ok_init)
      as (t & Ht & Hpre).
    by exists t.
  - intros s log Hs Hlog.
    pose proof (trace_registry autoflush events _ s registry_ok_init Hs)
      as (_ & _ & _ & _ & _ & Hdone).
    by apply Hdone.
Qed.

(** ** One row per link *)
Section OneRowPerLink.
Import Models Database Backend Service Reference.

Lemma links_to_rows now n l : links (to_rows now n l) = Base.apply_link <$> l.
Proof.
  revert n. induction l as [|job l IH]; intros n; [done|].
  cbn [to_rows]. unfold links in *. rewrite !fmap_cons. by rewrite IH.
Qed.

Lemma links_rows now db :
  links (rows now db) = links (jobs db) ++ (Base.apply_link <$> added db).
Proof. unfold rows, flush. cbn [jobs]. by rewrite links_app, links_to_rows. Qed.

(** What the query of the loop answers, and what it leaves of the
    session. *)
Lemma first_job_by_link_seen autoflush now link db :
  let '(existing, db1) := first_job_by_link autoflush now link db in
  rows now db1 = rows now db
  ∧ (∀ l, l ∈ links (jobs db) → l ∈ links (jobs db1))
  ∧ (autoflush = false → db1 = db)
  ∧ (autoflush = true → jobs db1 = rows now db)
  ∧ match existing with
    | Some _ => True
    | None => link ∉ links (jobs db1)
    end.
Proof.
  unfold first_job_by_link.
  pose proof (head_filter_link link (jobs (if autoflush then flush now db else db)))
    as Hh.
  assert (∀ l, l ∈ links (jobs db)
               → l ∈ links (jobs (if autoflush then flush now db else db))) as Hsub.
  { intros l Hl. destruct autoflush; [|done].
    change (jobs (flush now db)) with (rows now db).
    rewrite links_rows. apply elem_of_app. by left. }
  split_and!.
  - destruct autoflush; [apply rows_flush|done].
  - done.
  - by intros ->.
  - by intros ->.
  - by destruct (head _).
Qed.

Lemma add_jobs_links autoflush now offers db total db' total' :
  add_jobs autoflush now offers db total = (db', total') →
  ∃ new,
    rows now db' = rows now db ++ new
    ∧ Forall (fun row => Job.apply_link row ∉ links (jobs db)) new
    ∧ (autoflush = true
       ∨ NoDup (Base.apply_link <$> offers)
         ∧ (∀ job, job ∈ offers →
                   Base.apply_link job ∉ (Base.apply_link <$> added db)) →
       NoDup (links (rows now db)) → NoDup (links (rows now db'))).
Proof.
  revert db total. induction offers as [|job rest IH]; intros db total Hrun.
  { simpl in Hrun. injection Hrun as <- <-. exists []. rewrite app_nil_r.
    split_and!; auto. }
  cbn [add_jobs] in Hrun.
  pose proof (first_job_by_link_seen autoflush now (Base.apply_link job) db) as Hq.
  destruct (first_job_by_link autoflush now (Base.apply_link job) db)
    as [existing db1].
  destruct Hq as (Hrows & Hsub & Hoff & Hon & Hex).
  assert (∀ new, Forall (fun row => Job.apply_link row ∉ links (jobs db1)) new →
                 Forall (fun row => Job.apply_link row ∉ links (jobs db)) new)
    as Hless.
  { intros new Hnew. eapply Forall_impl; [exact Hnew|].
    intros row Hrow Hin. by apply Hrow, Hsub. }
  assert (autoflush = true
          ∨ NoDup (Base.apply_link <$> job :: rest)
            ∧ (∀ j, j ∈ job :: rest →
                    Base.apply_link j ∉ (Base.apply_link <$> added db)) →
          autoflush = true
          ∨ (db1 = db ∧ (Base.apply_link job ∉ (Base.apply_link <$> rest))
             ∧ (Base.apply_link job ∉ (Base.apply_link <$> added db)))
            ∧ NoDup (Base.apply_link <$> rest)
            ∧ (∀ j, j ∈ rest →
                    Base.apply_link j ∉ (Base.apply_link <$> added db))) as Hcase.
  { intros [->|[Hnd Hfresh]]; [by left|].
    rewrite fmap_cons in Hnd. apply NoDup_cons in Hnd as [Hjob Hnd].
    destruct autoflush; [by left|right].
    split_and!; [by apply Hoff|done| |done|].
    - apply Hfresh, list_elem_of_here.
    - intros j Hj. by apply Hfresh, list_elem_of_further. }
  destruct existing as [row|].
  - apply IH in Hrun as (new & Hr & Hfresh & Hnd).
    exists new. split_and!.
    + by rewrite Hr, Hrows.
    + by apply Hless.
    + intros Hhow Hnd0. rewrite <- Hrows in Hnd0.
      apply Hnd; [|done].
      destruct (Hcase Hhow) as [->|((-> & _ & _) & Hnd1 & Hfresh1)]; [by left|].
      by right.
  - apply IH in Hrun as (new & Hr & Hfresh & Hnd).
    rewrite rows_add, Hrows in Hr.
    exists (to_row now (next_job_id db1 + length (added db1)) job :: new).
    split_and!.
    + by rewrite Hr, <- app_assoc.
    + constructor; [|by apply Hless]. cbn [to_row Job.apply_link].
      intros Hin. by apply Hex, Hsub.
    + intros Hhow Hnd0. apply Hnd.
      * destruct (Hcase Hhow) as [->|((-> & Hjob & _) & Hnd1 & Hfresh1)];
          [by left|right].
        split; [done|]. intros j Hj. cbn [add added]. rewrite fmap_app.
        intros [Hin|Hin%list_elem_of_singleton]%elem_of_app.
        -- by apply (Hfresh1 j).
        -- apply Hjob. rewrite <- Hin. by apply list_elem_of_fmap_2.
      * rewrite rows_add, Hrows, links_app. apply NoDup_app.
        split_and!; [done| |apply NoDup_singleton].
        intros link Hin ->%list_elem_of_singleton.
        cbn [to_row Job.apply_link] in Hin.
        destruct (Hcase Hhow) as [Haf|((-> & _ & Hjob) & _)].
        -- apply Hex. by rewrite (Hon Haf).
        -- rewrite links_rows in Hin.
           apply elem_of_app in Hin as [Hin|Hin]; [by apply Hex|done].
Qed.

Lemma sites_loop_links autoflush adapter now sites keyword location :
  ∀ k db total errors,
    added db = [] →
    let db' := loop_session (sites_loop autoflush adapter now k sites keyword
                               location db total errors) in
    ∃ new,
      jobs db' = jobs db ++ new ∧ added db' = []
      ∧ Forall (fun row => Job.apply_link row ∉ links (jobs db)) new
      ∧ (autoflush = true ∨ distinct_batches adapter →
         NoDup (links (jobs db)) → NoDup (links (jobs db'))).
Proof.
  induction sites as [|site_name rest IH]; intros k db total errors Ha.
  { exists []. simpl. rewrite app_nil_r. split_and!; auto. }
  cbn [sites_loop].
  destruct (PyDict.get SCRAPERS site_name) as [scraper_class|]; [|by apply IH].
  destruct (adapter k scraper_class keyword location) as [msg|msg|offers] eqn:Hout.
  - exists []. simpl. rewrite app_nil_r. split_and!; auto.
  - by apply IH.
  - destruct (add_jobs autoflush now offers db total) as [db1 total1] eqn:Hadd.
    apply add_jobs_links in Hadd as (new1 & Hr1 & Hfresh1 & Hnd1).
    rewrite (rows_no_added now db Ha) in Hr1, Hnd1.
    destruct (IH (S k) (commit now db1) total1 errors eq_refl)
      as (new & Hjobs & Ha' & Hfresh & Hnd).
    change (jobs (commit now db1)) with (rows now db1) in Hjobs, Hfresh, Hnd.
    exists (new1 ++ new). split_and!.
    + by rewrite Hjobs, Hr1, app_assoc.
    + done.
    + apply Forall_app. split; [done|].
      eapply Forall_impl; [exact Hfresh|]. intros row Hrow Hin. apply Hrow.
      rewrite Hr1, links_app. apply elem_of_app. by left.
    + intros Hhow Hnd0. apply Hnd; [done|]. apply Hnd1; [|done].
      destruct Hhow as [->|Hdistinct]; [by left|right].
      split; [by eapply Hdistinct|]. intros job _. rewrite Ha.
      apply not_elem_of_nil.
Qed.

Lemma run_scrape_work_links autoflush adapter now log_id sites keyword location db :
  added db = [] →
  let db' := run_scrape_work autoflush adapter now log_id sites keyword location db in
  ∃ new,
    jobs db' = jobs db ++ new ∧ added db' = []
    ∧ Forall (fun row => Job.apply_link row ∉ links (jobs db)) new
    ∧ (autoflush = true ∨ distinct_batches adapter →
       NoDup (links (jobs db)) → NoDup (links (jobs db'))).
Proof.
  intros Ha db'. subst db'. unfold run_scrape_work.
  destruct (sites_loop_links autoflush adapter now sites keyword location 0 db 0 []
              Ha) as (new & Hjobs & Ha' & Hfresh & Hnd).
  exists new.
  destruct (sites_loop _ _ _ _ _ _ _ _ _ _) as [[[db1 total] errors]|[db1 msg]];
    cbn [loop_session] in *;
    (split_and!; [|done|done|]);
    unfold commit, flush, update_log; cbn [jobs added]; rewrite Ha';
    cbn [to_rows]; rewrite app_nil_r; done.
Qed.

Lemma links_filter_NoDup (P : Job.t → Prop) `{∀ j, Decision (P j)} l :
  NoDup (links l) → NoDup (links (filter P l)).
Proof.
  unfold links. induction l as [|j l IH]; [done|].
  rewrite fmap_cons, NoDup_cons. intros [Hj Hl].
  rewrite filter_cons. destruct (decide (P j)); [|by apply IH].
  rewrite fmap_cons. apply NoDup_cons. split; [|by apply IH].
  intros [j' [Heq Hin]]%list_elem_of_fmap. apply Hj.
  apply list_elem_of_fmap. exists j'. split; [done|].
  by apply list_elem_of_filter in Hin as [_ ?].
Qed.

Lemma step_links autoflush s e :
  autoflush = true ∨ distinct_event e →
  added (db s) = [] → NoDup (links (jobs (db s))) →
  added (db (step autoflush s e)) = []
  ∧ NoDup (links (jobs (db (step autoflush s e)))).
Proof.
  intros Hhow Hadded Hnd. destruct e as [now sites keyword location|now k
                                         |now k adapter|now job_id|now]; cbn [step].
  - destruct (start_scrape now sites keyword location (db s))
      as [[e|[started task]] db'] eqn:Hstart; simpl.
    + unfold start_scrape in Hstart.
      assert (db' = db s) as ->; [|done].
      destruct (site_list_of sites); [by injection Hstart|].
      destruct (filter _ _); [|by injection Hstart].
      destruct (insert_log _ _ _ _ _). done.
    + unfold start_scrape in Hstart.
      destruct (site_list_of sites); [done|].
      destruct (filter _ _); [|done].
      unfold insert_log in Hstart. injection Hstart as <- <- <-. simpl.
      rewrite Hadded. simpl. by rewrite app_nil_r.
  - destruct (waiting s !! k) as [task|]; [|done].
    destruct (run_scrape_begin now (task_log_id task) (db s)) as [db'|] eqn:Hb;
      [|done].
    apply run_scrape_begin_spec in Hb as (_ & Hjobs & Ha & _). simpl.
    rewrite Hjobs, rows_no_added by done. done.
  - destruct (active s !! k) as [task|]; [|done]. simpl.
    destruct (run_scrape_work_links autoflush adapter now (task_log_id task)
                (task_sites task) (task_keyword task) (task_location task) (db s)
                Hadded) as (new & _ & Ha & _ & Hnd').
    split; [done|]. by apply Hnd'.
  - cbn [db]. unfold delete_job. destruct (head _); cbn [snd]; [|done].
    unfold delete_job_row, flush. cbn [jobs added].
    rewrite Hadded. split; [done|]. cbn [to_rows]. rewrite app_nil_r.
    by apply links_filter_NoDup.
  - cbn [db]. unfold clear_jobs, delete_all_jobs. cbn [snd jobs added flush].
    split; [done|]. apply NoDup_nil. done.
Qed.

Lemma run_links autoflush events s :
  autoflush = true ∨ Forall distinct_event events →
  added (db s) = [] → NoDup (links (jobs (db s))) →
  added (db (run autoflush s events)) = []
  ∧ NoDup (links (jobs (db (run autoflush s events)))).
Proof.
  revert s. induction events as [|e events IH]; intros s Hhow Ha Hnd; [done|].
  simpl.
  destruct (step_links autoflush s e) as [Ha' Hnd']; [|done|done|].
  { destruct Hhow as [->|[He _]%Forall_cons]; [by left|by right]. }
  apply IH; [|done|done].
  destruct Hhow as [->|[_ Hrest]%Forall_cons]; [by left|by right].
Qed.

Lemma run_scrape_rows autoflush adapter now log_id sites keyword location db :
  added db = [] →
  let db' := run_scrape autoflush adapter now log_id sites keyword location db in
  ∃ new,
    jobs db' = jobs db ++ new
    ∧ Forall (copied_from adapter keyword location now 0 sites) new
    ∧ Forall (fun row => Job.apply_link row ∉ links (jobs db)) new
    ∧ (autoflush = true ∨ distinct_batches adapter →
       NoDup (links (jobs db)) → NoDup (links (jobs db ++ new)))
    ∧ (∀ log', first_log_by_id log_id db' = Some log' →
               ScrapeLog.status log' = completed →
               ScrapeLog.jobs_found log' = length new).
Proof.
  intros Ha db'. subst db'. unfold run_scrape.
  destruct (run_scrape_begin now log_id db) as [db1|] eqn:Hb.
  2:{ exists []. rewrite app_nil_r. split_and!; try done.
      unfold run_scrape_begin in Hb. destruct (first_log_by_id log_id db); done. }
  apply run_scrape_begin_spec in Hb as ([log Hlog] & Hjobs1 & Ha1 & _ & Hlogs1).
  rewrite rows_no_added in Hjobs1 by done.
  destruct (run_scrape_work_spec autoflush adapter now log_id sites keyword location
              db1) as (new & Hjobs & _ & Hfrom & _ & _ & Hlogs).
  destruct (run_scrape_work_links autoflush adapter now log_id sites keyword
              location db1 Ha1) as (new' & Hjobs' & _ & Hfresh & Hnd).
  rewrite rows_no_added in Hjobs by done.
  assert (new' = new) as ->.
  { apply (app_inv_head (jobs db1)). by rewrite <- Hjobs, <- Hjobs'. }
  rewrite Hjobs1 in Hjobs, Hfresh, Hnd.
  exists new. split_and!; try done.
  - intros Hhow Hnd0. rewrite <- Hjobs. by apply Hnd.
  - assert (first_log_by_id log_id db1 = Some (set_running log)) as Hlog1.
    { unfold first_log_by_id at 1. rewrite Hlogs1.
      rewrite first_log_update_same by done. by rewrite Hlog. }
    intros log'. unfold first_log_by_id at 1.
    destruct Hlogs as [->|(msg & _ & ->)];
      rewrite first_log_update_same, Hlog1 by done; intros [= <-]; done.
Qed.

End OneRowPerLink.

(** ** Runs that work at the same time *)
Section OverlappingRuns.
Import Models Database Backend Reference.

Lemma play_cons autoflush s turn schedule :
  Overlap.play autoflush s (turn :: schedule)
  = Overlap.play autoflush (Overlap.step autoflush s turn) schedule.
Proof. reflexivity. Qed.

Lemma step_alone autoflush now table sequence w :
  Overlap.step autoflush
    {| Overlap.table := table; Overlap.sequence := sequence;
       Overlap.workers := [w] |} (0, now)
  = let '(table', sequence', w') := Overlap.call autoflush now table sequence w in
    {| Overlap.table := table'; Overlap.sequence := sequence';
       Overlap.workers := [w'] |}.
Proof.
  unfold Overlap.step. cbn [Overlap.workers Overlap.table Overlap.sequence fst snd
                            lookup list_lookup].
  by destruct (Overlap.call _ _ _ _ _) as [[? ?] ?].
Qed.

(** One run on the table, call by call, does what the loop of
    [run_scrape] over the offers of a site and the commit after it
    do. *)
Lemma play_alone autoflush now offers :
  ∀ db total table sequence session,
    rows now db = table ++ to_rows now sequence session →
    next_job_id db + length (added db) = sequence + length session →
    (autoflush = false → jobs db = table) →
    Overlap.play autoflush
      {| Overlap.table := table; Overlap.sequence := sequence;
         Overlap.workers := [ {| Overlap.offers := offers;
                                 Overlap.session := session;
                                 Overlap.total_jobs := total |} ] |}
      (replicate (S (length offers)) (0, now))
    = let '(db', total') := add_jobs autoflush now offers db total in
      {| Overlap.table := jobs (commit now db');
         Overlap.sequence := next_job_id (commit now db');
         Overlap.workers := [ {| Overlap.offers := [];
                                 Overlap.session := [];
                                 Overlap.total_jobs := total' |} ] |}.
Proof.
  induction offers as [|job rest IH];
    intros db total table sequence session Hrows Hnext Hoff.
  { cbn. change (jobs db ++ to_rows now (next_job_id db) (added db))
      with (rows now db). by rewrite Hrows, Hnext. }
  change (replicate (S (length (job :: rest))) (0, now))
    with ((0, now) :: replicate (S (length rest)) (0, now)).
  rewrite play_cons, step_alone. cbn [add_jobs].
  unfold Overlap.call. cbn [Overlap.offers Overlap.session Overlap.total_jobs].
  pose proof (first_job_by_link_seen autoflush now (Base.apply_link job) db) as Hq.
  pose proof (head_filter_link (Base.apply_link job)
                (jobs (first_job_by_link autoflush now (Base.apply_link job) db).2))
    as Hh.
  assert ((first_job_by_link autoflush now (Base.apply_link job) db).1
          = head (filter (fun j => Job.apply_link j = Base.apply_link job)
                    (jobs (first_job_by_link autoflush now (Base.apply_link job)
                             db).2))) as Hex by done.
  assert (next_job_id (first_job_by_link autoflush now (Base.apply_link job) db).2
          + length (added (first_job_by_link autoflush now (Base.apply_link job)
                             db).2)
          = next_job_id db + length (added db)) as Hnext1.
  { unfold first_job_by_link. destruct autoflush; cbn; lia. }
  destruct (first_job_by_link autoflush now (Base.apply_link job) db)
    as [existing db1].
  cbn [fst snd] in *. rewrite <- Hex in Hh. clear Hex.
  destruct Hq as (Hrows1 & _ & Hoff1 & Hon1 & _).
  assert (links (jobs db1)
          = Overlap.seen autoflush table
              {| Overlap.offers := job :: rest; Overlap.session := session;
                 Overlap.total_jobs := total |}) as Hseen.
  { unfold Overlap.seen. cbn [Overlap.session]. destruct autoflush.
    - rewrite Hon1, Hrows, links_app, links_to_rows by done. done.
    - rewrite Hoff1, Hoff, app_nil_r by done. done. }
  assert (autoflush = false → jobs db1 = table) as Hoff'.
  { intros Haf. rewrite Hoff1 by done. by apply Hoff. }
  rewrite <- Hseen.
  destruct existing as [row|].
  - rewrite bool_decide_true by done.
    apply IH; [by rewrite Hrows1|lia|done].
  - rewrite bool_decide_false by done.
    apply IH.
    + by rewrite rows_add, Hrows1, Hrows, to_rows_app, <- app_assoc, Hnext1, Hnext.
    + cbn [add next_job_id added]. rewrite !length_app. simpl. lia.
    + done.
Qed.

(** A run alone on the table stores what [run_scrape] stores for one
    site, and counts the same. *)
Lemma alone_add_jobs autoflush now offers db :
  added db = [] →
  Overlap.alone autoflush now (jobs db) (next_job_id db) offers
  = let '(db', total) := add_jobs autoflush now offers db 0 in
    {| Overlap.table := jobs (commit now db');
       Overlap.sequence := next_job_id (commit now db');
       Overlap.workers := [ {| Overlap.offers := [];
                               Overlap.session := [];
                               Overlap.total_jobs := total |} ] |}.
Proof.
  intros Ha. unfold Overlap.alone. apply play_alone.
  - rewrite rows_no_added by done. cbn [to_rows]. by rewrite app_nil_r.
  - rewrite Ha. simpl. lia.
  - done.
Qed.

End OverlappingRuns.

(** Where the table comes to hold two rows with one link.  Two runs
    at work at the same time have each the same new offer from their
    scrapers: each queries before the other commits and finds no row,
    each adds and counts the offer, and after the two commits the table
    holds it twice, whether the sessions flush before they query or
    not; the table declares no uniqueness that would refuse the second
    row.  And with a session that does not flush before it queries, one
    run alone stores twice the link its scraper returned twice in one
    batch. *)
Lemma sink_two_records_per_link_cex :
  Reference.links
    (Overlap.table
       (Overlap.play true Reference.example_overlap Reference.example_schedule))
    = [ "https://es.indeed.com/job/2"; "https://es.indeed.com/job/2" ]
  ∧ Reference.links
      (Overlap.table
         (Overlap.play false Reference.example_overlap Reference.example_schedule))
    = [ "https://es.indeed.com/job/2"; "https://es.indeed.com/job/2" ]
  ∧ Overlap.total_jobs
      <$> Overlap.workers
            (Overlap.play true Reference.example_overlap Reference.example_schedule)
    = [1; 1]
  ∧ Reference.links
      (Database.jobs (Service.db (Service.run false Service.init
                                    Reference.example_events)))
    = [ "https://es.indeed.com/job/1"; "https://es.indeed.com/job/1";
        "https://es.indeed.com/job/2" ].
Proof. split_and!; vm_compute; reflexivity. Qed.

(** C1 (amended): when the runs work one after the other, and the
    session flushes before it queries or no scraper returns one link
    twice in a batch, the [jobs] table never holds two rows with one
    [apply_link], whatever requests and runs the service has seen.  And
    every run, whatever the session does, adds after the rows already
    stored only rows copied from offers its scrapers returned, none
    with a link that a stored row has: such an offer is dropped, and a
    completed run's [jobs_found] is the number of rows it added; under
    the same condition on the session or the scrapers, the rows it adds
    bring no link twice into a table that had none twice. *)
Theorem sink_one_record_per_link :
  (∀ autoflush events,
     autoflush = true ∨ Forall Reference.distinct_event events →
     NoDup (Reference.links
              (Database.jobs
                 (Service.db (Service.run autoflush Service.init events)))))
  ∧ (∀ autoflush adapter now log_id sites keyword location db,
       Database.added db = [] →
       let db' :=
         Backend.run_scrape autoflush adapter now log_id sites keyword location db in
       ∃ new,
         Database.jobs db' = Database.jobs db ++ new
         ∧ Forall (Reference.copied_from adapter keyword location now 0 sites) new
         ∧ Forall (fun row => Models.Job.apply_link row
                              ∉ Reference.links (Database.jobs db)) new
         ∧ (autoflush = true ∨ Reference.distinct_batches adapter →
            NoDup (Reference.links (Database.jobs db)) →
            NoDup (Reference.links (Database.jobs db ++ new)))
         ∧ (∀ log', Database.first_log_by_id log_id db' = Some log' →
                    Models.ScrapeLog.status log' = Models.completed →
                    Models.ScrapeLog.jobs_found log' = length new)).
Proof.
  split.
  - intros autoflush events Hhow. apply run_links; [done|done|].
    apply NoDup_nil. done.
  - apply run_scrape_rows.
Qed.

Lemma sink_one_record_per_link_witness :
  NoDup (Reference.links
           (Database.jobs
              (Backend.run_scrape true Reference.example_adapter 120 1
                 ["remoteok"; "indeed"] "python" "" Reference.example_log_db)))
  ∧ NoDup (Reference.links
             (Database.jobs
                (Service.db
                   (Service.run false Service.init
                      [ Service.PostScrape 100 "remoteok" "python" "";
                        Service.TaskBegins 110 0;
                        Service.TaskWorks 120 0 Reference.untagged_adapter;
                        Service.PostScrape 200 "remoteok" "python" "";
                        Service.TaskBegins 210 0;
                        Service.TaskWorks 220 0 Reference.untagged_adapter ])))).
Proof.
  split.
  - destruct (proj2 sink_one_record_per_link true Reference.example_adapter 120 1
                ["remoteok"; "indeed"] "python" "" Reference.example_log_db
                eq_refl)
      as (new & Hjobs & _ & _ & Hnd & _).
    rewrite Hjobs. apply Hnd; [by left|]. apply NoDup_nil. done.
  - apply (proj1 sink_one_record_per_link false). right.
    assert (Reference.distinct_batches Reference.untagged_adapter) as Hdistinct.
    { intros k scraper_class keyword location offers [= <-]. apply NoDup_singleton. }
    repeat constructor; exact Hdistinct.
Defined.

Lemma run_status_lifecycle_witness :
  Service.destutter
    (omap (Service.status_of 1)
       (Service.trace true Service.init Reference.example_events))
  = [Models.pending; Models.running; Models.completed]
  ∧ (is_Some (Some 120) ↔ Service.terminal Models.completed = true).
Proof.
  split; [vm_compute; reflexivity|].
  eapply (proj2 (run_status_lifecycle true Reference.example_events 1)
            (Service.run true Service.init Reference.example_events)
            {| Models.ScrapeLog.id := 1;
               Models.ScrapeLog.keyword := "python";
               Models.ScrapeLog.location := "";
               Models.ScrapeLog.sites := "remoteok,indeed";
               Models.ScrapeLog.jobs_found := 2;
               Models.ScrapeLog.status := Models.completed;
               Models.ScrapeLog.started_at := 100;
               Models.ScrapeLog.completed_at := Some 120;
               Models.ScrapeLog.error_message :=
                 Some "remoteok: connection refused" |}).
  - apply list_elem_of_lookup. exists 6. vm_compute. reflexivity.
  - apply list_elem_of_lookup. exists 0. vm_compute. reflexivity.
Defined.

(** ** The source of an offer *)
Section SourceField.
Import Config Base Reference.

Lemma remoteok_extract_source config item job :
  RemoteOK._extract_job config item = Some job → source job = NA.
Proof.
  unfold RemoteOK._extract_job.
  destruct (negb (PyStr.truthy (default "" (RemoteOK.position item)))); [done|].
  by intros [= <-].
Qed.

Lemma remoteok_parse_source config data keyword job :
  job ∈ RemoteOK._parse_api_response config data keyword → source job = NA.
Proof.
  rewrite parse_api_response_filter.
  intros Hin. apply subseteq_take, list_elem_of_filter in Hin as [_ Hin].
  apply list_elem_of_omap in Hin as (item & _ & Hjob).
  by eapply remoteok_extract_source.
Qed.

Context `{Markup Node} `{Network} `{Urllib}.

Lemma linkedin_extract_source config (card : Node) job :
  LinkedIn._extract_job config card = Some job → source job = NA.
Proof.
  unfold LinkedIn._extract_job. repeat case_match; try done; by intros [= <-].
Qed.

Lemma indeed_extract_source config (card : Node) job :
  Indeed._extract_job config card = Some job → source job = NA.
Proof.
  unfold Indeed._extract_job. repeat case_match; try done; by intros [= <-].
Qed.

Lemma infojobs_extract_source config (card : Node) job :
  InfoJobs._extract_job config card = Some job → source job = NA.
Proof.
  unfold InfoJobs._extract_job. repeat case_match; try done; by intros [= <-].
Qed.

Lemma tecnoempleo_extract_source config (link : Node) href job :
  Tecnoempleo._extract_job_from_link config link href = Some job → source job = NA.
Proof.
  unfold Tecnoempleo._extract_job_from_link.
  repeat case_match; try done; by intros [= <-].
Qed.

Lemma tecnoempleo_harvest_source config (links : list Node) seen jobs :
  Forall (fun job => source job = NA) jobs →
  Forall (fun job => source job = NA) (Tecnoempleo.harvest config links seen jobs).
Proof.
  revert seen jobs. induction links as [|link rest IH]; intros seen jobs Hjobs; [done|].
  cbn [Tecnoempleo.harvest].
  repeat case_match; try (by apply IH).
  all: apply IH; apply Forall_app; split; [done|]; apply Forall_singleton;
    by eapply tecnoempleo_extract_source.
Qed.

Lemma omap_source {A} (f : A → option JobOffer) l :
  (∀ x job, f x = Some job → source job = NA) →
  Forall (fun job => source job = NA) (omap f l).
Proof.
  intros Hf. apply Forall_forall. intros job (x & _ & Hx)%list_elem_of_omap. eauto.
Qed.

Lemma scrape_source (self : Scraper) keyword location job :
  job ∈ scrape self keyword location → source job = name (config self).
Proof.
  unfold scrape. repeat case_match; try (by intros ?%elem_of_nil).
  by intros (j & -> & _)%list_elem_of_fmap.
Qed.

Lemma scrape_tags_parsed (self : Scraper) keyword location :
  scrape self keyword location = []
  ∨ ∃ html, scrape self keyword location
            = set_source (name (config self)) <$> parse_job_listings self html.
Proof. unfold scrape. repeat case_match; eauto. Qed.

End SourceField.

Lemma run_scrape_copies autoflush adapter now log_id sites keyword location db :
  Database.added db = [] →
  ∃ new,
    Database.jobs
      (Backend.run_scrape autoflush adapter now log_id sites keyword location db)
    = Database.jobs db ++ new
    ∧ Forall (Reference.copied_from adapter keyword location now 0 sites) new.
Proof.
  intros Ha. unfold Backend.run_scrape.
  destruct (Backend.run_scrape_begin now log_id db) as [db1|] eqn:Hb.
  2:{ exists []. by rewrite app_nil_r. }
  apply run_scrape_begin_spec in Hb as (_ & Hjobs1 & Ha1 & _).
  rewrite rows_no_added in Hjobs1 by done.
  destruct (run_scrape_work_spec autoflush adapter now log_id sites keyword
              location db1) as (new & Hjobs & _ & Hfrom & _).
  rewrite rows_no_added, Hjobs1 in Hjobs by done. by exists new.
Qed.

(** The source is set before the coordinator sees the offer, and the
    coordinator does not set it: RemoteOK's [scrape] returns its offer
    tagged "RemoteOK", and an offer handed over untagged is stored with
    the default "N/A". *)
Lemma source_set_by_coordinator_cex :
  Base.source <$> RemoteOK.scrape Reference.example_config
                    (Some Reference.example_feed) "python" ""
    = ["RemoteOK"]
  ∧ Models.Job.source
      <$> Database.jobs
            (Backend.run_scrape true Reference.untagged_adapter 120 1 ["remoteok"]
               "python" "" Reference.example_log_db)
    = ["N/A"].
Proof. split; vm_compute; reflexivity. Qed.

(** C9 (amended): the source of an offer is set by the adapter's own
    [scrape], after extraction: every offer [scrape] returns carries
    the adapter's display name, while the per-entry and per-page
    extraction of every adapter leaves the source at its default
    "N/A"; the run coordinator does not set it and stores, for each
    row it adds, the source of the offer it was handed. *)
Theorem source_set_by_scrape :
  (∀ (net : Base.Network) (self : Base.Scraper) keyword location job,
     job ∈ Base.scrape self keyword location →
     Base.source job = Config.name (Base.config self))
  ∧ (∀ (net : Base.Network) (self : Base.Scraper) keyword location,
       Base.scrape self keyword location = []
       ∨ ∃ html,
           Base.scrape self keyword location
           = Base.set_source (Config.name (Base.config self))
               <$> Base.parse_job_listings self html)
  ∧ (∀ config response keyword location job,
       job ∈ RemoteOK.scrape config response keyword location →
       Base.source job = Config.name config)
  ∧ (∀ config item job,
       RemoteOK._extract_job config item = Some job → Base.source job = Base.NA)
  ∧ (∀ config data keyword job,
       job ∈ RemoteOK._parse_api_response config data keyword →
       Base.source job = Base.NA)
  ∧ (∀ Node (M : Base.Markup Node) (U : Base.Urllib) config html job,
       job ∈ LinkedIn.parse_job_listings config html
       ∨ job ∈ Indeed.parse_job_listings config html
       ∨ job ∈ InfoJobs.parse_job_listings config html
       ∨ job ∈ Tecnoempleo.parse_job_listings config html →
       Base.source job = Base.NA)
  ∧ (∀ autoflush adapter now log_id sites keyword location db,
       Database.added db = [] →
       ∃ new,
         Database.jobs
           (Backend.run_scrape autoflush adapter now log_id sites keyword
              location db)
         = Database.jobs db ++ new
         ∧ Forall (fun row =>
             ∃ i site_name scraper_class offers job,
               sites !! i = Some site_name
               ∧ PyDict.get Backend.SCRAPERS site_name = Some scraper_class
               ∧ adapter i scraper_class keyword location = Backend.Scraped offers
               ∧ job ∈ offers
               ∧ Models.Job.source row = Base.source job) new).
Proof.
  split_and!.
  - intros net self keyword location job. apply scrape_source.
  - intros net self keyword location. apply scrape_tags_parsed.
  - intros config [data|] keyword location job; simpl.
    + by intros (j & -> & _)%list_elem_of_fmap.
    + by intros ?%elem_of_nil.
  - apply remoteok_extract_source.
  - apply remoteok_parse_source.
  - intros Node M U config html job [Hin|[Hin|[Hin|Hin]]].
    + apply list_elem_of_omap in Hin as (card & _ & Hjob).
      by eapply linkedin_extract_source.
    + apply list_elem_of_omap in Hin as (card & _ & Hjob).
      by eapply indeed_extract_source.
    + apply list_elem_of_omap in Hin as (card & _ & Hjob).
      by eapply infojobs_extract_source.
    + apply subseteq_take in Hin.
      by eapply (proj1 (Forall_forall _ _)
                   (tecnoempleo_harvest_source config _ [] [] (Forall_nil_2 _))).
  - intros autoflush adapter now log_id sites keyword location db Ha.
    destruct (run_scrape_copies autoflush adapter now log_id sites keyword
                location db Ha) as (new & Hjobs & Hfrom).
    exists new. split; [done|]. eapply Forall_impl; [exact Hfrom|].
    intros row (i & s & c & offers & job & Hi & Hc & Hout & Hj & ->).
    exists i, s, c, offers, job. by split_and!.
Qed.

Lemma source_set_by_scrape_witness :
  Base.source
    {| Base.job_title := "Data Engineer"; Base.company := "Globex";
       Base.tags := "N/A";
       Base.apply_link := "https://www.linkedin.com/jobs/view/2";
       Base.location := "Remote"; Base.salary := "N/A";
       Base.source := "LinkedIn" |}
  = "LinkedIn".
Proof.
  apply (proj1 source_set_by_scrape Fixture.network
           (@LinkedIn.scraper _ (Fixture.markup (fun _ => Fixture.page))
              Fixture.network Fixture.urllib Fixture.linkedin_config)
           "python" "Madrid").
  apply list_elem_of_lookup. exists 1. vm_compute. reflexivity.
Defined.

(** ** The string methods on examples *)

Example strip_example : PyStr.strip "  python , " = "python ,".
Proof. vm_compute. reflexivity. Qed.

Example split_example : PyStr.split ","%char "a,,b," = ["a"; ""; "b"; ""].
Proof. vm_compute. reflexivity. Qed.

Example split_empty_example : PyStr.split ","%char "" = [""].
Proof. vm_compute. reflexivity. Qed.

Example format_comma_example :
  PyStr.format_comma 1234567 = "1,234,567"
  ∧ PyStr.format_comma (-1000) = "-1,000"
  ∧ PyStr.format_comma 0 = "0"
  ∧ PyStr.format_comma 999 = "999".
Proof. vm_compute. auto. Qed.

Example lower_example :
  PyStr.lower "RemoteOK" = "remoteok" ∧ PyStr.capitalize "madrid" = "Madrid".
Proof. vm_compute. auto. Qed.

Example replace_example :
  PyStr.replace_empty "https://www.tecnoempleo.com"
    "https://www.tecnoempleo.com/desarrollador-python-madrid-123456"
  = "/desarrollador-python-madrid-123456".
Proof. vm_compute. reflexivity. Qed.

(** The service on the example events: the first run stores two rows
    and records the failed site, the second finds nothing new. *)
Example service_example :
  Reference.links
    (Database.jobs (Service.db (Service.run true Service.init
                                  Reference.example_events)))
  = ["https://es.indeed.com/job/1"; "https://es.indeed.com/job/2"]
  ∧ (fun log => (Models.ScrapeLog.status log, Models.ScrapeLog.jobs_found log,
                 Models.ScrapeLog.error_message log))
      <$> Database.logs (Service.db (Service.run true Service.init
                                       Reference.example_events))
    = [ (Models.completed, 2, Some "remoteok: connection refused");
        (Models.completed, 0, None) ].
Proof. vm_compute. auto. Qed.

(** ** Reading and deleting rows *)
Section JobsEndpoints.
Import Models Database Backend Reference.

Lemma head_filter_id_other (l : list Job.t) job_id other :
  other ≠ job_id →
  head (filter (fun j => Job.id j = other) (filter (fun j => Job.id j ≠ job_id) l))
  = head (filter (fun j => Job.id j = other) l).
Proof.
  intros Hne. f_equal. rewrite list_filter_filter. apply list_filter_iff.
  intros j. split; [by intros [? _]|]. intros Hj. split; [done|congruence].
Qed.

Lemma filter_id_same (l : list Job.t) job_id :
  filter (fun j => Job.id j = job_id) (filter (fun j => Job.id j ≠ job_id) l) = [].
Proof.
  rewrite list_filter_filter. induction l as [|j l IH]; [done|].
  rewrite filter_cons, decide_False; [done|]. by intros [? ?].
Qed.

End JobsEndpoints.

(** X1: [delete_job] answers 404 and leaves the database as it is
    when no row has the id; otherwise it answers with the id, after
    which [get_job] on that id is 404, every other id reads as before
    and the run logs are untouched. *)
Theorem delete_job_then_get now job_id db :
  Database.added db = [] →
  let answer := fst (Backend.delete_job now job_id db) in
  let db' := snd (Backend.delete_job now job_id db) in
  (match Backend.get_job job_id db with
   | inl _ =>
       answer = inl {| Backend.status_code := 404; Backend.detail := "Job not found" |}
       ∧ db' = db
   | inr _ => answer = inr job_id
   end)
  ∧ Backend.get_job job_id db'
    = inl {| Backend.status_code := 404; Backend.detail := "Job not found" |}
  ∧ (∀ other, other ≠ job_id → Backend.get_job other db' = Backend.get_job other db)
  ∧ Database.logs db' = Database.logs db.
Proof.
  intros Ha answer db'. subst answer db'. unfold Backend.delete_job, Backend.get_job.
  destruct (head (filter (fun j => Models.Job.id j = job_id) (Database.jobs db)))
    as [job|] eqn:Hh; cbn [fst snd].
  - unfold Database.delete_job_row, Database.flush. cbn [Database.jobs Database.logs].
    rewrite Ha. cbn [Database.to_rows]. rewrite app_nil_r.
    split_and!; try done.
    + by rewrite filter_id_same.
    + intros other Hne. by rewrite head_filter_id_other.
  - rewrite Hh. split_and!; done.
Qed.

Lemma delete_job_then_get_witness :
  Backend.get_job 1
    (snd (Backend.delete_job 300 1
            (Service.db (Service.run true Service.init Reference.example_events))))
  = inl {| Backend.status_code := 404; Backend.detail := "Job not found" |}.
Proof.
  apply (proj1 (proj2 (delete_job_then_get 300 1
           (Service.db (Service.run true Service.init Reference.example_events))
           eq_refl))).
Defined.

(** X2: [clear_jobs] answers with the number of rows the table held
    and leaves none: every [get_job] is 404 and the tag statistics are
    empty afterwards; the run logs are untouched. *)
Theorem clear_jobs_empties now db :
  Database.added db = [] →
  let db' := snd (Backend.clear_jobs now db) in
  fst (Backend.clear_jobs now db) = length (Database.jobs db)
  ∧ Database.jobs db' = []
  ∧ (∀ job_id,
       Backend.get_job job_id db'
       = inl {| Backend.status_code := 404; Backend.detail := "Job not found" |})
  ∧ Backend.get_stats_top_tags db' = []
  ∧ Database.logs db' = Database.logs db.
Proof.
  intros Ha db'. subst db'. unfold Backend.clear_jobs, Database.delete_all_jobs.
  cbn [fst snd]. unfold Database.flush. cbn [Database.jobs Database.logs].
  rewrite Ha. cbn [Database.to_rows]. rewrite app_nil_r. split_and!; done.
Qed.

Lemma clear_jobs_empties_witness :
  fst (Backend.clear_jobs 300
         (Service.db (Service.run true Service.init Reference.example_events)))
  = 2.
Proof.
  rewrite (proj1 (clear_jobs_empties 300
             (Service.db (Service.run true Service.init Reference.example_events))
             eq_refl)).
  vm_compute. reflexivity.
Defined.

(** ** Runs that fail and logs that stay *)
Section RunOutcome.
Import Models Database Backend Reference.

Lemma sites_loop_outcome autoflush adapter now sites keyword location :
  ∀ k db total errors,
    match first_init_raise adapter keyword location k sites with
    | Some msg =>
        ∃ db', sites_loop autoflush adapter now k sites keyword location
                 db total errors = inr (db', msg)
    | None =>
        ∃ r, sites_loop autoflush adapter now k sites keyword location
               db total errors = inl r
    end.
Proof.
  induction sites as [|site_name rest IH]; intros k db total errors.
  { simpl. eauto. }
  cbn [first_init_raise sites_loop].
  destruct (PyDict.get SCRAPERS site_name) as [scraper_class|]; [|apply IH].
  destruct (adapter k scraper_class keyword location) as [msg|msg|offers].
  - eauto.
  - apply IH.
  - destruct (add_jobs autoflush now offers db total) as [db1 total1]. apply IH.
Qed.

Lemma run_scrape_logs autoflush adapter now log_id sites keyword location db log :
  first_log_by_id log_id db = Some log →
  let db' := run_scrape autoflush adapter now log_id sites keyword location db in
  next_log_id db' = next_log_id db
  ∧ ∃ f, (∀ l, ScrapeLog.id (f l) = ScrapeLog.id l)
         ∧ logs db' = logs (update_log log_id f db)
         ∧ f log
           = match first_init_raise adapter keyword location 0 sites with
             | Some msg => set_failed now msg (set_running log)
             | None =>
                 set_completed now
                   (length (jobs db') - length (rows now db))
                   (failures adapter keyword location 0 sites) (set_running log)
             end.
Proof.
  intros Hlog db'. subst db'. unfold run_scrape, run_scrape_begin. rewrite Hlog.
  set (db1 := commit now (update_log log_id set_running db)).
  pose proof (sites_loop_outcome autoflush adapter now sites keyword location
                0 db1 0 []) as Hout.
  pose proof (sites_loop_spec autoflush adapter now sites keyword location
                0 db1 0 []) as [new Hspec].
  unfold run_scrape_work.
  destruct (first_init_raise adapter keyword location 0 sites) as [msg|].
  - destruct Hout as [db2 Hloop]. rewrite Hloop in *.
    destruct Hspec as (_ & _ & _ & Hl & Hn & _).
    split; [change (next_log_id db2 = next_log_id db); by rewrite Hn|].
    exists (fun l => set_failed now msg (set_running l)).
    split_and!; [done| |done].
    cbn [commit flush logs update_log]. rewrite Hl. subst db1.
    cbn [commit flush logs update_log]. rewrite <- list_fmap_compose.
    apply list_fmap_ext. intros i l _. simpl.
    destruct (decide (ScrapeLog.id l = log_id)) as [Heq|Hne].
    { rewrite (bool_decide_true (ScrapeLog.id l = log_id)) by done.
      simpl. by rewrite bool_decide_true. }
    rewrite (bool_decide_false (ScrapeLog.id l = log_id)) by done.
    by rewrite bool_decide_false.
  - destruct Hout as [[[db2 total] errors] Hloop]. rewrite Hloop in *.
    destruct Hspec as (Hrows & _ & _ & Hl & Hn & -> & ->).
    split; [change (next_log_id db2 = next_log_id db); by rewrite Hn|].
    exists (fun l => set_completed now (length new)
                       (failures adapter keyword location 0 sites) (set_running l)).
    split_and!; [done| |].
    + cbn [commit flush logs update_log]. rewrite Hl. subst db1.
      cbn [commit flush logs update_log]. rewrite <- list_fmap_compose.
      apply list_fmap_ext. intros i l _. simpl.
      destruct (decide (ScrapeLog.id l = log_id)) as [Heq|Hne].
    { rewrite (bool_decide_true (ScrapeLog.id l = log_id)) by done.
      simpl. by rewrite bool_decide_true. }
    rewrite (bool_decide_false (ScrapeLog.id l = log_id)) by done.
    by rewrite bool_decide_false.
    + f_equal. change (jobs (commit now (update_log log_id
                         (set_completed now (0 + length new)
                            ([] ++ failures adapter keyword location 0 sites)) db2)))
        with (rows now db2).
      rewrite Hrows. subst db1. unfold commit. rewrite rows_flush.
      change (rows now (update_log log_id set_running db)) with (rows now db).
      rewrite length_app. lia.
Qed.

End RunOutcome.

(** X3: a run that leaves its log in a terminal status has set
    [completed_at], and has left it [failed] exactly when the
    constructor of one of its scrapers raised: the log then holds the
    message of the first such exception, and [jobs_found] stays as it
    was although the rows of the sites before it are stored; otherwise
    the log is [completed] and [jobs_found] is the number of rows the
    run added.  (A run that a database error stops leaves its log
    [running]: that is no terminal status, and nothing is said of it.) *)
Theorem run_fails_on_constructor autoflush adapter now log_id sites keyword
    location db log log' :
  Database.first_log_by_id log_id db = Some log →
  let db' :=
    Backend.run_scrape autoflush adapter now log_id sites keyword location db in
  Backend.get_scrape_log log_id db' = inr log' →
  Service.terminal (Models.ScrapeLog.status log') = true →
  Models.ScrapeLog.completed_at log' = Some now
  ∧ match Reference.first_init_raise adapter keyword location 0 sites with
    | Some msg =>
        Models.ScrapeLog.status log' = Models.failed
        ∧ Models.ScrapeLog.error_message log' = Some msg
        ∧ Models.ScrapeLog.jobs_found log' = Models.ScrapeLog.jobs_found log
    | None =>
        Models.ScrapeLog.status log' = Models.completed
        ∧ Models.ScrapeLog.jobs_found log'
          = length (Database.jobs db') - length (Reference.rows now db)
    end.
Proof.
  intros Hlog db' Hget _.
  destruct (run_scrape_logs autoflush adapter now log_id sites keyword location
              db log Hlog) as (_ & f & Hid & Hlogs & Hf).
  fold db' in Hlogs, Hf.
  assert (log' = f log) as ->.
  { unfold Backend.get_scrape_log, Database.first_log_by_id in Hget.
    rewrite Hlogs, first_log_update_same in Hget by done.
    rewrite Hlog in Hget. simpl in Hget. by injection Hget as <-. }
  rewrite Hf.
  destruct (Reference.first_init_raise adapter keyword location 0 sites); done.
Qed.

Lemma run_fails_on_constructor_witness :
  ∃ log',
    Backend.get_scrape_log 1
      (Backend.run_scrape true Reference.broken_adapter 120 1 ["indeed"; "remoteok"]
         "python" "" Reference.example_log_db) = inr log'
    ∧ Models.ScrapeLog.completed_at log' = Some 120
    ∧ Models.ScrapeLog.status log' = Models.failed
    ∧ Models.ScrapeLog.error_message log' = Some "no session"
    ∧ Models.ScrapeLog.jobs_found log' = 0.
Proof.
  eexists. split; [vm_compute; reflexivity|].
  exact (run_fails_on_constructor true Reference.broken_adapter 120 1
           ["indeed"; "remoteok"] "python" "" Reference.example_log_db
           _ _ eq_refl eq_refl eq_refl).
Defined.

(** The failed run of the witness has stored two rows all the same. *)
Example failed_run_keeps_rows :
  length (Database.jobs
            (Backend.run_scrape true Reference.broken_adapter 120 1
               ["indeed"; "remoteok"] "python" "" Reference.example_log_db)) = 2.
Proof. vm_compute. reflexivity. Qed.

(** X4: [run_scrape] does nothing at all when the log it is given does
    not exist, and in every case leaves the logs of the other runs and
    the id sequence of the logs as they were. *)
Theorem run_scrape_keeps_other_logs autoflush adapter now log_id sites keyword
    location db :
  let db' :=
    Backend.run_scrape autoflush adapter now log_id sites keyword location db in
  (Backend.get_scrape_log log_id db
   = inl {| Backend.status_code := 404; Backend.detail := "Log not found" |} →
   db' = db)
  ∧ (∀ other, other ≠ log_id →
       Backend.get_scrape_log other db' = Backend.get_scrape_log other db)
  ∧ Database.next_log_id db' = Database.next_log_id db.
Proof.
  intros db'. unfold Backend.get_scrape_log.
  destruct (Database.first_log_by_id log_id db) as [log|] eqn:Hlog.
  - destruct (run_scrape_logs autoflush adapter now log_id sites keyword location
                db log Hlog) as (Hn & f & Hid & Hlogs & _).
    fold db' in Hn, Hlogs. split_and!; [done| |done].
    intros other Hne. unfold Database.first_log_by_id at 1. rewrite Hlogs.
    by rewrite first_log_update_other.
  - assert (db' = db) as ->; [|done].
    subst db'. unfold Backend.run_scrape, Backend.run_scrape_begin. by rewrite Hlog.
Qed.

Lemma run_scrape_keeps_other_logs_witness :
  Backend.run_scrape true Reference.example_adapter 120 7 ["indeed"] "python" ""
    Reference.example_log_db
  = Reference.example_log_db.
Proof.
  apply (proj1 (run_scrape_keeps_other_logs true Reference.example_adapter 120 7
                  ["indeed"] "python" "" Reference.example_log_db)).
  reflexivity.
Defined.

(** ** An accepted request and its log *)
Section AcceptedRequest.
Import Models Database Backend Service Reference.

Lemma run_registry autoflush events s :
  registry_ok s → registry_ok (run autoflush s events).
Proof.
  revert s. induction events as [|e events IH]; intros s Hok; [done|].
  simpl. apply IH. by apply step_registry.
Qed.

Lemma filter_log_id_fresh (ls : list ScrapeLog.t) i :
  (∀ log, log ∈ ls → ScrapeLog.id log ≠ i) →
  filter (fun l => ScrapeLog.id l = i) ls = [].
Proof.
  induction ls as [|l0 ls IH]; intros Hfresh; [done|].
  rewrite filter_cons, decide_False by (apply Hfresh; set_solver).
  apply IH. intros log Hin. apply Hfresh. set_solver.
Qed.

End AcceptedRequest.

(** X5: in every state the service can reach, an accepted request
    creates exactly one log: [get_scrape_log] on the id of the answer,
    404 before, now returns a [pending] log with the request's keyword
    and location, the normalised sites joined by commas, no offers
    counted, no end time and no error; the task scheduled carries that
    id, the other logs read as before and the stored offers are the
    same. *)
Theorem start_scrape_creates_log autoflush events now sites keyword location
    started task db' :
  let db := Service.db (Service.run autoflush Service.init events) in
  Backend.start_scrape now sites keyword location db = (inr (started, task), db') →
  Backend.get_scrape_log (Backend.log_id started) db
    = inl {| Backend.status_code := 404; Backend.detail := "Log not found" |}
  ∧ Backend.get_scrape_log (Backend.log_id started) db'
    = inr {| Models.ScrapeLog.id := Backend.log_id started;
             Models.ScrapeLog.keyword := keyword;
             Models.ScrapeLog.location := location;
             Models.ScrapeLog.sites := PyStr.join "," (Backend.site_list_of sites);
             Models.ScrapeLog.jobs_found := 0;
             Models.ScrapeLog.status := Models.pending;
             Models.ScrapeLog.started_at := now;
             Models.ScrapeLog.completed_at := None;
             Models.ScrapeLog.error_message := None |}
  ∧ Backend.task_log_id task = Backend.log_id started
  ∧ Backend.task_sites task = Backend.site_list_of sites
  ∧ Backend.sites started = Backend.site_list_of sites
  ∧ (∀ other, other ≠ Backend.log_id started →
       Backend.get_scrape_log other db' = Backend.get_scrape_log other db)
  ∧ Database.jobs db' = Reference.rows now db.
Proof.
  intros db Hstart.
  pose proof (run_registry autoflush events Service.init registry_ok_init)
    as (_ & Hlt & _).
  fold db in Hlt.
  unfold Backend.start_scrape in Hstart.
  destruct (Backend.site_list_of sites) as [|s l] eqn:Hl; [done|].
  destruct (filter _ (s :: l)); [|done].
  unfold Database.insert_log in Hstart. injection Hstart as <- <- <-.
  cbn [Backend.log_id Backend.task_log_id Backend.task_sites Backend.sites
       Models.ScrapeLog.id].
  assert (∀ log, log ∈ Database.logs db →
                 Models.ScrapeLog.id log ≠ Database.next_log_id db) as Hfresh.
  { intros log Hin. apply Hlt in Hin. lia. }
  unfold Backend.get_scrape_log, Database.first_log_by_id.
  cbn [Database.logs Database.flush Database.jobs].
  split_and!; try done.
  - by rewrite filter_log_id_fresh.
  - rewrite filter_app, filter_log_id_fresh by done.
    rewrite filter_cons, decide_True by done. done.
  - intros other Hne. rewrite head_filter_snoc_other; [done|]. simpl. congruence.
Qed.

Lemma start_scrape_creates_log_witness :
  Backend.get_scrape_log 3
    (snd (Backend.start_scrape 300 "Tecnoempleo" "java" "madrid"
            (Service.db (Service.run true Service.init Reference.example_events))))
  = inr {| Models.ScrapeLog.id := 3;
           Models.ScrapeLog.keyword := "java";
           Models.ScrapeLog.location := "madrid";
           Models.ScrapeLog.sites := "tecnoempleo";
           Models.ScrapeLog.jobs_found := 0;
           Models.ScrapeLog.status := Models.pending;
           Models.ScrapeLog.started_at := 300;
           Models.ScrapeLog.completed_at := None;
           Models.ScrapeLog.error_message := None |}.
Proof.
  pose proof (start_scrape_creates_log true Reference.example_events 300
                "Tecnoempleo" "java" "madrid") as H.
  edestruct H as (_ & Hget & _).
  { vm_compute. reflexivity. }
  exact Hget.
Defined.

(** ** More on splitting, trimming and lower-casing *)
Section StringFacts.
Import Reference.

Lemma split_pieces_free sep s : Forall (free_of sep) (PyStr.split sep s).
Proof.
  induction s as [|c s IH]; simpl.
  { apply Forall_singleton. unfold free_of. simpl. apply not_elem_of_nil. }
  case_bool_decide as Hc.
  - apply Forall_cons. split; [|done]. unfold free_of. simpl. apply not_elem_of_nil.
  - destruct (PyStr.split sep s) as [|seg segs].
    + apply Forall_singleton. unfold free_of. simpl.
      intros [?|?%elem_of_nil]%elem_of_cons; done.
    + apply Forall_cons in IH as [Hseg Hsegs]. apply Forall_cons. split; [|done].
      unfold free_of in *. simpl. intros [?|?]%elem_of_cons; done.
Qed.

Lemma lstrip_chars s c : c ∈ chars (PyStr.lstrip s) → c ∈ chars s.
Proof.
  induction s as [|c' s IH]; simpl; [done|].
  destruct (PyStr.is_space c'); [|done]. intros Hin. right. by apply IH.
Qed.

Lemma rstrip_chars s c : c ∈ chars (PyStr.rstrip s) → c ∈ chars s.
Proof.
  induction s as [|c' s IH]; simpl; [done|].
  destruct (PyStr.is_space c' && negb (PyStr.truthy (PyStr.rstrip s))); simpl.
  { by intros ?%elem_of_nil. }
  intros [->|Hin]%elem_of_cons; [by left|]. right. by apply IH.
Qed.

Lemma strip_free c s : free_of c s → free_of c (PyStr.strip s).
Proof.
  unfold free_of, PyStr.strip. intros Hs Hin. apply Hs.
  by apply lstrip_chars, rstrip_chars.
Qed.

Lemma lstrip_head s :
  PyStr.lstrip s = ""
  ∨ ∃ c r, PyStr.lstrip s = String c r ∧ PyStr.is_space c = false.
Proof.
  induction s as [|c s IH]; simpl; [by left|].
  destruct (PyStr.is_space c) eqn:Hc; [done|]. right. eauto.
Qed.

Lemma rstrip_last_char s :
  PyStr.rstrip s = ""
  ∨ ∃ c, last (chars (PyStr.rstrip s)) = Some c ∧ PyStr.is_space c = false.
Proof.
  induction s as [|c s IH]; simpl; [by left|].
  destruct (PyStr.rstrip s) as [|c' r] eqn:Hr; simpl.
  - destruct (PyStr.is_space c) eqn:Hc; simpl; [by left|]. right. eauto.
  - rewrite andb_false_r. right. destruct IH as [?|IH]; [done|]. exact IH.
Qed.

Lemma strip_result s : PyStr.strip s = "" ∨ trimmed (PyStr.strip s).
Proof.
  unfold PyStr.strip. destruct (lstrip_head s) as [->|(c & r & -> & Hc)]; [by left|].
  right. simpl. rewrite Hc. simpl. split; [simpl; eauto|].
  destruct (rstrip_last_char r) as [->|(c' & Hl & Hc')]; [simpl; eauto|].
  exists c'. split; [|done]. simpl.
  destruct (PyStr.rstrip r); [done|]. exact Hl.
Qed.

Lemma strip_trimmed s : trimmed s → PyStr.strip s = s.
Proof.
  intros Ht. unfold PyStr.strip. rewrite lstrip_trimmed by done.
  destruct Ht as [_ (c & Hl & Hc)]. by eapply rstrip_last.
Qed.

Lemma strip_strip s : PyStr.strip (PyStr.strip s) = PyStr.strip s.
Proof.
  destruct (strip_result s) as [->|Ht]; [done|]. by apply strip_trimmed.
Qed.

Lemma lower_char_space c : PyStr.is_space (PyStr.lower_char c) = PyStr.is_space c.
Proof. by destruct c as [[] [] [] [] [] [] [] []]. Qed.

Lemma lower_char_lower c : PyStr.lower_char (PyStr.lower_char c) = PyStr.lower_char c.
Proof. by destruct c as [[] [] [] [] [] [] [] []]. Qed.

Lemma lower_char_comma c : PyStr.lower_char c = ","%char → c = ","%char.
Proof. destruct c as [[] [] [] [] [] [] [] []]; vm_compute; congruence. Qed.

Lemma chars_lower s : chars (PyStr.lower s) = PyStr.lower_char <$> chars s.
Proof.
  unfold chars. induction s as [|c s IH]; simpl; [done|]. by rewrite IH.
Qed.

Lemma lower_lower s : PyStr.lower (PyStr.lower s) = PyStr.lower s.
Proof. induction s as [|c s IH]; simpl; [done|]. by rewrite lower_char_lower, IH. Qed.

Lemma lower_free_comma s : free_of ","%char s → free_of ","%char (PyStr.lower s).
Proof.
  unfold free_of. rewrite chars_lower. intros Hs [c [Hc Hin]]%list_elem_of_fmap.
  symmetry in Hc. apply lower_char_comma in Hc as ->. done.
Qed.

Lemma lower_trimmed s : trimmed s → trimmed (PyStr.lower s).
Proof.
  intros [(c & Hh & Hc) (c' & Hl & Hc')]. unfold trimmed. rewrite chars_lower.
  split.
  - exists (PyStr.lower_char c). rewrite lower_char_space. split; [|done].
    destruct (chars s); simpl in *; congruence.
  - exists (PyStr.lower_char c'). rewrite lower_char_space. split; [|done].
    rewrite fmap_last, Hl. done.
Qed.

Lemma trimmed_truthy s : trimmed s → PyStr.truthy s = true.
Proof. intros [(c & Hh & _) _]. by destruct s. Qed.

End StringFacts.

(** ** The site list in normal form *)
Section SiteList.
Import Models Database Backend Service Reference.

Lemma site_list_elements sites :
  Forall (fun s => trimmed s ∧ free_of ","%char s ∧ PyStr.lower s = s)
         (site_list_of sites).
Proof.
  unfold site_list_of. apply Forall_fmap, Forall_forall.
  intros p [Ht Hp]%list_elem_of_filter. simpl.
  destruct (strip_result p) as [He|Htr]; [by rewrite He in Ht|].
  split_and!.
  - by apply lower_trimmed.
  - apply lower_free_comma, strip_free.
    by eapply (proj1 (Forall_forall _ _) (split_pieces_free ","%char sites)).
  - apply lower_lower.
Qed.

Lemma fmap_filter_id (f : string → string) (Q : string → Prop)
    `{∀ s, Decision (Q s)} l :
  Forall (fun s => Q s ∧ f s = s) l → f <$> filter Q l = l.
Proof.
  induction 1 as [|s l [HQ Hf] _ IH]; [done|].
  rewrite filter_cons, decide_True by done. by rewrite fmap_cons, Hf, IH.
Qed.

Lemma site_list_of_stored sites :
  site_list_of (PyStr.join "," (site_list_of sites)) = site_list_of sites.
Proof.
  pose proof (site_list_elements sites) as Hel.
  destruct (site_list_of sites) as [|s l] eqn:Hl; [done|].
  rewrite site_list_of_join.
  - apply fmap_filter_id. eapply Forall_impl; [exact Hel|].
    intros x (Ht & _ & Hlow). simpl. rewrite strip_trimmed by done.
    split; [|done]. by rewrite trimmed_truthy.
  - done.
  - eapply Forall_impl; [exact Hel|]. by intros x (_ & ? & _).
Qed.

End SiteList.

(** X6: every name of the normalised site list is non-empty, free of
    commas, without white space at either end and in lower case, so
    that the [sites] column of a log, the names joined by commas,
    gives back the same list when normalised again. *)
Theorem site_list_round_trip sites :
  let site_list := Backend.site_list_of sites in
  Forall (fun s => s ≠ "" ∧ Reference.free_of ","%char s
                   ∧ PyStr.strip s = s ∧ PyStr.lower s = s) site_list
  ∧ Backend.site_list_of (PyStr.join "," site_list) = site_list.
Proof.
  intros site_list. split; [|apply site_list_of_stored].
  eapply Forall_impl; [apply site_list_elements|].
  intros s (Ht & Hf & Hl). split_and!; try done.
  - intros ->. by apply trimmed_truthy in Ht.
  - by apply strip_trimmed.
Qed.

(** ** Tasks and their logs *)
Section TasksAndLogs.
Import Models Database Backend Service Reference.

Lemma task_matches_transfer db db' task :
  (∀ log, first_log_by_id (task_log_id task) db = Some log →
          ∃ log', first_log_by_id (task_log_id task) db' = Some log'
                  ∧ ScrapeLog.sites log' = ScrapeLog.sites log
                  ∧ ScrapeLog.keyword log' = ScrapeLog.keyword log
                  ∧ ScrapeLog.location log' = ScrapeLog.location log) →
  task_matches_log db task → task_matches_log db' task.
Proof.
  intros Hkeep (Hne & Hknown & log & Hget & Hs & Hk & Hl).
  split_and!; [done..|].
  unfold get_scrape_log in *.
  destruct (first_log_by_id (task_log_id task) db) as [log0|] eqn:H0; [|done].
  injection Hget as ->.
  destruct (Hkeep log eq_refl) as (log' & -> & Hs' & Hk' & Hl').
  exists log'. split_and!; congruence.
Qed.

Lemma update_keeps_fields i f (db db' : Session) j log :
  (∀ l, ScrapeLog.id (f l) = ScrapeLog.id l
        ∧ ScrapeLog.sites (f l) = ScrapeLog.sites l
        ∧ ScrapeLog.keyword (f l) = ScrapeLog.keyword l
        ∧ ScrapeLog.location (f l) = ScrapeLog.location l) →
  logs db' = logs (update_log i f db) →
  first_log_by_id j db = Some log →
  ∃ log', first_log_by_id j db' = Some log'
          ∧ ScrapeLog.sites log' = ScrapeLog.sites log
          ∧ ScrapeLog.keyword log' = ScrapeLog.keyword log
          ∧ ScrapeLog.location log' = ScrapeLog.location log.
Proof.
  intros Hf Hlogs Hlog. unfold first_log_by_id at 1. rewrite Hlogs.
  destruct (decide (j = i)) as [->|Hne].
  - rewrite first_log_update_same by (intros l; apply Hf). rewrite Hlog. simpl.
    exists (f log). split; [done|]. apply Hf.
  - rewrite first_log_update_other by (done || intros l; apply Hf). eauto.
Qed.

Lemma start_scrape_accepted_inv now sites keyword location db started task db' :
  start_scrape now sites keyword location db = (inr (started, task), db') →
  site_list_of sites ≠ [] ∧ Forall known_site (site_list_of sites).
Proof.
  unfold start_scrape. intros Hstart.
  destruct (site_list_of sites) as [|s l] eqn:Hl; [done|].
  split; [done|]. apply unknown_site_filter.
  by destruct (filter _ (s :: l)).
Qed.

Lemma step_tasks autoflush s e :
  registry_ok s →
  Forall (task_matches_log (db s)) (waiting s ++ active s) →
  Forall (task_matches_log (db (step autoflush s e)))
         (waiting (step autoflush s e) ++ active (step autoflush s e)).
Proof.
  intros Hok Hall. rewrite Forall_forall in Hall. apply Forall_forall.
  destruct e as [now sites keyword location|now k|now k adapter|now job_id|now];
    cbn [step].
  - destruct (start_scrape now sites keyword location (db s))
      as [[e|[started task]] db'] eqn:Hstart; cbn [db waiting active].
    { assert (db' = db s) as ->; [|done].
      unfold start_scrape in Hstart.
      destruct (site_list_of sites); [by injection Hstart|].
      destruct (filter _ _); [|by injection Hstart].
      by destruct (insert_log _ _ _ _ _). }
    destruct (start_scrape_accepted_inv _ _ _ _ _ _ _ _ Hstart) as [Hne Hknown].
    rewrite start_scrape_accepts in Hstart by done.
    injection Hstart as <- <- <-.
    pose proof Hok as (_ & Hlt & _).
    assert (∀ log, log ∈ logs (db s) → ScrapeLog.id log ≠ next_log_id (db s))
      as Hfresh.
    { intros log Hin. apply Hlt in Hin. lia. }
    intros t Ht.
    assert (t ∈ waiting s ++ active s
            ∨ t = {| task_log_id := next_log_id (db s);
                     task_sites := site_list_of sites;
                     task_keyword := keyword; task_location := location |})
      as [Hold| ->] by set_solver.
    + eapply task_matches_transfer; [|by apply Hall].
      intros log Hlog. exists log. split; [|done].
      unfold first_log_by_id, insert_log. cbn [snd logs flush].
      rewrite head_filter_snoc_other; [done|]. simpl.
      assert (task_log_id t < next_log_id (db s)) by (by apply task_ids_lt). lia.
    + split_and!; [done..|]. cbn [task_log_id task_sites task_keyword task_location].
      eexists. split.
      * unfold get_scrape_log, first_log_by_id, insert_log. cbn [snd logs flush].
        rewrite filter_app, filter_log_id_fresh by done.
        rewrite filter_cons, decide_True by done. reflexivity.
      * simpl. split_and!; [|done..]. apply site_list_of_stored.
  - destruct (waiting s !! k) as [task|] eqn:Hk; [|done].
    destruct (run_scrape_begin now (task_log_id task) (db s)) as [db'|] eqn:Hb;
      cbn [db waiting active].
    + apply run_scrape_begin_spec in Hb as (_ & _ & _ & _ & Hlogs).
      intros t Ht.
      assert (t ∈ waiting s ++ active s) as Hold.
      { apply elem_of_app in Ht as [Ht|[Ht| ->%list_elem_of_singleton]%elem_of_app].
        - apply elem_of_app. left. by eapply list_elem_of_delete_inv.
        - apply elem_of_app. by right.
        - apply elem_of_app. left. by eapply list_elem_of_lookup_2. }
      eapply task_matches_transfer; [|by apply Hall].
      intros log Hlog.
      eapply (update_keeps_fields _ set_running); [done|exact Hlogs|exact Hlog].
    + intros t Ht. apply Hall.
      apply elem_of_app in Ht as [Ht|Ht]; apply elem_of_app; [left|by right].
      by eapply list_elem_of_delete_inv.
  - destruct (active s !! k) as [task|] eqn:Hk; [|done]. cbn [db waiting active].
    destruct (run_scrape_work_spec autoflush adapter now (task_log_id task)
                (task_sites task) (task_keyword task) (task_location task) (db s))
      as (new & _ & _ & _ & _ & _ & Hlogs).
    intros t Ht.
    assert (t ∈ waiting s ++ active s) as Hold.
    { apply elem_of_app in Ht as [Ht|Ht]; apply elem_of_app; [by left|right].
      by eapply list_elem_of_delete_inv. }
    eapply task_matches_transfer; [|by apply Hall].
    intros log Hlog. destruct Hlogs as [Hlogs|(msg & _ & Hlogs)].
    + eapply (update_keeps_fields _ (set_completed _ _ _));
        [done|exact Hlogs|exact Hlog].
    + eapply (update_keeps_fields _ (set_failed _ _));
        [done|exact Hlogs|exact Hlog].
  - cbn [db waiting active]. intros t Ht.
    eapply task_matches_transfer; [|by apply Hall].
    intros log Hlog. exists log. split; [|done].
    unfold delete_job. by destruct (head _).
  - cbn [db waiting active]. intros t Ht.
    eapply task_matches_transfer; [|by apply Hall].
    intros log Hlog. exists log. done.
Qed.

Lemma run_tasks autoflush events s :
  registry_ok s →
  Forall (task_matches_log (db s)) (waiting s ++ active s) →
  Forall (task_matches_log (db (run autoflush s events)))
         (waiting (run autoflush s events) ++ active (run autoflush s events)).
Proof.
  revert s. induction events as [|e events IH]; intros s Hok Hall; [done|].
  simpl. apply IH; [by apply step_registry|by apply step_tasks].
Qed.

Lemma failures_known adapter keyword location sites :
  Forall known_site sites →
  ∀ k, Forall (fun entry => ∃ site_name msg,
                 site_name ∈ sites ∧ entry = site_name +:+ ": " +:+ msg)
              (failures adapter keyword location k sites).
Proof.
  induction 1 as [|s sites [c Hc] _ IH]; intros k; [constructor|].
  cbn [failures]. unfold site_failure. rewrite Hc.
  apply Forall_app. split.
  - destruct (adapter k c keyword location) as [msg|msg|offers]; simpl;
      try constructor; [|constructor].
    exists s, msg. split; [apply list_elem_of_here|done].
  - eapply Forall_impl; [apply IH|]. intros e (s' & msg & Hin & ->).
    exists s', msg. split; [by apply list_elem_of_further|done].
Qed.

End TasksAndLogs.

(** X7: in every state the service can reach, each waiting or active
    task agrees with the log of its run: the log exists, its [sites]
    column normalises to the task's site list, keyword and location
    are the task's, and the sites are known and at least one.  So the
    errors a task can record are entries ["site: message"] of its own
    sites, never ["Unknown site: ..."]. *)
Theorem service_tasks_match_logs autoflush events :
  let s := Service.run autoflush Service.init events in
  Forall (fun task =>
            Reference.task_matches_log (Service.db s) task
            ∧ ∀ adapter,
                Forall (fun entry =>
                          ∃ site_name msg,
                            site_name ∈ Backend.task_sites task
                            ∧ entry = site_name +:+ ": " +:+ msg)
                  (Reference.failures adapter (Backend.task_keyword task)
                     (Backend.task_location task) 0 (Backend.task_sites task)))
         (Service.waiting s ++ Service.active s).
Proof.
  intros s.
  pose proof (run_tasks autoflush events Service.init registry_ok_init
                (Forall_nil_2 _)) as Hall.
  fold s in Hall. eapply Forall_impl; [exact Hall|].
  intros task Hm. split; [done|]. intros adapter.
  apply failures_known. apply Hm.
Qed.

(** ** More on the tag statistics *)
Section TopTags.
Import Backend Reference.

Lemma elem_of_tally l t n :
  (t, n) ∈ tally l ↔ t ∈ l ∧ n = occurrences t l.
Proof.
  unfold tally. rewrite list_elem_of_fmap. split.
  - intros (t' & Heq & Hin). injection Heq as -> ->.
    rewrite elem_of_first_seen in Hin. by split.
  - intros [Hin ->]. exists t. by rewrite elem_of_first_seen.
Qed.

Lemma occurrences_pos t l : t ∈ l → 1 ≤ occurrences t l.
Proof.
  unfold occurrences. induction l as [|x l IH]; [by intros ?%elem_of_nil|].
  rewrite filter_cons. intros [->|Hin]%elem_of_cons.
  - rewrite decide_True by done. simpl. lia.
  - destruct (decide (x = t)); simpl; [lia|by apply IH].
Qed.

Lemma tally_keys_NoDup l : NoDup (fst <$> tally l).
Proof.
  unfold tally. rewrite <- list_fmap_compose.
  replace (fst ∘ (fun t => (t, occurrences t l)) <$> first_seen l)
    with (id <$> first_seen l) by done.
  rewrite list_fmap_id. apply NoDup_first_seen.
Qed.

Lemma sum_set (d : list (string * nat)) t v :
  sum_list (snd <$> PyDict.set d t v) + default 0 (PyDict.get d t)
  = sum_list (snd <$> d) + v.
Proof.
  induction d as [|[k w] d IH]; csimpl; [lia|].
  case_bool_decide; csimpl; lia.
Qed.

Lemma sum_bump d t :
  sum_list (snd <$> bump d t) = S (sum_list (snd <$> d)).
Proof. unfold bump. pose proof (sum_set d t (default 0 (PyDict.get d t) + 1)). lia. Qed.

Lemma sum_foldl_bump l d :
  sum_list (snd <$> foldl bump d l) = sum_list (snd <$> d) + length l.
Proof.
  revert d. induction l as [|t l IH]; intros d; simpl; [lia|].
  rewrite IH, sum_bump. lia.
Qed.

Lemma tag_pieces_clean all_tags t :
  t ∈ tag_pieces all_tags →
  t ≠ "" ∧ free_of ","%char t ∧ PyStr.strip t = t.
Proof.
  unfold tag_pieces. intros (tags & Hin & Htags)%list_elem_of_bind.
  destruct tags as [tags|]; [|by apply elem_of_nil in Hin].
  apply list_elem_of_filter in Hin as [Ht Hin].
  apply list_elem_of_fmap in Hin as (p & -> & Hp).
  split_and!.
  - intros He. by rewrite He in Ht.
  - apply strip_free.
    by eapply (proj1 (Forall_forall _ _) (split_pieces_free ","%char tags)).
  - apply strip_strip.
Qed.

Lemma sorted_app_le (l1 l2 : list (string * nat)) :
  StronglySorted count_ge (l1 ++ l2) →
  ∀ p q, p ∈ l1 → q ∈ l2 → snd q ≤ snd p.
Proof.
  induction l1 as [|x l1 IH]; intros Hs p q Hp Hq; [by apply elem_of_nil in Hp|].
  simpl in Hs. apply StronglySorted_inv in Hs as [Hs Hall].
  apply elem_of_cons in Hp as [->|Hp]; [|by eapply IH].
  rewrite Forall_forall in Hall. apply Hall. apply elem_of_app. by right.
Qed.

Lemma sum_tally l : sum_list (snd <$> tally l) = length l.
Proof.
  change l with ([] ++ l) at 1.
  rewrite <- (foldl_bump_tally [] l). rewrite sum_foldl_bump. done.
Qed.

End TopTags.

(** X8: the top tags are at most 15 rows of the tag table, no tag
    twice, and no tag left out of them has a higher count than a tag
    among them; a table of at most 15 tags is listed whole. *)
Theorem top_tags_dominate (all_tags : list (option string)) :
  let tag_counts := Backend.count_tags all_tags [] in
  let top := Backend.top_tags all_tags in
  length top ≤ 15
  ∧ NoDup (fst <$> top)
  ∧ Forall (fun p => p ∈ tag_counts) top
  ∧ Forall (fun q => q ∈ top ∨ Forall (fun p => snd q ≤ snd p) top) tag_counts
  ∧ (length tag_counts ≤ 15 → top = Backend.sorted_desc tag_counts
                               ∧ top ≡ₚ tag_counts).
Proof.
  intros tag_counts top. subst top. unfold Backend.top_tags. fold tag_counts.
  pose proof (sorted_desc_perm tag_counts) as Hperm.
  pose proof (sorted_desc_sorted tag_counts) as Hsorted.
  split_and!.
  - rewrite length_take. lia.
  - assert (fst <$> take 15 (Backend.sorted_desc tag_counts)
            `sublist_of` fst <$> Backend.sorted_desc tag_counts) as Hsub
      by apply fmap_sublist, sublist_take.
    refine (sublist_NoDup _ _ _ Hsub).
    rewrite Hperm. subst tag_counts. rewrite count_tags_tally.
    apply tally_keys_NoDup.
  - apply Forall_forall. intros p Hp. rewrite <- Hperm.
    by eapply subseteq_take.
  - apply Forall_forall. intros q Hq. rewrite <- Hperm in Hq.
    rewrite <- (take_drop 15 (Backend.sorted_desc tag_counts)) in Hq, Hsorted.
    apply elem_of_app in Hq as [Hq|Hq]; [by left|right].
    apply Forall_forall. intros p Hp. by eapply sorted_app_le.
  - intros Hlen. rewrite take_ge; [done|]. by rewrite Hperm.
Qed.

(** X9: every tag of the tag table is non-empty, holds no comma and
    has no white space around it, and is counted at least once; the
    counts add up to the number of non-empty pieces of the whole
    column. *)
Theorem tag_counts_total (all_tags : list (option string)) :
  let tag_counts := Backend.count_tags all_tags [] in
  Forall (fun p => fst p ≠ "" ∧ Reference.free_of ","%char (fst p)
                   ∧ PyStr.strip (fst p) = fst p ∧ 1 ≤ snd p) tag_counts
  ∧ sum_list (snd <$> tag_counts)
    = length (Reference.tag_pieces all_tags)
  ∧ (tag_counts = [] ↔ Reference.tag_pieces all_tags = []).
Proof.
  intros tag_counts. subst tag_counts. rewrite count_tags_tally. split_and!.
  - apply Forall_forall. intros [t n] [Hin ->]%elem_of_tally. simpl.
    destruct (tag_pieces_clean _ _ Hin) as (? & ? & ?).
    split_and!; [done..|]. by apply occurrences_pos.
  - apply sum_tally.
  - split; [|by intros ->].
    intros He. pose proof (sum_tally (Reference.tag_pieces all_tags)) as Hs.
    rewrite He in Hs. simpl in Hs. by apply nil_length_inv.
Qed.

(** ** Credentials and login *)
Section Credentials.
Import Config Base Reference.
Context `{Markup Node} `{Network} `{Urllib}.

Lemma truthy_ne s : PyStr.truthy s = true ↔ s ≠ "".
Proof. by destruct s. Qed.

Lemma get_credentials_configured getenv site :
  is_Some (get_credentials getenv site) ↔ configured getenv (PyStr.upper site).
Proof.
  unfold get_credentials, configured. split.
  - destruct (getenv (PyStr.upper site +:+ "_USERNAME")) as [u|]; [|by intros []].
    destruct (getenv (PyStr.upper site +:+ "_PASSWORD")) as [p|]; [|by intros []].
    destruct (PyStr.truthy u) eqn:Hu; [|by intros []].
    destruct (PyStr.truthy p) eqn:Hp; [|by intros []].
    intros _. exists u, p. by rewrite <- !truthy_ne.
  - intros (u & p & -> & -> & Hu%truthy_ne & Hp%truthy_ne). by rewrite Hu, Hp.
Qed.

Lemma scrape_no_credentials (self : Scraper) keyword location :
  requires_auth (config self) = true → credentials (config self) = None →
  scrape self keyword location = [].
Proof. intros Hr Hc. unfold scrape, login. by rewrite Hr, Hc. Qed.

End Credentials.

(** X10: the credentials of a site with an ASCII name are read from
    [<SITE>_USERNAME] and [<SITE>_PASSWORD], the name in capitals, and
    count only when both are set and not empty; so it is for the two
    names the configuration asks for, INFOJOBS and LINKEDIN, and
    without their credentials the InfoJobs and the LinkedIn scraper
    return no offer, whatever the network would answer. *)
Theorem scrape_needs_credentials `{Base.Markup Node} `{Base.Network}
    `{Base.Urllib} (getenv : string → option string) keyword location :
  (∀ site, Reference.ascii_text site →
           (is_Some (Config.get_credentials getenv site)
            ↔ Reference.configured getenv (PyStr.upper site)))
  ∧ (is_Some (Config.credentials (Config.site_config getenv "infojobs"))
     ↔ Reference.configured getenv "INFOJOBS")
  ∧ (is_Some (Config.credentials (Config.site_config getenv "linkedin"))
     ↔ Reference.configured getenv "LINKEDIN")
  ∧ (¬ Reference.configured getenv "INFOJOBS" →
     Base.scrape (InfoJobs.scraper (Config.site_config getenv "infojobs"))
       keyword location = [])
  ∧ (¬ Reference.configured getenv "LINKEDIN" →
     Base.scrape (LinkedIn.scraper (Config.site_config getenv "linkedin"))
       keyword location = []).
Proof.
  split_and!.
  - intros site _. apply get_credentials_configured.
  - apply (get_credentials_configured getenv "INFOJOBS").
  - apply (get_credentials_configured getenv "LINKEDIN").
  - intros Hno. apply scrape_no_credentials; [done|].
    change (Config.get_credentials getenv "INFOJOBS" = None).
    apply eq_None_not_Some. by rewrite get_credentials_configured.
  - intros Hno. apply scrape_no_credentials; [done|].
    change (Config.get_credentials getenv "LINKEDIN" = None).
    apply eq_None_not_Some. by rewrite get_credentials_configured.
Qed.

Lemma scrape_needs_credentials_witness :
  @Base.scrape Fixture.network
    (@InfoJobs.scraper _ (Fixture.markup (fun _ => Fixture.page))
       Fixture.network Fixture.urllib
       (Config.site_config Reference.example_env "infojobs"))
    "python" "" = [].
Proof.
  apply (@scrape_needs_credentials _ (Fixture.markup (fun _ => Fixture.page))
           Fixture.network Fixture.urllib Reference.example_env "python" "").
  intros (u & p & Hu & _). vm_compute in Hu. discriminate.
Defined.

(** X11: the InfoJobs login reports success as soon as credentials
    are configured, the login page can be fetched and the login form
    can be posted: the answer to the form is not taken into account.
    The LinkedIn login reports success only for an answer whose address
    holds "feed" or "mynetwork". *)
Theorem infojobs_login_ignores_answer `{Base.Markup Node} `{Base.Network}
    `{Base.Urllib} (config : Config.SiteConfig) :
  (InfoJobs._perform_login config = true
   ↔ ∃ cred page,
       Config.credentials config = Some cred
       ∧ Base.http_get InfoJobs.LOGIN_URL = Some page ∧ page ≠ ""
       ∧ is_Some (Base.http_post InfoJobs.LOGIN_URL
                    [ ("j_username", Config.username cred);
                      ("j_password", Config.password cred) ]))
  ∧ (LinkedIn._perform_login config = true →
     ∃ login_data response,
       Base.http_post LinkedIn.SESSION_URL login_data = Some response
       ∧ (PyStr.contains "feed" (Base.url response) = true
          ∨ PyStr.contains "mynetwork" (Base.url response) = true)).
Proof.
  split.
  - unfold InfoJobs._perform_login. split.
    + destruct (Config.credentials config) as [cred|]; [|done].
      destruct (Base.http_get InfoJobs.LOGIN_URL) as [page|]; [|done].
      destruct page as [|c page]; [done|]. simpl.
      destruct (Base.http_post _ _) as [response|] eqn:Hpost; [|done].
      intros _. exists cred, (String c page). by rewrite Hpost.
    + intros (cred & page & -> & -> & Hpage & [response ->]).
      destruct page; [done|]. simpl. by destruct (_ || _).
  - unfold LinkedIn._perform_login.
    destruct (Config.credentials config) as [cred|]; [|done].
    destruct (Base.http_get LinkedIn.LOGIN_URL) as [page|]; [|done].
    destruct (negb (PyStr.truthy page)); [done|].
    destruct (Base.http_post _ _) as [response|] eqn:Hpost; [|done].
    intros Hok%orb_true_iff. eauto.
Qed.

Lemma infojobs_login_ignores_answer_witness :
  @InfoJobs._perform_login Reference.captcha_network Fixture.linkedin_config = true.
Proof.
  apply (proj1 (@infojobs_login_ignores_answer _
                  (Fixture.markup (fun _ => Fixture.page))
                  Reference.captcha_network Fixture.urllib
                  Fixture.linkedin_config)).
  exists {| Config.username := "user"; Config.password := "secret" |}, "<html>".
  split_and!; [reflexivity|reflexivity|discriminate|].
  eexists. vm_compute. reflexivity.
Defined.

(** With the same answer, which is the login page again, LinkedIn
    gives up. *)
Example linkedin_login_on_captcha :
  @LinkedIn._perform_login _ (Fixture.markup (fun _ => Fixture.page))
    Reference.captcha_network Fixture.linkedin_config = false.
Proof. vm_compute. done. Qed.

(** ** The links Tecnoempleo keeps *)
Section TecnoempleoLinks.
Import Config Base Reference.
Context `{Markup Node} `{Urllib}.
Variable config : SiteConfig.

Lemma existsb_false {A} (f : A → bool) l :
  existsb f l = false → Forall (fun x => f x = false) l.
Proof.
  induction l as [|x l IH]; simpl; [by constructor|].
  intros [Hx Hl]%orb_false_iff. constructor; [done|by apply IH].
Qed.

Lemma extract_job_from_link_offer a href :
  PyStr.truthy (get_text a) = true →
  (String.length (get_text a) <? 15) = false →
  ∃ job, Tecnoempleo._extract_job_from_link config a href = Some job
         ∧ job_title job = get_text a
         ∧ apply_link job = urljoin (base_url config) href
         ∧ (location job = "Espana"
            ∨ ∃ loc, loc ∈ Tecnoempleo.location_patterns
                     ∧ PyStr.contains loc (PyStr.lower (job_title job)) = true
                     ∧ location job = PyStr.capitalize loc)
         ∧ tags job = "IT/Tech" ∧ salary job = "N/A" ∧ source job = "N/A".
Proof.
  intros Ht Hlen. unfold Tecnoempleo._extract_job_from_link.
  rewrite Ht. apply Nat.ltb_ge in Hlen.
  assert ((String.length (get_text a) <? 5) = false) as -> by (apply Nat.ltb_ge; lia).
  cbn [negb orb]. eexists. split; [reflexivity|].
  cbn [job_title apply_link location tags salary source mkJobOffer].
  split_and!; try done.
  destruct (head (filter _ Tecnoempleo.location_patterns)) as [loc|] eqn:Hloc;
    [|by left].
  right. exists loc. apply head_Some_elem_of, list_elem_of_filter in Hloc as [Hc Hin].
  split_and!; [done| |done]. by destruct (PyStr.contains _ _).
Qed.

Lemma harvest_links all_links kept seen jobs :
  Forall2 (offer_of_link config) kept jobs →
  NoDup ((fun a : Node => default "" (get_attr a "href")) <$> kept) →
  (∀ h, h ∈ seen ↔ h ∈ (fun a : Node => default "" (get_attr a "href")) <$> kept) →
  ∃ more,
    more `sublist_of` all_links
    ∧ NoDup ((fun a : Node => default "" (get_attr a "href")) <$> (kept ++ more))
    ∧ Forall2 (offer_of_link config) (kept ++ more)
        (Tecnoempleo.harvest config all_links seen jobs).
Proof.
  revert kept seen jobs.
  induction all_links as [|a rest IH]; intros kept seen jobs Hkept Hnd Hseen.
  { exists []. rewrite app_nil_r. done. }
  assert (∀ kept' seen' jobs',
             Forall2 (offer_of_link config) kept' jobs' →
             NoDup ((fun a : Node => default "" (get_attr a "href")) <$> kept') →
             (∀ h, h ∈ seen'
                   ↔ h ∈ (fun a : Node => default "" (get_attr a "href")) <$> kept') →
             kept' = kept →
             ∃ more, more `sublist_of` a :: rest
                     ∧ NoDup ((fun a : Node => default "" (get_attr a "href"))
                                <$> (kept ++ more))
                     ∧ Forall2 (offer_of_link config) (kept ++ more)
                         (Tecnoempleo.harvest config rest seen' jobs')) as Hskip.
  { intros kept' seen' jobs' Hk Hn Hs ->.
    destruct (IH _ _ _ Hk Hn Hs) as (more & Hsub & Hnd' & Hall).
    exists more. split_and!; [by apply sublist_cons|done|done]. }
  cbn [Tecnoempleo.harvest].
  destruct (PyStr.truthy (get_text a)) eqn:Ht; cbn [negb orb]; [|by eapply Hskip].
  destruct (String.length (get_text a) <? 15) eqn:Hlo; cbn [orb]; [by eapply Hskip|].
  destruct (80 <? String.length (get_text a)) eqn:Hhi; [by eapply Hskip|].
  case_bool_decide as Hnew; [by eapply Hskip|].
  destruct (existsb _ Tecnoempleo.exclude_patterns) eqn:Hex; [by eapply Hskip|].
  destruct (PyStr.endswith _ _); [by eapply Hskip|].
  apply existsb_false in Hex.
  destruct (extract_job_from_link_offer a (default "" (get_attr a "href")) Ht Hlo)
    as (job & Hjob & Htitle & Hlink & Hloc & Htags & Hsal & Hsrc).
  assert (PyStr.startswith "/" (default "" (get_attr a "href")) = true
          ∨ PyStr.startswith "https://www.tecnoempleo.com/"
              (default "" (get_attr a "href")) = true
          → ∃ more, more `sublist_of` a :: rest
                    ∧ NoDup ((fun a : Node => default "" (get_attr a "href"))
                               <$> (kept ++ more))
                    ∧ Forall2 (offer_of_link config) (kept ++ more)
                        (Tecnoempleo.harvest config rest (default "" (get_attr a "href") :: seen)
                           (jobs ++ [job]))) as Hkeep.
  { intros Hstart.
    destruct (IH (kept ++ [a]) (default "" (get_attr a "href") :: seen) (jobs ++ [job]))
      as (more & Hsub & Hnd' & Hall).
    - apply Forall2_app; [done|]. constructor; [|by constructor].
      apply Nat.ltb_ge in Hlo, Hhi. unfold offer_of_link. split_and!; try done; lia.
    - rewrite fmap_app. apply NoDup_app. split_and!; [done| |].
      + intros h Hh [->|[]%elem_of_nil]%elem_of_cons.
        apply Hnew. by apply Hseen.
      + apply NoDup_singleton.
    - intros h. rewrite fmap_app, elem_of_cons, elem_of_app, Hseen.
      cbn [fmap list_fmap]. rewrite list_elem_of_singleton. tauto.
    - exists (a :: more). rewrite <- app_assoc in Hnd', Hall.
      split_and!; [by apply sublist_skip|done|done]. }
  destruct (PyStr.startswith "https://www.tecnoempleo.com/"
              (default "" (get_attr a "href"))) eqn:Habs.
  - cbv iota. destruct (_ && _); [|by eapply Hskip].
    rewrite Hjob. apply Hkeep. by right.
  - destruct (PyStr.startswith "/" (default "" (get_attr a "href"))) eqn:Hrel; cbv iota;
      [|by eapply Hskip].
    destruct (_ && _); [|by eapply Hskip].
    rewrite Hjob. apply Hkeep. by left.
Qed.

End TecnoempleoLinks.

(** X12: the offers Tecnoempleo reads off a results page come, in page
    order, from links of the page with pairwise different addresses;
    each offer has its link's text as title, 15 to 80 characters long,
    an address on the site that holds none of the excluded words, the
    fixed tag "IT/Tech" and no salary; there are at most 30. *)
Theorem tecnoempleo_offers_from_links `{Base.Markup Node} `{Base.Urllib}
    (config : Config.SiteConfig) (html : string) :
  ∃ links,
    links `sublist_of`
      Base.find_all (Base.parse_html html) (Base.TagHasAttr "a" "href")
    ∧ NoDup ((fun a => default "" (Base.get_attr a "href")) <$> links)
    ∧ Forall2 (Reference.offer_of_link config) links
        (Tecnoempleo.parse_job_listings config html)
    ∧ length (Tecnoempleo.parse_job_listings config html) ≤ 30.
Proof.
  unfold Tecnoempleo.parse_job_listings.
  destruct (harvest_links config
              (Base.find_all (Base.parse_html html) (Base.TagHasAttr "a" "href"))
              [] [] []) as (more & Hsub & Hnd & Hall).
  { constructor. }
  { constructor. }
  { intros h. simpl. rewrite !elem_of_nil. tauto. }
  simpl in Hnd, Hall. exists (take 30 more). split_and!.
  - etrans; [apply sublist_take|done].
  - refine (sublist_NoDup _ _ Hnd _). apply fmap_sublist, sublist_take.
  - by apply Forall2_take.
  - rewrite length_take. lia.
Qed.

(** On a page with a menu entry, an offer, the same offer once more and
    a company page, one offer is read. *)
Example tecnoempleo_page_offers :
  @Tecnoempleo.parse_job_listings _
    (Fixture.markup (fun _ => Reference.tecnoempleo_page)) Fixture.urllib
    (Config.site_config (fun _ => None) "tecnoempleo") "<html>"
  = [ {| Base.job_title := "Desarrollador Python Madrid";
         Base.company := "Acme";
         Base.tags := "IT/Tech";
         Base.apply_link :=
           "https://www.tecnoempleo.com/desarrollador-python-madrid/rf-1234";
         Base.location := "Madrid";
         Base.salary := "N/A";
         Base.source := "N/A" |} ].
Proof. vm_compute. reflexivity. Qed.

(** ** What every offer carries *)
Section Titles.
Import Config Base Reference.
Context `{Markup Node} `{Network} `{Urllib}.
Variable config : SiteConfig.

Lemma Forall_omap {A B} (f : A → option B) (P : B → Prop) l :
  (∀ x y, f x = Some y → P y) → Forall P (omap f l).
Proof.
  intros Hf. induction l as [|x l IH]; simpl; [constructor|].
  destruct (f x) as [y|] eqn:Hx; [|done]. constructor; [by eapply Hf|done].
Qed.

Lemma linkedin_extract_titled card job :
  LinkedIn._extract_job config card = Some job → job_title job ≠ "".
Proof.
  unfold LinkedIn._extract_job.
  destruct (get_text <$> _) as [t|]; [|done].
  destruct t as [|c t]; [done|]. simpl. by intros [= <-].
Qed.

Lemma indeed_extract_titled card job :
  Indeed._extract_job config card = Some job → job_title job ≠ "".
Proof.
  unfold Indeed._extract_job.
  destruct (or_else (find card (TagClass "h2" "jobTitle")) _) as [e|]; [|done].
  destruct (find e (Tag "span")) as [span|].
  - destruct (get_text span) as [|c t]; [done|]. simpl. by intros [= <-].
  - destruct (get_text e) as [|c t]; [done|]. simpl. by intros [= <-].
Qed.

Lemma infojobs_extract_titled card job :
  InfoJobs._extract_job config card = Some job → job_title job ≠ "".
Proof.
  unfold InfoJobs._extract_job.
  destruct (or_else _ _) as [e|]; [|done].
  destruct (get_text e) as [|c t] eqn:Ht; [done|]. simpl. by intros [= <-].
Qed.

Lemma remoteok_extract_titled item job :
  RemoteOK._extract_job config item = Some job → job_title job ≠ "".
Proof.
  unfold RemoteOK._extract_job.
  destruct (default "" (RemoteOK.position item)) as [|c t]; [done|].
  simpl. by intros [= <-].
Qed.

Lemma tecnoempleo_titled html :
  Forall (fun job => job_title job ≠ "") (Tecnoempleo.parse_job_listings config html).
Proof.
  unfold Tecnoempleo.parse_job_listings.
  destruct (harvest_links config
              (find_all (parse_html html) (TagHasAttr "a" "href")) [] [] [])
    as (more & _ & _ & Hall); [constructor|constructor| |].
  { intros h. simpl. rewrite !elem_of_nil. tauto. }
  simpl in Hall. apply Forall_take.
  induction Hall as [|a job ls jobs Hoffer _ IH]; constructor; [|done].
  destruct Hoffer as (Ht & [Hlen _] & _). rewrite Ht.
  intros He. rewrite He in Hlen. simpl in Hlen. lia.
Qed.

Lemma scrape_titled (self : Scraper) keyword location :
  (∀ html, Forall (fun job => job_title job ≠ "") (parse_job_listings self html)) →
  Forall (fun job => job_title job ≠ "") (scrape self keyword location).
Proof.
  intros Hparse. unfold scrape.
  destruct (requires_auth (Base.config self) && negb (login self)); [constructor|].
  destruct (fetch_page _) as [html|]; [|constructor].
  destruct (negb (PyStr.truthy html)); [constructor|].
  apply Forall_fmap. eapply Forall_impl; [apply Hparse|]. done.
Qed.

End Titles.

(** X13: no adapter returns an offer without a title: a card, link or
    feed entry whose title is missing or empty gives no offer, in the
    four page parsers, in the feed parser and after the whole-adapter
    run. *)
Theorem offers_have_titles `{Base.Markup Node} `{Base.Network} `{Base.Urllib}
    (config : Config.SiteConfig) (html : string) (data : list RemoteOK.Item)
    (keyword location : string) :
  let titled := fun job => Base.job_title job ≠ "" in
  Forall titled (LinkedIn.parse_job_listings config html)
  ∧ Forall titled (Indeed.parse_job_listings config html)
  ∧ Forall titled (InfoJobs.parse_job_listings config html)
  ∧ Forall titled (Tecnoempleo.parse_job_listings config html)
  ∧ Forall titled (RemoteOK._parse_api_response config data keyword)
  ∧ Forall titled (RemoteOK.scrape config (Some data) keyword location)
  ∧ Forall titled (Base.scrape (LinkedIn.scraper config) keyword location)
  ∧ Forall titled (Base.scrape (Indeed.scraper config) keyword location)
  ∧ Forall titled (Base.scrape (InfoJobs.scraper config) keyword location)
  ∧ Forall titled (Base.scrape (Tecnoempleo.scraper config) keyword location).
Proof.
  intros titled.
  assert (∀ html, Forall titled (LinkedIn.parse_job_listings config html)) as Hl.
  { intros h. apply Forall_omap. apply linkedin_extract_titled. }
  assert (∀ html, Forall titled (Indeed.parse_job_listings config html)) as Hi.
  { intros h. apply Forall_omap. apply indeed_extract_titled. }
  assert (∀ html, Forall titled (InfoJobs.parse_job_listings config html)) as Hj.
  { intros h. apply Forall_omap. apply infojobs_extract_titled. }
  assert (Forall titled (RemoteOK._parse_api_response config data keyword)) as Hr.
  { rewrite parse_api_response_filter. apply Forall_take.
    apply Forall_forall. intros j [_ Hin]%list_elem_of_filter. revert j Hin.
    apply Forall_forall, Forall_omap. apply remoteok_extract_titled. }
  split_and!; try done.
  - apply tecnoempleo_titled.
  - unfold RemoteOK.scrape. apply Forall_fmap.
    eapply Forall_impl; [exact Hr|]. done.
  - by apply scrape_titled.
  - by apply scrape_titled.
  - by apply scrape_titled.
  - apply scrape_titled. apply tecnoempleo_titled.
Qed.

(** ** LinkedIn's links *)
Section LinkedInLinks.
Import Reference.

Lemma split_head sep s :
  ∃ seg segs,
    PyStr.split sep s = seg :: segs
    ∧ free_of sep seg
    ∧ (s = seg ∨ ∃ rest, s = seg +:+ String sep rest).
Proof.
  induction s as [|c s (seg & segs & Hsplit & Hfree & Hrest)].
  { exists "", []. split_and!; [done| |by left].
    unfold free_of. simpl. apply not_elem_of_nil. }
  simpl. case_bool_decide as Hc.
  - subst c. exists "", (PyStr.split sep s). split_and!; [done| |].
    + unfold free_of. simpl. apply not_elem_of_nil.
    + right. by exists s.
  - rewrite Hsplit. exists (String c seg), segs. split_and!; [done| |].
    + unfold free_of in *. simpl. by apply not_elem_of_cons.
    + destruct Hrest as [->|[rest ->]]; [by left|right]. by exists rest.
Qed.

End LinkedInLinks.

(** X14: the address of a LinkedIn offer is "N/A" when the card holds
    no link; for a link whose address begins with "http" it is that
    address up to its first question mark, so that it holds none; any
    other address is joined to the site's base address as it is. *)
Theorem linkedin_link_without_query `{Base.Markup Node} `{Base.Network}
    `{Base.Urllib} (config : Config.SiteConfig) (card : Node)
    (job : Base.JobOffer) :
  LinkedIn._extract_job config card = Some job →
  match Base.or_else
          (Base.find card (Base.TagClass "a" "base-card__full-link"))
          (Base.find card (Base.TagHasAttr "a" "href")) with
  | None => Base.apply_link job = "N/A"
  | Some a =>
      let href := default "" (Base.get_attr a "href") in
      if PyStr.startswith "http" href
      then Reference.free_of "?"%char (Base.apply_link job)
           ∧ (href = Base.apply_link job
              ∨ ∃ query, href = Base.apply_link job +:+ String "?"%char query)
      else Base.apply_link job = Base.urljoin (Config.base_url config) href
  end.
Proof.
  intros Hjob.
  assert (Base.apply_link job
          = match Base.or_else
                    (Base.find card (Base.TagClass "a" "base-card__full-link"))
                    (Base.find card (Base.TagHasAttr "a" "href")) with
            | None => "N/A"
            | Some a =>
                if PyStr.startswith "http" (default "" (Base.get_attr a "href"))
                then default ""
                       (head (PyStr.split "?"%char
                                (default "" (Base.get_attr a "href"))))
                else Base.urljoin (Config.base_url config)
                       (default "" (Base.get_attr a "href"))
            end) as ->.
  { unfold LinkedIn._extract_job in Hjob.
    destruct (Base.get_text <$> _) as [t|]; [|done].
    destruct (negb (PyStr.truthy t)); [done|]. by injection Hjob as <-. }
  destruct (Base.or_else
              (Base.find card (Base.TagClass "a" "base-card__full-link")) _)
    as [a|]; [|done].
  cbv zeta. destruct (PyStr.startswith "http" _); [|done].
  destruct (split_head "?"%char (default "" (Base.get_attr a "href")))
    as (seg & segs & -> & Hfree & Hrest).
  done.
Qed.

Lemma linkedin_link_without_query_witness :
  Reference.free_of "?"%char "https://www.linkedin.com/jobs/view/1"
  ∧ ("https://www.linkedin.com/jobs/view/1?trk=abc"
       = "https://www.linkedin.com/jobs/view/1"
     ∨ ∃ query, "https://www.linkedin.com/jobs/view/1?trk=abc"
                = "https://www.linkedin.com/jobs/view/1" +:+ String "?"%char query).
Proof.
  exact (@linkedin_link_without_query _ (Fixture.markup (fun _ => Fixture.page))
           Fixture.network Fixture.urllib Fixture.linkedin_config
           Fixture.card1_node
           {| Base.job_title := "Python Developer"; Base.company := "Acme";
              Base.tags := "N/A";
              Base.apply_link := "https://www.linkedin.com/jobs/view/1";
              Base.location := "Madrid"; Base.salary := "N/A";
              Base.source := "N/A" |}
           eq_refl).
Defined.

(** ** The keyword of RemoteOK *)
Section RemoteOKKeyword.
Import Config Base Reference.
Variable config : SiteConfig.

Lemma lower_empty s : PyStr.lower s = "" ↔ s = "".
Proof. by destruct s. Qed.

Lemma parse_api_response_case data keyword keyword' :
  PyStr.lower keyword = PyStr.lower keyword' →
  RemoteOK._parse_api_response config data keyword
  = RemoteOK._parse_api_response config data keyword'.
Proof.
  intros Hk. unfold RemoteOK._parse_api_response.
  rewrite <- (lower_truthy keyword), <- (lower_truthy keyword'), Hk. done.
Qed.

End RemoteOKKeyword.

(** X15: RemoteOK's whole-adapter run does not depend on the letter
    case of the keyword, and not at all on the location it is given. *)
Theorem remoteok_scrape_keyword_case (config : Config.SiteConfig)
    (response : option (list RemoteOK.Item))
    (keyword keyword' location location' : string) :
  PyStr.lower keyword = PyStr.lower keyword' →
  RemoteOK.scrape config response keyword location
  = RemoteOK.scrape config response keyword' location'.
Proof.
  intros Hk. unfold RemoteOK.scrape. destruct response as [data|]; [|done].
  by rewrite (parse_api_response_case config data keyword keyword').
Qed.

Lemma remoteok_scrape_keyword_case_witness :
  RemoteOK.scrape (Config.site_config (fun _ => None) "remoteok")
    (Some Reference.example_feed) "Python" "Madrid"
  = RemoteOK.scrape (Config.site_config (fun _ => None) "remoteok")
      (Some Reference.example_feed) "PYTHON" "".
Proof.
  apply (remoteok_scrape_keyword_case
           (Config.site_config (fun _ => None) "remoteok")
           (Some Reference.example_feed) "Python" "PYTHON" "Madrid" "").
  vm_compute. reflexivity.
Defined.

(** ** The command line tool *)
Section CommandLine.
Import Backend Cli Reference.

Lemma indexed_cons k site_name rest :
  indexed k (site_name :: rest) = (k, site_name) :: indexed (S k) rest.
Proof.
  unfold indexed. rewrite imap_cons, Nat.add_0_r. f_equal.
  apply imap_ext. intros i x _. simpl. f_equal. lia.
Qed.

Lemma length_indexed k sites : length (indexed k sites) = length sites.
Proof. apply length_imap. Qed.

Lemma run_scrapers_loop_spec adapter final k sites keyword location all_jobs slept :
  run_scrapers_loop adapter final k sites keyword location all_jobs slept
  = (all_jobs
       ++ mjoin (omap (fun p => collected adapter keyword location p.1 p.2)
                      (indexed k sites)),
     slept
       + length (filter (fun p => Some p.2 ≠ final
                                  ∧ is_Some (collected adapter keyword location p.1 p.2))
                        (indexed k sites))).
Proof.
  revert k all_jobs slept.
  induction sites as [|site_name rest IH]; intros k all_jobs slept.
  { simpl. by rewrite app_nil_r, Nat.add_0_r. }
  rewrite indexed_cons, filter_cons. cbn [run_scrapers_loop omap list_omap fst snd].
  destruct (collected adapter keyword location k site_name) as [jobs|] eqn:Hc.
  - unfold collected in Hc.
    destruct (PyDict.get SCRAPERS site_name) as [scraper_class|]; [|done].
    destruct (adapter k scraper_class keyword location) as [msg|msg|jobs'];
      [done|done|]. injection Hc as ->.
    rewrite IH. cbn [mjoin list_join]. rewrite <- app_assoc. f_equal.
    case_bool_decide as Hl.
    + rewrite decide_True by (split; [done|by eexists]). simpl. lia.
    + rewrite decide_False by (by intros [? _]). lia.
  - rewrite decide_False by (by intros [_ []]).
    unfold collected in Hc.
    destruct (PyDict.get SCRAPERS site_name) as [scraper_class|]; [|apply IH].
    destruct (adapter k scraper_class keyword location) as [msg|msg|jobs'];
      [apply IH|apply IH|done].
Qed.

Lemma filter_not_last (sites : list string) :
  length (filter (fun s => Some s ≠ last sites) sites) ≤ length sites - 1.
Proof.
  destruct sites as [|s sites _] using rev_ind; [done|].
  rewrite last_snoc, filter_app, !length_app. simpl.
  rewrite filter_cons, decide_False by (intros Hne; by apply Hne). simpl.
  pose proof (length_filter (fun s0 => Some s0 ≠ Some s) sites). lia.
Qed.

Lemma pauses_bound adapter keyword location final k sites :
  length (filter (fun p => Some p.2 ≠ final
                           ∧ is_Some (collected adapter keyword location p.1 p.2))
                 (indexed k sites))
  ≤ length (filter (fun s => Some s ≠ final) sites).
Proof.
  revert k. induction sites as [|s sites IH]; intros k; [done|].
  rewrite indexed_cons, !filter_cons. cbn [fst snd]. specialize (IH (S k)).
  destruct (decide (Some s ≠ final)) as [Hs|Hs].
  - destruct (decide (_ ∧ _)); simpl; lia.
  - rewrite decide_False by (by intros [? _]). done.
Qed.

Lemma pauses_all adapter keyword location final k sites :
  Forall (fun p => is_Some (collected adapter keyword location p.1 p.2))
         (indexed k sites) →
  length (filter (fun p => Some p.2 ≠ final
                           ∧ is_Some (collected adapter keyword location p.1 p.2))
                 (indexed k sites))
  = length (filter (fun s => Some s ≠ final) sites).
Proof.
  revert k. induction sites as [|s sites IH]; intros k; [done|].
  rewrite indexed_cons, !filter_cons. cbn [fst snd].
  intros [Hs Hall]%Forall_cons. specialize (IH (S k) Hall). cbn [fst snd] in Hs.
  destruct (decide (Some s ≠ final)) as [Hne|Hne].
  - rewrite decide_True by done. simpl. by rewrite IH.
  - rewrite decide_False by (by intros [? _]). done.
Qed.

Lemma filter_Forall_id {A} (P : A → Prop) `{∀ x, Decision (P x)} l :
  Forall P l → filter P l = l.
Proof.
  induction 1 as [|x l Hx _ IH]; [done|].
  by rewrite filter_cons, decide_True, IH.
Qed.

Lemma filter_not_last_NoDup (sites : list string) :
  NoDup sites →
  length (filter (fun s => Some s ≠ last sites) sites) = length sites - 1.
Proof.
  destruct sites as [|s sites _] using rev_ind; [done|].
  rewrite last_snoc. intros [Hnd [Hnot _]]%NoDup_app.
  rewrite filter_app, !length_app. simpl.
  rewrite filter_cons, decide_False by (intros Hne; by apply Hne). simpl.
  rewrite filter_Forall_id; [lia|].
  apply Forall_forall. intros x Hx [= ->]. apply (Hnot s Hx). by left.
Qed.

End CommandLine.

(** X16: the command line tool returns the offers of the sites it is
    given, one site after the other in the order given, those of a site
    that is unknown or whose scraper raises being left out and nothing
    being merged or dropped; it pauses at most once per site but the
    last, and exactly so when the names differ and every site answers. *)
Theorem run_scrapers_collects (adapter : Backend.Adapter)
    (sites : list string) (keyword location : string) :
  let got := fun p => Reference.collected adapter keyword location p.1 p.2 in
  (Cli.run_scrapers adapter sites keyword location).1
    = mjoin (omap got (Reference.indexed 0 sites))
  ∧ (Cli.run_scrapers adapter sites keyword location).2
    = length (filter (fun p => Some p.2 ≠ last sites ∧ is_Some (got p))
                     (Reference.indexed 0 sites))
  ∧ (Cli.run_scrapers adapter sites keyword location).2 ≤ length sites - 1
  ∧ (NoDup sites → Forall (fun p => is_Some (got p)) (Reference.indexed 0 sites) →
     (Cli.run_scrapers adapter sites keyword location).2 = length sites - 1).
Proof.
  intros got. unfold Cli.run_scrapers. rewrite run_scrapers_loop_spec.
  cbn [fst snd]. split_and!; [done|done| |].
  - etrans; [apply pauses_bound|apply filter_not_last].
  - intros Hnd Hall. simpl. rewrite pauses_all by done.
    by apply filter_not_last_NoDup.
Qed.

Lemma run_scrapers_collects_witness :
  (Cli.run_scrapers Reference.cli_adapter ["indeed"; "linkedin"; "nowhere"; "remoteok"]
     "python" "").1
  = take 1 Reference.example_offers ++ take 1 Reference.example_offers
  ∧ (Cli.run_scrapers Reference.cli_adapter ["indeed"; "remoteok"] "python" "").2 = 1.
Proof.
  split.
  - rewrite (proj1 (run_scrapers_collects Reference.cli_adapter
                      ["indeed"; "linkedin"; "nowhere"; "remoteok"] "python" "")).
    vm_compute. reflexivity.
  - apply (proj2 (proj2 (proj2 (run_scrapers_collects Reference.cli_adapter
                                  ["indeed"; "remoteok"] "python" "")))).
    + apply (bool_decide_unpack _). vm_compute. exact I.
    + repeat (apply Forall_cons; split; [vm_compute; eauto|]). apply Forall_nil.
      done.
Defined.

(** A site met twice: when its name is also the last of the list, no
    pause follows it. *)
Example run_scrapers_repeated_site :
  (Cli.run_scrapers Reference.cli_adapter ["indeed"; "remoteok"; "indeed"]
     "python" "").2 = 1.
Proof. vm_compute. reflexivity. Qed.

(** ** The sites the command line keeps *)
Section RequestedSites.
Import Backend Cli Reference.

Lemma filter_fmap_skip {A B} (f : A → B) (P : B → Prop) (Q : A → Prop)
    `{∀ y, Decision (P y)} `{∀ x, Decision (Q x)} (l : list A) :
  (∀ x, ¬ Q x → ¬ P (f x)) →
  filter P (f <$> l) = filter P (f <$> filter Q l).
Proof.
  intros Hskip. induction l as [|x l IH]; [done|].
  rewrite fmap_cons, (filter_cons Q). destruct (decide (Q x)) as [Hq|Hq].
  - rewrite fmap_cons, !filter_cons, IH. done.
  - rewrite filter_cons, decide_False by by apply Hskip. done.
Qed.

Lemma mem_known site : PyDict.mem site Cli.SCRAPERS ↔ known_site site.
Proof. unfold PyDict.mem, known_site. apply bool_decide_spec. Qed.

Lemma valid_sites_site_list sites :
  valid_sites (requested_sites false sites)
  = filter known_site (site_list_of sites).
Proof.
  unfold valid_sites, requested_sites, site_list_of.
  rewrite (list_filter_iff _ known_site) by apply mem_known.
  apply filter_fmap_skip.
  intros s Hs [cls Hcls]. destruct (PyStr.strip s); [|by apply Hs].
  vm_compute in Hcls. discriminate.
Qed.

End RequestedSites.

(** X17: the command line tool and the service read a list of sites
    the same way (split on commas, trimmed, in lower case); the tool
    keeps the names it knows and drops the others, where the service
    refuses the whole request: its valid sites are the known names of
    the service's list, and the service's list itself for every list
    the service accepts. *)
Theorem cli_sites_like_service (sites : string) :
  Cli.valid_sites (Cli.requested_sites false sites)
    = filter Reference.known_site (Backend.site_list_of sites)
  ∧ (∀ now keyword location db started task db',
       Backend.start_scrape now sites keyword location db
         = (inr (started, task), db') →
       Cli.valid_sites (Cli.requested_sites false sites) = Backend.task_sites task
       ∧ Cli.valid_sites (Cli.requested_sites false sites) ≠ [])
  ∧ (Cli.valid_sites (Cli.requested_sites false sites) = [] →
     ∀ now keyword location db,
       ∃ e, Backend.start_scrape now sites keyword location db = (inl e, db)).
Proof.
  split_and!.
  - apply valid_sites_site_list.
  - intros now keyword location db started task db' Hstart.
    rewrite valid_sites_site_list.
    pose proof (start_scrape_accepted_inv _ _ _ _ _ _ _ _ Hstart) as [Hne Hknown].
    assert (Backend.task_sites task = Backend.site_list_of sites) as ->.
    { unfold Backend.start_scrape in Hstart.
      destruct (Backend.site_list_of sites) as [|s l]; [done|].
      destruct (filter _ (s :: l)); [|done].
      destruct (Database.insert_log _ _ _ _ _). by injection Hstart as <- <- <-. }
    by rewrite filter_Forall_id.
  - rewrite valid_sites_site_list. intros Hnone now keyword location db.
    unfold Backend.start_scrape.
    destruct (Backend.site_list_of sites) as [|s l] eqn:Hl; [by eexists|].
    destruct (filter (fun s0 => negb (PyDict.mem s0 Backend.SCRAPERS)) (s :: l))
      as [|bad rest] eqn:Hbad; [|by eexists].
    exfalso.
    assert (s ∈ filter Reference.known_site (s :: l)) as Hin;
      [|by rewrite Hnone in Hin; apply elem_of_nil in Hin].
    apply list_elem_of_filter. split; [|by left].
    destruct (decide (Reference.known_site s)) as [|Hunknown]; [done|].
    assert (s ∈ filter (fun s0 => negb (PyDict.mem s0 Backend.SCRAPERS)) (s :: l))
      as Hs; [|by rewrite Hbad in Hs; apply elem_of_nil in Hs].
    apply list_elem_of_filter. split; [|by left].
    unfold PyDict.mem. rewrite bool_decide_eq_false_2 by done. done.
Qed.

Lemma cli_sites_like_service_witness :
  Cli.valid_sites (Cli.requested_sites false " RemoteOK , nowhere,,indeed")
  = ["remoteok"; "indeed"]
  ∧ ∃ e, Backend.start_scrape 100 "nowhere, " "python" "" Database.empty
         = (inl e, Database.empty).
Proof.
  split.
  - rewrite (proj1 (cli_sites_like_service " RemoteOK , nowhere,,indeed")).
    vm_compute. reflexivity.
  - apply (proj2 (proj2 (cli_sites_like_service "nowhere, "))).
    vm_compute. reflexivity.
Defined.

(** ** The summary of the command line tool *)
Section Summary.
Import Backend Cli Reference.

Lemma count_sources_foldl jobs d :
  count_sources jobs d = foldl bump d (Base.source <$> jobs).
Proof. revert d. induction jobs as [|job jobs IH]; intros d; [done|]. apply IH. Qed.

End Summary.

(** X18: the counts by source that the summary builds hold each
    source of the offers once, with the number of offers that carry it,
    and add up to the total the summary prints. *)
Theorem count_sources_total (jobs : list Base.JobOffer) :
  Cli.count_sources jobs [] = Reference.tally (Base.source <$> jobs)
  ∧ NoDup (Cli.count_sources jobs []).*1
  ∧ (∀ source, source ∈ (Cli.count_sources jobs []).*1
               ↔ ∃ job, job ∈ jobs ∧ Base.source job = source)
  ∧ sum_list (Cli.count_sources jobs []).*2 = length jobs.
Proof.
  rewrite count_sources_foldl, (foldl_bump_tally []). simpl. split_and!.
  - done.
  - apply tally_keys_NoDup.
  - intros source. rewrite list_elem_of_fmap. split.
    + intros ([s n] & -> & [Hin _]%elem_of_tally). simpl.
      apply list_elem_of_fmap in Hin as (job & -> & Hjob). eauto.
    + intros (job & Hjob & <-).
      exists (Base.source job, Reference.occurrences (Base.source job) (Base.source <$> jobs)).
      split; [done|]. apply elem_of_tally. split; [|done].
      apply list_elem_of_fmap. eauto.
  - rewrite sum_tally. by rewrite length_fmap.
Qed.

(** ** The sites on offer *)
Section Sites.
Import Models Database Backend Reference.

Lemma get_sites_ids getenv :
  site_id <$> get_sites getenv
  = ["remoteok"; "infojobs"; "linkedin"; "indeed"; "tecnoempleo"].
Proof. reflexivity. Qed.

Lemma start_scrape_one_site now site keyword location db :
  site ∈ ["remoteok"; "infojobs"; "linkedin"; "indeed"; "tecnoempleo"] →
  ∃ started task db',
    start_scrape now site keyword location db = (inr (started, task), db')
    ∧ Backend.sites started = [site] ∧ task_sites task = [site]
    ∧ task_log_id task = log_id started.
Proof.
  intros Hin. unfold start_scrape.
  assert (site_list_of site = [site]) as ->.
  { repeat (apply elem_of_cons in Hin as [->|Hin]; [by vm_compute|]).
    by apply elem_of_nil in Hin. }
  assert (filter (fun s => negb (PyDict.mem s SCRAPERS)) [site] = []) as ->.
  { repeat (apply elem_of_cons in Hin as [->|Hin]; [by vm_compute|]).
    by apply elem_of_nil in Hin. }
  destruct (insert_log now keyword location (PyStr.join "," [site]) db)
    as [log db'] eqn:Hlog.
  by eexists _, _, _.
Qed.

End Sites.

(** X19: the sites the service lists are the five it has a scraper
    for, whatever the environment holds, and a request for any one of
    them by its [id] is accepted and scheduled for that site alone; the
    two sites listed as requiring a login are InfoJobs and LinkedIn. *)
Theorem listed_sites_can_be_scraped (getenv : string → option string)
    (site : Backend.Site) now keyword location db :
  site ∈ Backend.get_sites getenv →
  Reference.known_site (Backend.site_id site)
  ∧ (Backend.site_requires_auth site = true
     ↔ Backend.site_id site = "infojobs" ∨ Backend.site_id site = "linkedin")
  ∧ ∃ started task db',
      Backend.start_scrape now (Backend.site_id site) keyword location db
        = (inr (started, task), db')
      ∧ Backend.sites started = [Backend.site_id site]
      ∧ Backend.task_sites task = [Backend.site_id site]
      ∧ Backend.task_log_id task = Backend.log_id started.
Proof.
  intros Hin.
  assert (Backend.site_id site
            ∈ ["remoteok"; "infojobs"; "linkedin"; "indeed"; "tecnoempleo"]) as Hid.
  { rewrite <- (get_sites_ids getenv). apply list_elem_of_fmap. eauto. }
  split_and!.
  - repeat (apply elem_of_cons in Hid as [Heq|Hid]; [rewrite Heq; vm_compute; eauto|]).
    by apply elem_of_nil in Hid.
  - unfold Backend.get_sites, Config.SITES_CONFIG in Hin.
    rewrite !fmap_cons in Hin.
    repeat (apply elem_of_cons in Hin as [->|Hin];
            [cbn [Backend.site_id Backend.site_requires_auth fst snd
                  Config.requires_auth];
             split; [try discriminate; auto|intros [?|?]; try discriminate; done]|]).
    by apply elem_of_nil in Hin.
  - by apply start_scrape_one_site.
Qed.

Lemma listed_sites_can_be_scraped_witness :
  ∃ started task db',
    Backend.start_scrape 100 "indeed" "python" "" Database.empty
      = (inr (started, task), db')
    ∧ Backend.sites started = ["indeed"]
    ∧ Backend.task_sites task = ["indeed"]
    ∧ Backend.task_log_id task = Backend.log_id started.
Proof.
  apply (listed_sites_can_be_scraped (fun _ => None)
           {| Backend.site_id := "indeed"; Backend.site_name := "Indeed";
              Backend.site_requires_auth := false |}
           100 "python" "" Database.empty).
  apply list_elem_of_lookup. exists 3. reflexivity.
Defined.

(** ** No offer is lost, and none is stored again *)
Section EveryOffer.
Import Models Database Backend Reference.
Variable autoflush : bool.
Variable adapter : Adapter.

Lemma links_jobs_rows now db link :
  link ∈ links (jobs db) → link ∈ links (rows now db).
Proof.
  unfold rows, flush. cbn [jobs]. rewrite links_app, elem_of_app. by left.
Qed.

Lemma add_jobs_complete now offers db total job :
  job ∈ offers →
  Base.apply_link job
    ∈ links (rows now (add_jobs autoflush now offers db total).1).
Proof.
  revert db total. induction offers as [|a rest IH]; intros db total Hin.
  { by apply elem_of_nil in Hin. }
  cbn [add_jobs].
  destruct (first_job_by_link autoflush now (Base.apply_link a) db)
    as [existing db1] eqn:Hq.
  pose proof (first_job_by_link_db autoflush now (Base.apply_link a) db) as Hdb1.
  rewrite Hq in Hdb1. cbn [snd] in Hdb1. destruct Hdb1 as (Hrows & _).
  assert (existing = head (filter (fun j => Job.apply_link j = Base.apply_link a)
                                  (jobs db1))) as Hex.
  { unfold first_job_by_link in Hq. by injection Hq as <- <-. }
  pose proof (head_filter_link (Base.apply_link a) (jobs db1)) as Hhead.
  rewrite <- Hex in Hhead.
  destruct existing as [row|].
  - apply elem_of_cons in Hin as [->|Hin]; [|by apply IH].
    destruct (add_jobs autoflush now rest db1 total) as [db' total'] eqn:Hrun.
    apply add_jobs_rows in Hrun as (new & Hr & _). cbn [fst].
    rewrite Hr, links_app, elem_of_app. left. by apply links_jobs_rows.
  - apply elem_of_cons in Hin as [->|Hin]; [|by apply IH].
    destruct (add_jobs autoflush now rest (add a db1) (total + 1))
      as [db' total'] eqn:Hrun.
    apply add_jobs_rows in Hrun as (new & Hr & _). cbn [fst].
    rewrite Hr, rows_add, !links_app, !elem_of_app. left. right.
    apply list_elem_of_singleton. done.
Qed.

Lemma sites_loop_complete now sites keyword location :
  ∀ k db total errors db' total' errors',
    sites_loop autoflush adapter now k sites keyword location db total errors
      = inl (db', total', errors') →
    ∀ i site_name scraper_class offers job,
      sites !! i = Some site_name →
      PyDict.get SCRAPERS site_name = Some scraper_class →
      adapter (k + i) scraper_class keyword location = Scraped offers →
      job ∈ offers →
      Base.apply_link job ∈ links (rows now db').
Proof.
  induction sites as [|s rest IH];
    intros k db total errors db' total' errors' Hloop i site_name cls offers job
           Hi Hcls Hout Hjob; [done|].
  cbn [sites_loop] in Hloop.
  assert (∀ i', i = S i' → adapter (S k + i') cls keyword location = Scraped offers)
    as Hshift.
  { intros i' ->. by rewrite <- Nat.add_succ_comm in Hout. }
  destruct (PyDict.get SCRAPERS s) as [cls0|] eqn:Hs.
  2:{ destruct i as [|i']; [simpl in Hi; injection Hi as ->; congruence|].
      eapply IH; [exact Hloop|exact Hi|exact Hcls|by apply Hshift|done]. }
  destruct (adapter k cls0 keyword location) as [msg|msg|jobs0] eqn:Hk; [done| |].
  - destruct i as [|i'].
    { simpl in Hi. injection Hi as ->. rewrite Nat.add_0_r in Hout. congruence. }
    eapply IH; [exact Hloop|exact Hi|exact Hcls|by apply Hshift|done].
  - destruct (add_jobs autoflush now jobs0 db total) as [db1 total1] eqn:Hadd.
    destruct i as [|i'].
    2:{ eapply IH; [exact Hloop|exact Hi|exact Hcls|by apply Hshift|done]. }
    simpl in Hi. injection Hi as ->. rewrite Nat.add_0_r in Hout.
    assert (offers = jobs0) as -> by congruence.
    pose proof (add_jobs_complete now jobs0 db total job Hjob) as Hin.
    rewrite Hadd in Hin. cbn [fst] in Hin.
    destruct (sites_loop_spec autoflush adapter now rest keyword location
                (S k) (commit now db1) total1 errors) as [new Hnew].
    rewrite Hloop in Hnew. destruct Hnew as (-> & _).
    unfold commit. rewrite rows_flush, links_app, elem_of_app. by left.
Qed.

Lemma first_job_by_link_known now link db :
  added db = [] → link ∈ links (jobs db) →
  ∃ row db1,
    first_job_by_link autoflush now link db = (Some row, db1)
    ∧ jobs db1 = jobs db ∧ added db1 = [].
Proof.
  intros Ha Hin. unfold first_job_by_link.
  assert (jobs (if autoflush then flush now db else db) = jobs db
          ∧ added (if autoflush then flush now db else db) = []) as [Hj Hadd].
  { destruct autoflush; [|done]. unfold flush. cbn [jobs added].
    rewrite Ha. simpl. by rewrite app_nil_r. }
  rewrite Hj.
  pose proof (head_filter_link link (jobs db)) as Hhead.
  destruct (head (filter _ (jobs db))) as [row|]; [|done].
  by exists row, (if autoflush then flush now db else db).
Qed.

Lemma add_jobs_known now offers db total :
  added db = [] →
  Forall (fun job => Base.apply_link job ∈ links (jobs db)) offers →
  ∃ db', add_jobs autoflush now offers db total = (db', total)
         ∧ jobs db' = jobs db ∧ added db' = [].
Proof.
  revert db. induction offers as [|a rest IH]; intros db Ha Hall.
  { by exists db. }
  apply Forall_cons in Hall as [Hin Hall]. cbn [add_jobs].
  destruct (first_job_by_link_known now (Base.apply_link a) db Ha Hin)
    as (row & db1 & -> & Hj & Hadd).
  destruct (IH db1 Hadd) as (db' & Hrun & Hj' & Hadd').
  { by rewrite Hj. }
  exists db'. by rewrite Hrun, Hj'.
Qed.

Lemma sites_loop_known now sites keyword location :
  ∀ k db total errors,
    added db = [] →
    (∀ i site_name scraper_class offers job,
       sites !! i = Some site_name →
       PyDict.get SCRAPERS site_name = Some scraper_class →
       adapter (k + i) scraper_class keyword location = Scraped offers →
       job ∈ offers →
       Base.apply_link job ∈ links (jobs db)) →
    match sites_loop autoflush adapter now k sites keyword location
            db total errors with
    | inl (db', total', _) => jobs db' = jobs db ∧ added db' = [] ∧ total' = total
    | inr (db', _) => jobs db' = jobs db ∧ added db' = []
    end.
Proof.
  induction sites as [|s rest IH]; intros k db total errors Ha Hknown; [done|].
  cbn [sites_loop].
  assert (∀ db1, jobs db1 = jobs db →
            ∀ i site_name scraper_class offers job,
              rest !! i = Some site_name →
              PyDict.get SCRAPERS site_name = Some scraper_class →
              adapter (S k + i) scraper_class keyword location = Scraped offers →
              job ∈ offers →
              Base.apply_link job ∈ links (jobs db1)) as Hrest.
  { intros db1 -> i site_name cls offers job Hi Hcls Hout Hjob.
    apply (Hknown (S i) site_name cls offers job); [done|done| |done].
    by rewrite <- Nat.add_succ_comm. }
  destruct (PyDict.get SCRAPERS s) as [cls0|] eqn:Hs;
    [|apply IH; [done|by apply Hrest]].
  destruct (adapter k cls0 keyword location) as [msg|msg|jobs0] eqn:Hk;
    [done|apply IH; [done|by apply Hrest]|].
  destruct (add_jobs_known now jobs0 db total Ha) as (db1 & -> & Hj & Hadd).
  { apply Forall_forall. intros job Hjob.
    apply (Hknown 0 s cls0 jobs0 job); [done|done| |done].
    by rewrite Nat.add_0_r. }
  assert (jobs (commit now db1) = jobs db ∧ added (commit now db1) = [])
    as [Hjc Hac].
  { unfold commit, flush. cbn [jobs added]. rewrite Hadd. simpl.
    by rewrite app_nil_r. }
  specialize (IH (S k) (commit now db1) total errors Hac (Hrest _ Hjc)).
  destruct (sites_loop _ _ _ _ _ _ _ _ _ _) as [[[db' total'] errors']|[db' msg]].
  - by rewrite <- Hjc.
  - by rewrite <- Hjc.
Qed.

Lemma run_scrape_complete now log_id sites keyword location db log :
  first_log_by_id log_id db = Some log →
  first_init_raise adapter keyword location 0 sites = None →
  ∀ i site_name scraper_class offers job,
    sites !! i = Some site_name →
    PyDict.get SCRAPERS site_name = Some scraper_class →
    adapter i scraper_class keyword location = Scraped offers →
    job ∈ offers →
    Base.apply_link job
      ∈ links (jobs (run_scrape autoflush adapter now log_id sites keyword
                       location db)).
Proof.
  intros Hlog Hinit i site_name cls offers job Hi Hcls Hout Hjob.
  unfold run_scrape, run_scrape_begin. rewrite Hlog. unfold run_scrape_work.
  pose proof (sites_loop_outcome autoflush adapter now sites keyword location 0
                (commit now (update_log log_id set_running db)) 0 []) as Hr.
  rewrite Hinit in Hr. destruct Hr as [[[db' total'] errors'] Hloop].
  rewrite Hloop.
  change (jobs (commit now (update_log log_id
                              (set_completed now total' errors') db')))
    with (rows now db').
  by eapply (sites_loop_complete now sites keyword location 0 _ _ _ _ _ _ Hloop).
Qed.

Lemma run_scrape_known now log_id sites keyword location db log :
  first_log_by_id log_id db = Some log →
  added db = [] →
  (∀ i site_name scraper_class offers job,
     sites !! i = Some site_name →
     PyDict.get SCRAPERS site_name = Some scraper_class →
     adapter i scraper_class keyword location = Scraped offers →
     job ∈ offers →
     Base.apply_link job ∈ links (jobs db)) →
  jobs (run_scrape autoflush adapter now log_id sites keyword location db)
  = jobs db.
Proof.
  intros Hlog Ha Hknown.
  unfold run_scrape, run_scrape_begin. rewrite Hlog. unfold run_scrape_work.
  assert (jobs (commit now (update_log log_id set_running db)) = jobs db
          ∧ added (commit now (update_log log_id set_running db)) = [])
    as [Hjb Hab].
  { unfold commit, flush, update_log. cbn [jobs added]. rewrite Ha. simpl.
    by rewrite app_nil_r. }
  pose proof (sites_loop_known now sites keyword location 0
                (commit now (update_log log_id set_running db)) 0 [] Hab) as Hloop.
  destruct (sites_loop _ _ _ _ _ _ _ _ _ _) as [[[db' total'] errors']|[db' msg]].
  - destruct Hloop as (Hj & Hadd & _); [by rewrite Hjb|].
    unfold commit, flush, update_log. cbn [jobs added]. rewrite Hadd. simpl.
    by rewrite app_nil_r, Hj, Hjb.
  - destruct Hloop as (Hj & Hadd); [by rewrite Hjb|].
    unfold commit, flush, update_log. cbn [jobs added]. rewrite Hadd. simpl.
    by rewrite app_nil_r, Hj, Hjb.
Qed.

End EveryOffer.

(** X20: no offer is lost by a run that ends [completed]: for every
    offer returned by the scraper of one of its sites, the [jobs] table
    holds a row with the offer's [apply_link] afterwards (the row added
    for it, or the one that was there first). *)
Theorem completed_run_stores_every_link autoflush adapter now log_id sites
    keyword location db log :
  Database.first_log_by_id log_id db = Some log →
  Reference.first_init_raise adapter keyword location 0 sites = None →
  let db' :=
    Backend.run_scrape autoflush adapter now log_id sites keyword location db in
  ∀ i site_name scraper_class offers job,
    sites !! i = Some site_name →
    PyDict.get Backend.SCRAPERS site_name = Some scraper_class →
    adapter i scraper_class keyword location = Backend.Scraped offers →
    job ∈ offers →
    ∃ row, row ∈ Database.jobs db'
           ∧ Models.Job.apply_link row = Base.apply_link job.
Proof.
  intros Hlog Hinit db' i site_name cls offers job Hi Hcls Hout Hjob.
  pose proof (run_scrape_complete autoflush adapter now log_id sites keyword
                location db log Hlog Hinit i site_name cls offers job
                Hi Hcls Hout Hjob) as Hin.
  apply list_elem_of_fmap in Hin as (row & Heq & Hrow). eauto.
Qed.

Lemma completed_run_stores_every_link_witness :
  ∃ row,
    row ∈ Database.jobs
            (Backend.run_scrape true Reference.example_adapter 120 1
               ["remoteok"; "indeed"] "python" "" Reference.example_log_db)
    ∧ Models.Job.apply_link row = "https://es.indeed.com/job/2".
Proof.
  apply (completed_run_stores_every_link true Reference.example_adapter 120 1
           ["remoteok"; "indeed"] "python" "" Reference.example_log_db
           _ eq_refl eq_refl 1 "indeed" Backend.IndeedScraper
           Reference.example_offers
           (Base.set_source "Indeed"
              (Base.mkJobOffer "Data Engineer" "Globex" "N/A"
                 "https://es.indeed.com/job/2" "N/A" "N/A"))
           eq_refl eq_refl eq_refl).
  apply list_elem_of_lookup. exists 2. reflexivity.
Defined.

(** X21: a run that ends [completed], run once more with the scrapers
    returning the same offers, stores nothing: the [jobs] table is as
    the first run left it and the second log ends [completed] with
    [jobs_found] 0. *)
Theorem second_run_adds_nothing autoflush adapter now now' log_id log_id' sites
    keyword location db log log' :
  Database.first_log_by_id log_id db = Some log →
  Reference.first_init_raise adapter keyword location 0 sites = None →
  let db1 :=
    Backend.run_scrape autoflush adapter now log_id sites keyword location db in
  Database.first_log_by_id log_id' db1 = Some log' →
  let db2 :=
    Backend.run_scrape autoflush adapter now' log_id' sites keyword location db1 in
  Database.jobs db2 = Database.jobs db1
  ∧ ∃ log2,
      Backend.get_scrape_log log_id' db2 = inr log2
      ∧ Models.ScrapeLog.status log2 = Models.completed
      ∧ Models.ScrapeLog.jobs_found log2 = 0.
Proof.
  intros Hlog Hinit db1 Hlog' db2.
  assert (Database.added db1 = []) as Hadded.
  { subst db1. unfold Backend.run_scrape, Backend.run_scrape_begin.
    rewrite Hlog.
    by destruct (run_scrape_work_spec autoflush adapter now log_id sites keyword
                   location
                   (Database.commit now
                      (Database.update_log log_id Backend.set_running db)))
      as (new & _ & Ha & _). }
  assert (Database.jobs db2 = Database.jobs db1) as Hjobs.
  { apply (run_scrape_known autoflush adapter now' log_id' sites keyword location
             db1 log' Hlog' Hadded).
    intros i site_name cls offers job Hi Hcls Hout Hjob.
    by apply (run_scrape_complete autoflush adapter now log_id sites keyword
                location db log Hlog Hinit i site_name cls offers job). }
  split; [done|].
  destruct (run_scrape_logs autoflush adapter now' log_id' sites keyword location
              db1 log' Hlog') as (_ & f & Hid & Hlogs & Hf).
  fold db2 in Hlogs, Hf. rewrite Hinit in Hf.
  exists (f log'). split_and!.
  - unfold Backend.get_scrape_log, Database.first_log_by_id. rewrite Hlogs.
    rewrite first_log_update_same by done. by rewrite Hlog'.
  - by rewrite Hf.
  - rewrite Hf. cbn [Models.ScrapeLog.jobs_found Backend.set_completed].
    rewrite Hjobs, (rows_no_added now' db1 Hadded). lia.
Qed.

Lemma second_run_adds_nothing_witness :
  Database.jobs
    (Backend.run_scrape true Reference.example_adapter 220 1
       ["remoteok"; "indeed"] "python" ""
       (Backend.run_scrape true Reference.example_adapter 120 1
          ["remoteok"; "indeed"] "python" "" Reference.example_log_db))
  = Database.jobs
      (Backend.run_scrape true Reference.example_adapter 120 1
         ["remoteok"; "indeed"] "python" "" Reference.example_log_db).
Proof.
  apply (proj1 (second_run_adds_nothing true Reference.example_adapter 120 220
                  1 1 ["remoteok"; "indeed"] "python" ""
                  Reference.example_log_db _ _ eq_refl eq_refl eq_refl)).
Defined.
